(** * nutsdb: the transactional commit path (tx.go)

    A shallow embedding of [Tx] and of the functions of tx.go: [put],
    [checkSize], [Rollback], [CommitWith], [Commit] with its deferred
    calls, [writeData], [rotateActiveFile] and the index builders.

    Conventions.
    - Go's [int64], [uint32] and [uint64] are [Z] with the wrap-around
      written out ([wrap64], [to_uint32], [to_uint64]).
    - A [[]byte] that the code compares with [nil] is a [slice]
      ([option string], [None] being the nil slice); a Go [string] is a
      [string]; the bytes of the commit buffer are a [list byte].
    - A pointer [tx.db] is [option DBRef]; the [DB] it points to is
      threaded through the state [St].
    - Calls that leave tx.go for the operating system, the mutex, the
      dispatcher or user callbacks are recorded in an event log.
    - A Go run-time panic is the outcome [Panicked]. *)

From Stdlib Require Import ZArith Lia List String Ascii Sorted.
From Stdlib Require OrderedTypeEx.
From Stdlib.Strings Require Import Byte.
From stdpp Require Import base option gmap strings list fin_maps.

Local Open Scope Z_scope.

(** ** Machine integers *)

Definition maxInt64 : Z := 2 ^ 63 - 1.
Definition minInt64 : Z := - 2 ^ 63.

Definition wrap64 (z : Z) : Z := (z + 2 ^ 63) mod 2 ^ 64 - 2 ^ 63.
Definition to_uint32 (z : Z) : Z := z mod 2 ^ 32.
Definition to_uint64 (z : Z) : Z := z mod 2 ^ 64.

Definition add64 (a b : Z) : Z := wrap64 (a + b).

(** [len] of a byte buffer, as an [int]. *)
Definition blen (b : list byte) : Z := Z.of_nat (length b).

Arguments wrap64 : simpl never.
Arguments add64 : simpl never.
Arguments blen : simpl never.

(** ** Go byte slices that may be nil *)

Definition slice : Type := option string.

(** [string(b)] *)
Definition str (b : slice) : string := default EmptyString b.

(** [len(b)] *)
Definition slen (b : slice) : Z := Z.of_nat (String.length (str b)).

(** ** Constants and errors of tx.go *)

Inductive txStatus : Type :=
| txStatusRunning
| txStatusCommitting
| txStatusClosed.

Inductive error : Type :=
| ErrDataSizeExceed
| ErrTxClosed
| ErrTxNotWritable
| ErrKeyEmpty
| ErrBucketEmpty
| ErrRangeScan
| ErrPrefixScan
| ErrPrefixSearchScan
| ErrNotFoundKey
| ErrCannotCommitAClosedTx
| ErrCannotRollbackACommittingTx
| ErrCannotRollbackAClosedTx
| ErrNotFoundBucket
| ErrTxnTooBig
| ErrDBClosed                 (* declared in db.go *)
| ErrNotEnoughFileSpace       (* errors.New("not enough file space") in writeData *)
| ErrExternal (code : nat).   (* an error value produced outside tx.go *)

#[global] Instance txStatus_eq_dec : EqDecision txStatus.
Proof. solve_decision. Defined.
#[global] Instance error_eq_dec : EqDecision error.
Proof. solve_decision. Defined.

(** ** Entries (the declarations are in entry.go, metadata.go) *)

Inductive DataStatus : Type := UnCommitted | Committed.

Inductive DataStructure : Type :=
| DataStructureNone
| DataStructureTree
| DataStructureList
| DataStructureSet
| DataStructureSortedSet.

Inductive DataFlag : Type :=
| DataDeleteFlag
| DataSetFlag
| DataBPTreeBucketDeleteFlag
| DataSetBucketDeleteFlag
| DataSortedSetBucketDeleteFlag
| DataListBucketDeleteFlag
| DataZAddFlag
| DataZRemFlag
| DataZRemRangeByRankFlag
| DataZPopMaxFlag
| DataZPopMinFlag
| DataLPushFlag
| DataRPushFlag
| DataLRemFlag
| DataLPopFlag
| DataRPopFlag
| DataLSetFlag
| DataLTrimFlag
| DataLRemByIndex
| DataExpireListFlag.

#[global] Instance DataStatus_eq_dec : EqDecision DataStatus.
Proof. solve_decision. Defined.
#[global] Instance DataStructure_eq_dec : EqDecision DataStructure.
Proof. solve_decision. Defined.
#[global] Instance DataFlag_eq_dec : EqDecision DataFlag.
Proof. solve_decision. Defined.

(** [Persistent]: the TTL of a key that never expires. *)
Definition Persistent : Z := 0.

Record MetaData : Type := mkMeta {
  KeySize : Z;        (* uint32 *)
  ValueSize : Z;      (* uint32 *)
  Timestamp : Z;      (* uint64, milliseconds *)
  TTL : Z;            (* uint32, seconds *)
  Flag : DataFlag;
  TxID : Z;           (* uint64 *)
  Status : DataStatus;
  Ds : DataStructure;
  BucketSize : Z      (* uint32 *)
}.

Record Entry : Type := mkEntry {
  Key : slice;
  Value : slice;
  Bucket : string;     (* []byte(bucket), only read back through string(...) *)
  Meta : MetaData
}.

Definition WithStatus (s : DataStatus) (m : MetaData) : MetaData :=
  mkMeta (KeySize m) (ValueSize m) (Timestamp m) (TTL m) (Flag m) (TxID m) s
         (Ds m) (BucketSize m).

(** [entry.Meta.Status = s] *)
Definition setStatus (s : DataStatus) (e : Entry) : Entry :=
  mkEntry (Key e) (Value e) (Bucket e) (WithStatus s (Meta e)).

Record Hint : Type := mkHint {
  HKey : slice;
  FileID : Z;          (* int64 *)
  HMeta : MetaData;
  DataPos : Z          (* uint64 *)
}.

Record Record_ : Type := mkRecord {
  H : Hint;
  V : slice;
  RBucket : string
}.

(** ** Bucket meta (sparse mode) *)

Record BucketMeta : Type := mkBucketMeta {
  bm_start : slice;
  bm_end : slice;
  bm_startSize : Z;    (* uint32 *)
  bm_endSize : Z       (* uint32 *)
}.

(** The zero value [BucketMeta{}] of [var bucketMetaTemp BucketMeta]. *)
Definition BucketMeta_zero : BucketMeta := mkBucketMeta None None 0 0.

(** ** Files named by the commit path *)

Inductive Path : Type :=
| DataPath (fID : Z)             (* getDataPath *)
| BPTPath (fID : Z)              (* getBPTPath *)
| BPTRootPath (fID : Z)          (* getBPTRootPath *)
| BPTTxIDPath (fID : Z)          (* getBPTTxIDPath *)
| BPTRootTxIDPath (fID : Z)      (* getBPTRootTxIDPath *)
| BucketMetaFilePath (bucket : string). (* getBucketMetaFilePath *)

Inductive RWMode_t : Type := FileIO | MMap.

Inductive EntryIdxMode_t : Type :=
| HintKeyValAndRAMIdxMode
| HintKeyAndRAMIdxMode
| HintBPTSparseIdxMode.

#[global] Instance RWMode_eq_dec : EqDecision RWMode_t.
Proof. solve_decision. Defined.
#[global] Instance EntryIdxMode_eq_dec : EqDecision EntryIdxMode_t.
Proof. solve_decision. Defined.

(** ** Code of the repository that tx.go calls but that is not in tx.go

    The entry codec, the key helpers, the set, sorted set and list
    structures and the nodes of the on-disk B+ tree are taken as an
    interface: tx.go only calls them. *)

Class Collaborators : Type := {
  (* entry.go, metadata.go, bucket_meta.go *)
  Size : Entry -> Z;
  Encode : Entry -> list byte;
  valid : Entry -> option error;
  NewMetaData : MetaData;
  EncodeBucketMeta : BucketMeta -> list byte;
  (* key helpers *)
  getNewKey : string -> slice -> slice;
  compare : slice -> slice -> Z;
  (* strings.Split, strconv2 and the separators *)
  Split : string -> string -> list string;
  SeparatorForZSetKey : string;
  SeparatorForListKey : string;
  StrToInt : string -> Z;
  StrToInt64 : string -> Z;
  Score : Type;
  StrToFloat64 : string -> Score;
  UnmarshalInts : slice -> list Z;
  IntToStr : Z -> string;
  Int64ToStr : Z -> string;
  (* set.go *)
  SetT : Type;
  NewSet : SetT;
  SRem : string -> slice -> SetT -> SetT;
  SAdd : string -> slice -> Record_ -> SetT -> SetT;
  (* sorted set *)
  SortedSetT : Type;
  NewSortedSet : SortedSetT;
  ZAdd : string -> Score -> slice -> Record_ -> SortedSetT -> SortedSetT;
  ZRem : string -> slice -> SortedSetT -> SortedSetT;
  ZRemRangeByRank : string -> Z -> Z -> SortedSetT -> SortedSetT;
  ZPopMax : string -> SortedSetT -> SortedSetT;
  ZPopMin : string -> SortedSetT -> SortedSetT;
  (* db.Index: the lists of all buckets; every operation names the bucket
     whose list db.Index.getList returned *)
  ListIndex : Type;
  getList : string -> ListIndex -> ListIndex;
  setListTTL : string -> string -> Z -> Z -> ListIndex -> ListIndex;
  LPush : string -> string -> Record_ -> ListIndex -> ListIndex;
  RPush : string -> string -> Record_ -> ListIndex -> ListIndex;
  LRem : string -> string -> Z -> string -> ListIndex -> ListIndex;
  LPop : string -> string -> ListIndex -> ListIndex;
  RPop : string -> string -> ListIndex -> ListIndex;
  LSet : string -> string -> Z -> Record_ -> ListIndex -> ListIndex;
  LTrim : string -> string -> Z -> Z -> ListIndex -> ListIndex;
  LRemByIndex : string -> string -> list Z -> ListIndex -> ListIndex;
  deleteList : string -> ListIndex -> ListIndex;
  IsExpired : Z -> Z -> Z -> bool;   (* ttl, timestamp, the clock *)
  (* bptree.go: the nodes of a B+ tree *)
  BPTNodes : Type;
  NewNodes : BPTNodes;
  rootAddress : BPTNodes -> option Z;  (* None: the root is nil *)
  FirstKey : BPTNodes -> slice;
  LastKey : BPTNodes -> slice;
  nodesInsert : slice -> Hint -> bool -> BPTNodes -> option error * BPTNodes;
  nodesWrite : option Path -> bool -> gmap string Z -> RWMode_t -> bool -> Z ->
               BPTNodes -> option error * BPTNodes
}.

(** ** What the environment answers

    Results of the calls that leave the process: file I/O, the clock, the
    transaction-id generator and the commit dispatcher.  Within one
    [Commit] no such call is repeated with the same arguments, so a
    function of the arguments loses nothing. *)

Class Env : Type := {
  io_WriteAt : Z -> Z -> list byte -> option error;  (* file id, offset, data *)
  io_Sync : Z -> option error;
  io_Release : Z -> option error;
  io_getDataFile : Path -> option error;
  io_Persistence : Path -> option error;
  io_OpenFile : Path -> option error;
  io_fdWriteAt : Path -> list byte -> option error;
  io_fdSync : Path -> option error;
  time_Now : nat -> Z;            (* time.Now().UnixMilli() while entry i is indexed *)
  snowflake_NewNode : option error;
  snowflake_Generate : Z;        (* node.Generate().Int64() *)
  sendToWriteCh_err : option error;
  req_Wait : option error
}.

(** ** Results of a call *)

Inductive Res (A : Type) : Type :=
| Ok (a : A)
| Fail (e : error)     (* return with a non-nil error *)
| Panic.               (* run-time panic *)

Arguments Ok {A} a.
Arguments Fail {A} e.
Arguments Panic {A}.

Section Model.

Context `{C : Collaborators} `{E : Env}.

(** ** The DB context (declared in db.go, options.go, datafile.go) *)

Record Options : Type := mkOptions {
  SegmentSize : Z;          (* int64 *)
  CommitBufferSize : Z;     (* int64 *)
  SyncEnable : bool;
  RWMode : RWMode_t;
  EntryIdxMode : EntryIdxMode_t;
  MaxBatchCount : Z;        (* db.getMaxBatchCount() *)
  MaxBatchSize : Z;         (* db.getMaxBatchSize() *)
  ErrorHandler : bool       (* whether opt.ErrorHandler != nil *)
}.

Record DataFile : Type := mkDataFile {
  fileID : Z;               (* int64 *)
  writeOff : Z;             (* int64 *)
  ActualSize : Z            (* int64 *)
}.

Record BPTree : Type := mkBPTree {
  nodes : BPTNodes;
  Filepath : option Path;
  enabledKeyPosMap : bool;
  KeyPosMap : gmap string Z
}.

Definition NewTree : BPTree := mkBPTree NewNodes None false ∅.

Record BPTreeRootIdx : Type := mkBPTreeRootIdx {
  rootOff : Z;
  ri_fID : Z;
  ri_startSize : Z;
  ri_endSize : Z;
  ri_start : slice;
  ri_end : slice
}.

(** Modelled from the spec: btree.go is not among the sources.  The
    ordered index of a bucket maps a key to the value (kept only in
    key-and-RAM mode) and the hint (spec 3, Indexes). *)
Definition BTree : Type := gmap string (slice * Hint).

Definition NewBTree : BTree := ∅.

(** Modelled from the spec: the TTL manager is not among the sources.
    Per (bucket, key) it holds at most one scheduled deletion, here the
    delay it was scheduled with; a new [add] supersedes the previous one
    and [del] cancels it (spec 4.5). *)
Definition TTLManager : Type := gmap (string * string) Z.

Record DB : Type := mkDB {
  opt : Options;
  closed : bool;
  isMerging : bool;
  MaxFileID : Z;                      (* int64 *)
  ActiveFile : option DataFile;       (* *DataFile *)
  commitBuffer : list byte;
  BTreeIdx : gmap string BTree;
  SetIdx : gmap string SetT;
  SortedSetIdx : gmap string SortedSetT;
  Index : ListIndex;
  tm : TTLManager;
  KeyCount : Z;
  BPTreeKeyEntryPosMap : gmap string Z;
  ActiveBPTreeIdx : BPTree;
  ActiveCommittedTxIdsIdx : BPTree;
  BPTreeRootIdxes : list BPTreeRootIdx;
  bucketMetas : gmap string BucketMeta
}.

Definition set_MaxFileID (v : Z) (d : DB) : DB :=
  mkDB (opt d) (closed d) (isMerging d) v (ActiveFile d) (commitBuffer d)
       (BTreeIdx d) (SetIdx d) (SortedSetIdx d) (Index d) (tm d) (KeyCount d)
       (BPTreeKeyEntryPosMap d) (ActiveBPTreeIdx d) (ActiveCommittedTxIdsIdx d)
       (BPTreeRootIdxes d) (bucketMetas d).

Definition set_ActiveFile (v : option DataFile) (d : DB) : DB :=
  mkDB (opt d) (closed d) (isMerging d) (MaxFileID d) v (commitBuffer d)
       (BTreeIdx d) (SetIdx d) (SortedSetIdx d) (Index d) (tm d) (KeyCount d)
       (BPTreeKeyEntryPosMap d) (ActiveBPTreeIdx d) (ActiveCommittedTxIdsIdx d)
       (BPTreeRootIdxes d) (bucketMetas d).

Definition set_commitBuffer (v : list byte) (d : DB) : DB :=
  mkDB (opt d) (closed d) (isMerging d) (MaxFileID d) (ActiveFile d) v
       (BTreeIdx d) (SetIdx d) (SortedSetIdx d) (Index d) (tm d) (KeyCount d)
       (BPTreeKeyEntryPosMap d) (ActiveBPTreeIdx d) (ActiveCommittedTxIdsIdx d)
       (BPTreeRootIdxes d) (bucketMetas d).

Definition set_BTreeIdx (v : gmap string BTree) (d : DB) : DB :=
  mkDB (opt d) (closed d) (isMerging d) (MaxFileID d) (ActiveFile d)
       (commitBuffer d) v (SetIdx d) (SortedSetIdx d) (Index d) (tm d)
       (KeyCount d) (BPTreeKeyEntryPosMap d) (ActiveBPTreeIdx d)
       (ActiveCommittedTxIdsIdx d) (BPTreeRootIdxes d) (bucketMetas d).

Definition set_SetIdx (v : gmap string SetT) (d : DB) : DB :=
  mkDB (opt d) (closed d) (isMerging d) (MaxFileID d) (ActiveFile d)
       (commitBuffer d) (BTreeIdx d) v (SortedSetIdx d) (Index d) (tm d)
       (KeyCount d) (BPTreeKeyEntryPosMap d) (ActiveBPTreeIdx d)
       (ActiveCommittedTxIdsIdx d) (BPTreeRootIdxes d) (bucketMetas d).

Definition set_SortedSetIdx (v : gmap string SortedSetT) (d : DB) : DB :=
  mkDB (opt d) (closed d) (isMerging d) (MaxFileID d) (ActiveFile d)
       (commitBuffer d) (BTreeIdx d) (SetIdx d) v (Index d) (tm d)
       (KeyCount d) (BPTreeKeyEntryPosMap d) (ActiveBPTreeIdx d)
       (ActiveCommittedTxIdsIdx d) (BPTreeRootIdxes d) (bucketMetas d).

Definition set_Index (v : ListIndex) (d : DB) : DB :=
  mkDB (opt d) (closed d) (isMerging d) (MaxFileID d) (ActiveFile d)
       (commitBuffer d) (BTreeIdx d) (SetIdx d) (SortedSetIdx d) v (tm d)
       (KeyCount d) (BPTreeKeyEntryPosMap d) (ActiveBPTreeIdx d)
       (ActiveCommittedTxIdsIdx d) (BPTreeRootIdxes d) (bucketMetas d).

Definition set_tm (v : TTLManager) (d : DB) : DB :=
  mkDB (opt d) (closed d) (isMerging d) (MaxFileID d) (ActiveFile d)
       (commitBuffer d) (BTreeIdx d) (SetIdx d) (SortedSetIdx d) (Index d) v
       (KeyCount d) (BPTreeKeyEntryPosMap d) (ActiveBPTreeIdx d)
       (ActiveCommittedTxIdsIdx d) (BPTreeRootIdxes d) (bucketMetas d).

Definition set_KeyCount (v : Z) (d : DB) : DB :=
  mkDB (opt d) (closed d) (isMerging d) (MaxFileID d) (ActiveFile d)
       (commitBuffer d) (BTreeIdx d) (SetIdx d) (SortedSetIdx d) (Index d)
       (tm d) v (BPTreeKeyEntryPosMap d) (ActiveBPTreeIdx d)
       (ActiveCommittedTxIdsIdx d) (BPTreeRootIdxes d) (bucketMetas d).

Definition set_BPTreeKeyEntryPosMap (v : gmap string Z) (d : DB) : DB :=
  mkDB (opt d) (closed d) (isMerging d) (MaxFileID d) (ActiveFile d)
       (commitBuffer d) (BTreeIdx d) (SetIdx d) (SortedSetIdx d) (Index d)
       (tm d) (KeyCount d) v (ActiveBPTreeIdx d) (ActiveCommittedTxIdsIdx d)
       (BPTreeRootIdxes d) (bucketMetas d).

Definition set_ActiveBPTreeIdx (v : BPTree) (d : DB) : DB :=
  mkDB (opt d) (closed d) (isMerging d) (MaxFileID d) (ActiveFile d)
       (commitBuffer d) (BTreeIdx d) (SetIdx d) (SortedSetIdx d) (Index d)
       (tm d) (KeyCount d) (BPTreeKeyEntryPosMap d) v
       (ActiveCommittedTxIdsIdx d) (BPTreeRootIdxes d) (bucketMetas d).

Definition set_ActiveCommittedTxIdsIdx (v : BPTree) (d : DB) : DB :=
  mkDB (opt d) (closed d) (isMerging d) (MaxFileID d) (ActiveFile d)
       (commitBuffer d) (BTreeIdx d) (SetIdx d) (SortedSetIdx d) (Index d)
       (tm d) (KeyCount d) (BPTreeKeyEntryPosMap d) (ActiveBPTreeIdx d) v
       (BPTreeRootIdxes d) (bucketMetas d).

Definition set_BPTreeRootIdxes (v : list BPTreeRootIdx) (d : DB) : DB :=
  mkDB (opt d) (closed d) (isMerging d) (MaxFileID d) (ActiveFile d)
       (commitBuffer d) (BTreeIdx d) (SetIdx d) (SortedSetIdx d) (Index d)
       (tm d) (KeyCount d) (BPTreeKeyEntryPosMap d) (ActiveBPTreeIdx d)
       (ActiveCommittedTxIdsIdx d) v (bucketMetas d).

Definition set_bucketMetas (v : gmap string BucketMeta) (d : DB) : DB :=
  mkDB (opt d) (closed d) (isMerging d) (MaxFileID d) (ActiveFile d)
       (commitBuffer d) (BTreeIdx d) (SetIdx d) (SortedSetIdx d) (Index d)
       (tm d) (KeyCount d) (BPTreeKeyEntryPosMap d) (ActiveBPTreeIdx d)
       (ActiveCommittedTxIdsIdx d) (BPTreeRootIdxes d) v.

(** ** Transactions *)

Inductive DBRef : Type := theDBRef.

Record Tx : Type := mkTx {
  tx_id : Z;                     (* id uint64 *)
  db : option DBRef;             (* *DB; None is nil *)
  writable : bool;
  status : option txStatus;      (* atomic.Value; None before the first Store *)
  pendingWrites : list Entry;    (* a nil slice is the empty list *)
  ReservedStoreTxIDIdxes : option (gmap Z BPTree);  (* None is the nil map *)
  tx_size : Z                    (* size int64 *)
}.

Definition set_db (v : option DBRef) (t : Tx) : Tx :=
  mkTx (tx_id t) v (writable t) (status t) (pendingWrites t)
       (ReservedStoreTxIDIdxes t) (tx_size t).

Definition set_status (v : option txStatus) (t : Tx) : Tx :=
  mkTx (tx_id t) (db t) (writable t) v (pendingWrites t)
       (ReservedStoreTxIDIdxes t) (tx_size t).

Definition set_pendingWrites (v : list Entry) (t : Tx) : Tx :=
  mkTx (tx_id t) (db t) (writable t) (status t) v
       (ReservedStoreTxIDIdxes t) (tx_size t).

Definition set_Reserved (v : option (gmap Z BPTree)) (t : Tx) : Tx :=
  mkTx (tx_id t) (db t) (writable t) (status t) (pendingWrites t) v (tx_size t).

Definition set_size (v : Z) (t : Tx) : Tx :=
  mkTx (tx_id t) (db t) (writable t) (status t) (pendingWrites t)
       (ReservedStoreTxIDIdxes t) v.

Record txnCb : Type := mkTxnCb {
  cb_commit : bool;              (* commit != nil; the closure waits on the request *)
  cb_user : option nat;          (* the user's func(error), by name; None is nil *)
  cb_err : option error
}.

(** ** Events *)

Inductive Event : Type :=
| EvLock | EvRLock | EvUnlock | EvRUnlock           (* db.mu *)
| EvHandleError (e : error)                         (* opt.ErrorHandler.HandleError *)
| EvWriteAt (fid off : Z) (data : list byte)        (* ActiveFile.WriteAt *)
| EvSync (fid : Z)                                  (* ActiveFile.rwManager.Sync *)
| EvRelease (fid : Z)                               (* ActiveFile.rwManager.Release *)
| EvGetDataFile (p : Path)                          (* fm.getDataFile *)
| EvBufferWrite (e : Entry) (fid off : Z)           (* buff.Write(entry.Encode()) *)
| EvWriteNodes (p : option Path)                    (* BPTree.WriteNodes *)
| EvPersistence (p : Path)                          (* BPTreeRootIdx.Persistence *)
| EvOpenFile (p : Path)
| EvFdWriteAt (p : Path) (data : list byte)
| EvFdSync (p : Path)
| EvSendToWriteCh (txid : Z)                        (* db.sendToWriteCh(tx) *)
| EvGo (cb : txnCb)                                 (* go runTxnCallback(cb) *)
| EvUser (f : nat) (err : option error).            (* cb.user(err) *)

(** ** State and the monad of tx.go's methods *)

Record St : Type := mkSt {
  st_tx : Tx;
  st_db : DB;
  st_log : list Event
}.

Definition M (A : Type) : Type := St -> Res A * St.

Definition ret {A} (a : A) : M A := fun s => (Ok a, s).

Definition bind {A B} (m : M A) (f : A -> M B) : M B :=
  fun s =>
    match m s with
    | (Ok a, s') => f a s'
    | (Fail e, s') => (Fail e, s')
    | (Panic, s') => (Panic, s')
    end.

Definition fail {A} (e : error) : M A := fun s => (Fail e, s).
Definition panic {A} : M A := fun s => (Panic, s).
Definition gets {A} (f : St -> A) : M A := fun s => (Ok (f s), s).
Definition modify (f : St -> St) : M unit := fun s => (Ok tt, f s).

Definition modifyDB (f : DB -> DB) : M unit :=
  modify (fun s => mkSt (st_tx s) (f (st_db s)) (st_log s)).
Definition modifyTx (f : Tx -> Tx) : M unit :=
  modify (fun s => mkSt (f (st_tx s)) (st_db s) (st_log s)).
Definition emit (ev : Event) : M unit :=
  modify (fun s => mkSt (st_tx s) (st_db s) (st_log s ++ [ev])).

(** [if err != nil { return err }] for an error that came from outside. *)
Definition check (r : option error) : M unit :=
  match r with Some e => fail e | None => ret tt end.


Declare Scope tx_scope.
Delimit Scope tx_scope with tx.
Notation "x <- m ;; k" := (bind m (fun x => k))
  (at level 20, m at level 99, k at level 200, only parsing) : tx_scope.
Notation "m ;; k" := (bind m (fun _ => k))
  (at level 100, k at level 200, only parsing, right associativity) : tx_scope.
Local Open Scope tx_scope.

(** [tx.db.…]: a nil [tx.db] panics. *)
Definition theDB : M DB :=
  fun s => match db (st_tx s) with
           | Some _ => (Ok (st_db s), s)
           | None => (Panic, s)
           end.

(** [tx.db.ActiveFile.…]: a nil [ActiveFile] panics. *)
Definition theActiveFile : M DataFile :=
  d <- theDB ;;
  match ActiveFile d with
  | Some f => ret f
  | None => panic
  end.

(** ** Status cell *)

Definition setStatusCommitting : M unit := modifyTx (set_status (Some txStatusCommitting)).
Definition setStatusClosed : M unit := modifyTx (set_status (Some txStatusClosed)).
Definition setStatusRunning : M unit := modifyTx (set_status (Some txStatusRunning)).

(** [tx.status.Load().(int)]: the assertion panics on an empty cell. *)
Definition loadStatus : M txStatus :=
  t <- gets st_tx ;;
  match status t with
  | Some v => ret v
  | None => panic
  end.

Definition isRunning : M bool := v <- loadStatus ;; ret (bool_decide (v = txStatusRunning)).
Definition isCommitting : M bool := v <- loadStatus ;; ret (bool_decide (v = txStatusCommitting)).
Definition isClosed : M bool := v <- loadStatus ;; ret (bool_decide (v = txStatusClosed)).

(** ** lock, unlock, handleErr *)

Definition lock : M unit :=
  t <- gets st_tx ;;
  _ <- theDB ;;
  emit (if writable t then EvLock else EvRLock).

Definition unlock : M unit :=
  t <- gets st_tx ;;
  _ <- theDB ;;
  emit (if writable t then EvUnlock else EvRUnlock).

Definition handleErr (err : error) : M unit :=
  d <- theDB ;;
  if ErrorHandler (opt d) then emit (EvHandleError err) else ret tt.

(** ** checkSize *)

Definition checkSize : M unit :=
  t <- gets st_tx ;;
  let count := Z.of_nat (length (pendingWrites t)) in
  d <- theDB ;;
  if (count >=? MaxBatchCount (opt d)) || (tx_size t >=? MaxBatchSize (opt d))
  then fail ErrTxnTooBig
  else ret tt.

(** ** put, putDeleteLog *)

Definition checkTxIsClosed : M unit :=
  t <- gets st_tx ;;
  match db t with
  | None => fail ErrTxClosed
  | Some _ => ret tt
  end.

Definition newEntry (t : Tx) (bucket : string) (key value : slice) (ttl : Z)
    (flag : DataFlag) (timestamp : Z) (ds : DataStructure) : Entry :=
  mkEntry key value bucket
    (mkMeta (to_uint32 (slen key)) (to_uint32 (slen value)) timestamp ttl flag
            (tx_id t) UnCommitted ds
            (to_uint32 (Z.of_nat (String.length bucket)))).

Definition appendEntry (e : Entry) (t : Tx) : Tx :=
  set_size (add64 (tx_size t) (Size e))
           (set_pendingWrites (pendingWrites t ++ [e]) t).

Definition put (bucket : string) (key value : slice) (ttl : Z)
    (flag : DataFlag) (timestamp : Z) (ds : DataStructure) : M unit :=
  checkTxIsClosed ;;
  t <- gets st_tx ;;
  if negb (writable t) then fail ErrTxNotWritable
  else
    let e := newEntry t bucket key value ttl flag timestamp ds in
    check (valid e) ;;
    modifyTx (appendEntry e).

Definition putDeleteLog (bucket : string) (key value : slice) (ttl : Z)
    (flag : DataFlag) (timestamp : Z) (ds : DataStructure) : M unit :=
  t <- gets st_tx ;;
  modifyTx (appendEntry (newEntry t bucket key value ttl flag timestamp ds)).

Definition PutWithTimestamp (bucket : string) (key value : slice) (ttl timestamp : Z) : M unit :=
  put bucket key value ttl DataSetFlag timestamp DataStructureTree.

(** [now] is what [time.Now().UnixMilli()] returns. *)
Definition Put (now : Z) (bucket : string) (key value : slice) (ttl : Z) : M unit :=
  put bucket key value ttl DataSetFlag (to_uint64 now) DataStructureTree.

(** ** Rollback *)

Definition Rollback : M unit :=
  t <- gets st_tx ;;
  match db t with
  | None => setStatusClosed ;; fail ErrDBClosed
  | Some _ =>
      committing <- isCommitting ;;
      if committing : bool then fail ErrCannotRollbackACommittingTx
      else
        closed_ <- isClosed ;;
        if closed_ : bool then fail ErrCannotRollbackAClosedTx
        else
          setStatusClosed ;;
          unlock ;;
          modifyTx (set_db None) ;;
          modifyTx (set_pendingWrites [])
  end.

(** ** CommitWith and the callback *)

Definition runTxnCallback (cb : option txnCb) : M unit :=
  match cb with
  | None => panic
  | Some cb =>
      match cb_user cb with
      | None => panic
      | Some user =>
          match cb_err cb with
          | Some e => emit (EvUser user (Some e))
          | None =>
              if cb_commit cb then emit (EvUser user req_Wait)
              else emit (EvUser user None)
          end
      end
  end.

(** The result is whether a request (hence the closure [ret]) came back. *)
Definition commitAndSend : M unit :=
  _ <- theDB ;;
  t <- gets st_tx ;;
  emit (EvSendToWriteCh (tx_id t)) ;;
  check sendToWriteCh_err.

Definition CommitWith (cb : option nat) : M unit :=
  match cb with
  | None => panic
  | Some _ =>
      t <- gets st_tx ;;
      if decide (length (pendingWrites t) = 0%nat)
      then emit (EvGo (mkTxnCb false cb None))
      else
        fun s =>
          match commitAndSend s with
          | (Ok _, s') => emit (EvGo (mkTxnCb true cb None)) s'
          | (Fail err, s') => emit (EvGo (mkTxnCb false cb (Some err))) s'
          | (Panic, s') => (Panic, s')
          end
  end.

(** ** writeData *)

Definition bumpActiveFile (l : Z) (d : DB) : DB :=
  match ActiveFile d with
  | Some f =>
      set_ActiveFile
        (Some (mkDataFile (fileID f) (add64 (writeOff f) l) (add64 (ActualSize f) l))) d
  | None => d
  end.

Definition writeData (data : list byte) : M unit :=
  if decide (length data = 0%nat) then ret tt
  else
    d <- theDB ;;
    f <- theActiveFile ;;
    let writeOffset := ActualSize f in
    let l := blen data in
    if add64 writeOffset l >? SegmentSize (opt d) then fail ErrNotEnoughFileSpace
    else
      emit (EvWriteAt (fileID f) writeOffset data) ;;
      check (io_WriteAt (fileID f) writeOffset data) ;;
      modifyDB (bumpActiveFile l) ;;
      if SyncEnable (opt d)
      then emit (EvSync (fileID f)) ;; check (io_Sync (fileID f))
      else ret tt.

(** ** rotateActiveFile *)

(** Modelled from the spec: fm.getDataFile is not among the sources.  A
    newly opened segment is empty: nothing written, next append at 0
    (spec 4.3 step 4 and the rotation scenario of spec 8). *)
Definition getDataFile (path : Path) (capacity : Z) : M DataFile :=
  emit (EvGetDataFile path) ;;
  check (io_getDataFile path) ;;
  ret (mkDataFile 0 0 0).

Definition rotateSparse (fID : Z) : M unit :=
  d <- theDB ;;
  let t0 := ActiveBPTreeIdx d in
  let t1 := mkBPTree (nodes t0) (Some (BPTPath fID)) true (BPTreeKeyEntryPosMap d) in
  modifyDB (set_ActiveBPTreeIdx t1) ;;
  emit (EvWriteNodes (Filepath t1)) ;;
  let w := nodesWrite (Filepath t1) (enabledKeyPosMap t1) (KeyPosMap t1)
                      (RWMode (opt d)) (SyncEnable (opt d)) 1 (nodes t1) in
  let t2 := mkBPTree (snd w) (Filepath t1) (enabledKeyPosMap t1) (KeyPosMap t1) in
  modifyDB (set_ActiveBPTreeIdx t2) ;;
  check (fst w) ;;
  match rootAddress (nodes t2) with
  | None => panic
  | Some addr =>
      let rootIdx :=
        mkBPTreeRootIdx (to_uint64 addr) (to_uint64 fID)
          (to_uint32 (slen (FirstKey (nodes t2))))
          (to_uint32 (slen (LastKey (nodes t2))))
          (FirstKey (nodes t2)) (LastKey (nodes t2)) in
      emit (EvPersistence (BPTRootPath fID)) ;;
      check (io_Persistence (BPTRootPath fID)) ;;
      modifyDB (fun d => set_BPTreeRootIdxes (BPTreeRootIdxes d ++ [rootIdx]) d) ;;
      modifyDB (set_BPTreeKeyEntryPosMap ∅) ;;
      modifyDB (set_ActiveBPTreeIdx NewTree) ;;
      d <- theDB ;;
      t <- gets st_tx ;;
      match ReservedStoreTxIDIdxes t with
      | None => panic       (* assignment to an entry of a nil map *)
      | Some m =>
          modifyTx (set_Reserved (Some (<[fID := ActiveCommittedTxIdsIdx d]> m))) ;;
          modifyDB (set_ActiveCommittedTxIdsIdx NewTree)
      end
  end.

(** The last part of [rotateActiveFile], under the comment "reset ActiveFile". *)
Definition resetActiveFile : M unit :=
  d <- theDB ;;
  let path := DataPath (MaxFileID d) in
  fun s =>
    match getDataFile path (SegmentSize (opt d)) s with
    | (Ok f, s') =>
        modifyDB (set_ActiveFile (Some (mkDataFile (MaxFileID d) (writeOff f) (ActualSize f)))) s'
    | (Fail err, s') =>
        (* tx.db.ActiveFile, err = ...: the nil file is assigned before the return *)
        (Fail err, mkSt (st_tx s') (set_ActiveFile None (st_db s')) (st_log s'))
    | (Panic, s') => (Panic, s')
    end.

Definition rotateActiveFile : M unit :=
  d <- theDB ;;
  let fID := MaxFileID d in
  modifyDB (set_MaxFileID (add64 fID 1)) ;;
  (if negb (SyncEnable (opt d)) && bool_decide (RWMode (opt d) = MMap)
   then f <- theActiveFile ;; emit (EvSync (fileID f)) ;; check (io_Sync (fileID f))
   else ret tt) ;;
  f <- theActiveFile ;;
  emit (EvRelease (fileID f)) ;;
  check (io_Release (fileID f)) ;;
  (if decide (EntryIdxMode (opt d) = HintBPTSparseIdxMode)
   then rotateSparse fID
   else ret tt) ;;
  resetActiveFile.

(** ** Bucket meta (sparse mode) *)

Definition buildTempBucketMetaIdx (bucket : string) (key : slice)
    (bucketMetaTemp : BucketMeta) : BucketMeta :=
  let keySize := to_uint32 (slen key) in
  match bm_start bucketMetaTemp with
  | None => mkBucketMeta key key keySize keySize
  | Some _ =>
      let t1 :=
        if compare (bm_start bucketMetaTemp) key >? 0
        then mkBucketMeta key (bm_end bucketMetaTemp) keySize (bm_endSize bucketMetaTemp)
        else bucketMetaTemp in
      if compare (bm_end t1) key <? 0
      then mkBucketMeta (bm_start t1) key (bm_startSize t1) keySize
      else t1
  end.

(** The part of [buildBucketMetaIdx] under [if updateFlag]. *)
Definition writeBucketMeta (bucket : string) (bucketMeta : BucketMeta) : M unit :=
  d <- theDB ;;
  let path := BucketMetaFilePath bucket in
  emit (EvOpenFile path) ;;
  check (io_OpenFile path) ;;
  emit (EvFdWriteAt path (EncodeBucketMeta bucketMeta)) ;;
  check (io_fdWriteAt path (EncodeBucketMeta bucketMeta)) ;;
  (if SyncEnable (opt d)
   then emit (EvFdSync path) ;; check (io_fdSync path)
   else ret tt) ;;
  modifyDB (fun d => set_bucketMetas (<[bucket := bucketMeta]> (bucketMetas d)) d).

Definition buildBucketMetaIdx (bucket : string) (key : slice)
    (bucketMetaTemp : BucketMeta) : M unit :=
  d <- theDB ;;
  let start := bm_start bucketMetaTemp in
  let startSize := to_uint32 (slen start) in
  let end_ := bm_end bucketMetaTemp in
  let endSize := to_uint32 (slen end_) in
  match bucketMetas d !! bucket with
  | None => writeBucketMeta bucket (mkBucketMeta start end_ startSize endSize)
  | Some bucketMeta =>
      let u1 := bool_decide (compare (bm_start bucketMeta) start > 0) in
      let m1 :=
        if u1
        then mkBucketMeta start (bm_end bucketMeta) startSize (bm_endSize bucketMeta)
        else bucketMeta in
      let u2 := bool_decide (compare (bm_end m1) end_ < 0) in
      let m2 :=
        if u2
        then mkBucketMeta (bm_start m1) end_ (bm_startSize m1) endSize
        else m1 in
      (* bucketMeta points into tx.db.bucketMetas: the cache sees the
         assignments above before anything is written *)
      modifyDB (fun d => set_bucketMetas (<[bucket := m2]> (bucketMetas d)) d) ;;
      if u1 || u2 then writeBucketMeta bucket m2 else ret tt
  end.

(** ** Committed transaction ids (sparse mode) *)

Definition WithFlag (f : DataFlag) (m : MetaData) : MetaData :=
  mkMeta (KeySize m) (ValueSize m) (Timestamp m) (TTL m) f (TxID m) (Status m)
         (Ds m) (BucketSize m).

(** [NewHint().WithMeta(meta)] *)
Definition metaHint (meta : MetaData) : Hint := mkHint None 0 meta 0.

Definition storeReserved (fID : Z) (t : BPTree) : M unit :=
  modifyTx (fun x =>
    match ReservedStoreTxIDIdxes x with
    | Some m => set_Reserved (Some (<[fID := t]> m)) x
    | None => x
    end).

(** The body of [for fID, txIDIdx := range tx.ReservedStoreTxIDIdxes]; the
    map is walked in the order of [map_to_list]. *)
Fixpoint buildTxIDRootIdx_range (l : list (Z * BPTree)) (txIDStr : string)
    (meta : MetaData) (countFlag : bool) : M unit :=
  match l with
  | [] => ret tt
  | (fID, txIDIdx) :: l' =>
      d <- theDB ;;
      let filePath := BPTTxIDPath fID in
      let ins := nodesInsert (Some txIDStr) (metaHint meta) countFlag (nodes txIDIdx) in
      let t1 := mkBPTree (snd ins) (Filepath txIDIdx) (enabledKeyPosMap txIDIdx)
                         (KeyPosMap txIDIdx) in
      storeReserved fID t1 ;;
      check (fst ins) ;;
      let t2 := mkBPTree (nodes t1) (Some filePath) (enabledKeyPosMap t1) (KeyPosMap t1) in
      storeReserved fID t2 ;;
      emit (EvWriteNodes (Filepath t2)) ;;
      let w := nodesWrite (Filepath t2) (enabledKeyPosMap t2) (KeyPosMap t2)
                          (RWMode (opt d)) (SyncEnable (opt d)) 2 (nodes t2) in
      let t3 := mkBPTree (snd w) (Filepath t2) (enabledKeyPosMap t2) (KeyPosMap t2) in
      storeReserved fID t3 ;;
      check (fst w) ;;
      let filePath' := BPTRootTxIDPath fID in
      match rootAddress (nodes t3) with
      | None => panic
      | Some addr =>
          let rootAddress_ := Int64ToStr addr in
          let ins' := nodesInsert (Some rootAddress_) (metaHint meta) countFlag
                                  (nodes NewTree) in
          check (fst ins') ;;
          emit (EvWriteNodes (Some filePath')) ;;
          let w' := nodesWrite (Some filePath') (enabledKeyPosMap NewTree)
                               (KeyPosMap NewTree) (RWMode (opt d))
                               (SyncEnable (opt d)) 2 (snd ins') in
          check (fst w') ;;
          buildTxIDRootIdx_range l' txIDStr meta countFlag
      end
  end.

Definition buildTxIDRootIdx (txID : Z) (countFlag : bool) : M unit :=
  let txIDStr := IntToStr (wrap64 txID) in
  let meta := WithFlag DataSetFlag NewMetaData in
  d <- theDB ;;
  let t0 := ActiveCommittedTxIdsIdx d in
  let ins := nodesInsert (Some txIDStr) (metaHint meta) countFlag (nodes t0) in
  modifyDB (set_ActiveCommittedTxIdsIdx
              (mkBPTree (snd ins) (Filepath t0) (enabledKeyPosMap t0) (KeyPosMap t0))) ;;
  check (fst ins) ;;
  t <- gets st_tx ;;
  match ReservedStoreTxIDIdxes t with
  | None => ret tt
  | Some m => buildTxIDRootIdx_range (map_to_list m) txIDStr meta countFlag
  end.

(** ** Index builders *)

(** Modelled from the spec: db.deleteBucket is not among the sources.  It
    removes the in-memory index of the bucket for the given data
    structure (spec 4.2 step 4). *)
Definition deleteBucket (ds : DataStructure) (bucket : string) : M unit :=
  _ <- theDB ;;
  match ds with
  | DataStructureTree => modifyDB (fun d => set_BTreeIdx (delete bucket (BTreeIdx d)) d)
  | DataStructureSet => modifyDB (fun d => set_SetIdx (delete bucket (SetIdx d)) d)
  | DataStructureSortedSet =>
      modifyDB (fun d => set_SortedSetIdx (delete bucket (SortedSetIdx d)) d)
  | DataStructureList => modifyDB (fun d => set_Index (deleteList bucket (Index d)) d)
  | DataStructureNone => ret tt
  end.

Fixpoint buildNotDSIdxes_range (l : list Entry) : M unit :=
  match l with
  | [] => ret tt
  | entry :: l' =>
      let bucket := Bucket entry in
      (if decide (Ds (Meta entry) = DataStructureNone)
       then
         (if decide (Flag (Meta entry) = DataBPTreeBucketDeleteFlag)
          then deleteBucket DataStructureTree bucket else ret tt) ;;
         (if decide (Flag (Meta entry) = DataSetBucketDeleteFlag)
          then deleteBucket DataStructureSet bucket else ret tt) ;;
         (if decide (Flag (Meta entry) = DataSortedSetBucketDeleteFlag)
          then deleteBucket DataStructureSortedSet bucket else ret tt) ;;
         (if decide (Flag (Meta entry) = DataListBucketDeleteFlag)
          then deleteBucket DataStructureList bucket else ret tt)
       else ret tt) ;;
      _ <- theDB ;;
      modifyDB (fun d => set_KeyCount (add64 (KeyCount d) 1) d) ;;
      buildNotDSIdxes_range l'
  end.

Definition buildNotDSIdxes : M unit :=
  t <- gets st_tx ;;
  buildNotDSIdxes_range (pendingWrites t).

(** [expireTime]: [time.UnixMilli(int64(ts)).Add(time.Duration(ttl) * time.Second)],
    in milliseconds. *)
Definition expireTimeOf (meta : MetaData) : Z :=
  wrap64 (Timestamp meta) + TTL meta * 1000.

(** [t.Sub(u)] for two times in milliseconds: a [time.Duration], in
    nanoseconds, saturating. *)
Definition time_Sub (t u : Z) : Z :=
  let d := (t - u) * 1000000 in
  if d >? maxInt64 then maxInt64
  else if d <? minInt64 then minInt64
  else d.

(** [now] is [time.Now().UnixMilli()]; [now.After(expireTime)] is [now > expireTime]. *)
Definition buildTreeIdx (now : Z) (record : Record_) (countFlag : bool) : M unit :=
  let bucket := RBucket record in
  let key := HKey (H record) in
  let meta := HMeta (H record) in
  let offset := DataPos (H record) in
  d <- theDB ;;
  if decide (EntryIdxMode (opt d) = HintBPTSparseIdxMode)
  then
    let newKey := getNewKey bucket key in
    f <- theActiveFile ;;
    let hint := mkHint newKey (fileID f) meta offset in
    let t0 := ActiveBPTreeIdx d in
    let ins := nodesInsert newKey hint countFlag (nodes t0) in
    modifyDB (set_ActiveBPTreeIdx
                (mkBPTree (snd ins) (Filepath t0) (enabledKeyPosMap t0) (KeyPosMap t0)))
  else
    (match BTreeIdx d !! bucket with
     | Some _ => ret tt
     | None => modifyDB (fun d => set_BTreeIdx (<[bucket := NewBTree]> (BTreeIdx d)) d)
     end) ;;
    if decide (Flag meta = DataSetFlag)
    then
      let value :=
        if decide (EntryIdxMode (opt d) = HintKeyValAndRAMIdxMode) then V record else None in
      let insert_ : M unit :=
        f <- theActiveFile ;;
        let hint := mkHint key (fileID f) meta offset in
        modifyDB (fun d =>
          set_BTreeIdx
            (<[bucket := <[str key := (value, hint)]> (default NewBTree (BTreeIdx d !! bucket))]>
               (BTreeIdx d)) d) in
      if decide (TTL meta = Persistent)
      then
        modifyDB (fun d => set_tm (delete (bucket, str key) (tm d)) d) ;;
        insert_
      else
        let expireTime := expireTimeOf meta in
        if now >? expireTime then ret tt
        else
          modifyDB (fun d =>
            set_tm (<[(bucket, str key) := time_Sub expireTime now]> (tm d)) d) ;;
          insert_
    else
      if decide (Flag meta = DataDeleteFlag)
      then
        modifyDB (fun d => set_tm (delete (bucket, str key) (tm d)) d) ;;
        modifyDB (fun d =>
          set_BTreeIdx
            (<[bucket := delete (str key) (default NewBTree (BTreeIdx d !! bucket))]>
               (BTreeIdx d)) d)
      else ret tt.

(** Modelled from the spec: db.resetRecordByMode is not among the
    sources.  Outside key-and-RAM mode the value of a record is dropped
    (spec 3, Indexes). *)
Definition resetRecordByMode (d : DB) (record : Record_) : Record_ :=
  if decide (EntryIdxMode (opt d) = HintKeyValAndRAMIdxMode) then record
  else mkRecord (H record) None (RBucket record).

Definition buildSetIdx (record : Record_) : M unit :=
  let bucket := RBucket record in
  let key := HKey (H record) in
  let value := V record in
  let meta := HMeta (H record) in
  d <- theDB ;;
  let record := resetRecordByMode d record in
  (match SetIdx d !! bucket with
   | Some _ => ret tt
   | None => modifyDB (fun d => set_SetIdx (<[bucket := NewSet]> (SetIdx d)) d)
   end) ;;
  (if decide (Flag meta = DataDeleteFlag)
   then modifyDB (fun d =>
          set_SetIdx (<[bucket := SRem (str key) value (default NewSet (SetIdx d !! bucket))]>
                        (SetIdx d)) d)
   else ret tt) ;;
  (if decide (Flag meta = DataSetFlag)
   then modifyDB (fun d =>
          set_SetIdx (<[bucket := SAdd (str key) value record
                                       (default NewSet (SetIdx d !! bucket))]>
                        (SetIdx d)) d)
   else ret tt).

Definition onSortedSet (bucket : string) (f : SortedSetT -> SortedSetT) : M unit :=
  modifyDB (fun d =>
    set_SortedSetIdx
      (<[bucket := f (default NewSortedSet (SortedSetIdx d !! bucket))]> (SortedSetIdx d)) d).

Definition buildSortedSetIdx (record : Record_) : M unit :=
  let bucket := RBucket record in
  let key := HKey (H record) in
  let value := V record in
  let meta := HMeta (H record) in
  d <- theDB ;;
  let record := resetRecordByMode d record in
  (match SortedSetIdx d !! bucket with
   | Some _ => ret tt
   | None => modifyDB (fun d => set_SortedSetIdx (<[bucket := NewSortedSet]> (SortedSetIdx d)) d)
   end) ;;
  match Flag meta with
  | DataZAddFlag =>
      let keyAndScore := Split (str key) SeparatorForZSetKey in
      match keyAndScore !! 0%nat, keyAndScore !! 1%nat with
      | Some key0, Some score =>
          onSortedSet bucket (ZAdd key0 (StrToFloat64 score) value record)
      | _, _ => panic       (* index out of range *)
      end
  | DataZRemFlag => onSortedSet bucket (ZRem (str key) value)
  | DataZRemRangeByRankFlag =>
      let startAndEnd := Split (str value) SeparatorForZSetKey in
      match startAndEnd !! 0%nat, startAndEnd !! 1%nat with
      | Some start, Some end_ =>
          onSortedSet bucket (ZRemRangeByRank (str key) (StrToInt start) (StrToInt end_))
      | _, _ => panic
      end
  | DataZPopMaxFlag => onSortedSet bucket (ZPopMax (str key))
  | DataZPopMinFlag => onSortedSet bucket (ZPopMin (str key))
  | _ => ret tt
  end.

Definition onList (f : ListIndex -> ListIndex) : M unit :=
  modifyDB (fun d => set_Index (f (Index d)) d).

Definition buildListIdx (now : Z) (record : Record_) : M unit :=
  let bucket := RBucket record in
  let key := HKey (H record) in
  let value := V record in
  let meta := HMeta (H record) in
  d <- theDB ;;
  let record := resetRecordByMode d record in
  onList (getList bucket) ;;
  if IsExpired (TTL meta) (Timestamp meta) now then ret tt
  else
    match Flag meta with
    | DataExpireListFlag =>
        let t := StrToInt64 (str value) in
        onList (setListTTL bucket (str key) (to_uint32 t) (Timestamp meta))
    | DataLPushFlag => onList (LPush bucket (str key) record)
    | DataRPushFlag => onList (RPush bucket (str key) record)
    | DataLRemFlag =>
        let countAndValue := Split (str value) SeparatorForListKey in
        match countAndValue !! 0%nat, countAndValue !! 1%nat with
        | Some count, Some newValue =>
            onList (LRem bucket (str key) (StrToInt count) newValue)
        | _, _ => panic
        end
    | DataLPopFlag => onList (LPop bucket (str key))
    | DataRPopFlag => onList (RPop bucket (str key))
    | DataLSetFlag =>
        let keyAndIndex := Split (str key) SeparatorForListKey in
        match keyAndIndex !! 0%nat, keyAndIndex !! 1%nat with
        | Some newKey, Some index => onList (LSet bucket newKey (StrToInt index) record)
        | _, _ => panic
        end
    | DataLTrimFlag =>
        let keyAndStartIndex := Split (str key) SeparatorForListKey in
        match keyAndStartIndex !! 0%nat, keyAndStartIndex !! 1%nat with
        | Some newKey, Some start =>
            onList (LTrim bucket newKey (StrToInt start) (StrToInt (str value)))
        | _, _ => panic
        end
    | DataLRemByIndex => onList (LRemByIndex bucket (str key) (UnmarshalInts value))
    | _ => ret tt
    end.

(** ** Commit *)

Fixpoint sumSizes (l : list Entry) (txSize : Z) : Z :=
  match l with
  | [] => txSize
  | e :: l' => sumSizes l' (add64 txSize (Size e))
  end.

(** The result is the content of the buffer [buff] points to.  When it is
    [tx.db.commitBuffer], the writes of the loop go to that shared buffer;
    nothing reads it before the deferred [Reset], so the loop carries the
    content as a local value. *)
Definition allocCommitBuffer : M (list byte) :=
  t <- gets st_tx ;;
  let txSize := sumSizes (pendingWrites t) 0 in
  d <- theDB ;;
  if txSize <? CommitBufferSize (opt d) then ret (commitBuffer d)
  else if txSize <? 0 then panic       (* buff.Grow with a negative count *)
  else ret [].

(** [entry.Meta.Status = Committed] through the pointer [tx.pendingWrites[i]]. *)
Definition stampCommitted (i : nat) (t : Tx) : Tx :=
  match pendingWrites t !! i with
  | Some e => set_pendingWrites (<[i := setStatus Committed e]> (pendingWrites t)) t
  | None => t
  end.

(** One iteration of [for i := 0; i < writesLen; i++] on [entry =
    tx.pendingWrites[i]], in the three parts the comments of the source
    mark; the locals [buff] and [bucketMetaTemp] go in and come out. *)

(** The size check, then the flush and the rotation when the entry does not
    fit the active file. *)
Definition commit_place (entry : Entry) (buff : list byte) : M (list byte) :=
  d <- theDB ;;
  let entrySize := Size entry in
  if entrySize >? SegmentSize (opt d) then fail ErrDataSizeExceed
  else
    f <- theActiveFile ;;
    if add64 (add64 (ActualSize f) (blen buff)) entrySize >? SegmentSize (opt d)
    then writeData buff ;; rotateActiveFile ;; ret []
    else ret buff.

(** The offset, the key position map, the stamp on the last entry, the
    encoding into the buffer and, on the last entry, the write of the
    buffer.  The result is the entry as encoded, the buffer and the offset. *)
Definition commit_encode (lastIndex i : nat) (entry : Entry) (buff : list byte)
    : M (Entry * list byte * Z) :=
  f <- theActiveFile ;;
  let offset := add64 (writeOff f) (blen buff) in
  (if decide (Ds (Meta entry) = DataStructureTree)
   then modifyDB (fun d =>
          set_BPTreeKeyEntryPosMap
            (<[str (getNewKey (Bucket entry) (Key entry)) := offset]>
               (BPTreeKeyEntryPosMap d)) d)
   else ret tt) ;;
  entry <- (if decide (i = lastIndex)
            then modifyTx (stampCommitted i) ;; ret (setStatus Committed entry)
            else ret entry) ;;
  emit (EvBufferWrite entry (fileID f) offset) ;;
  let buff := buff ++ Encode entry in
  (if decide (i = lastIndex) then writeData buff else ret tt) ;;
  ret (entry, buff, offset).

(** The bucket meta and the transaction ids of sparse mode, then the index
    of the entry's data structure. *)
Definition commit_index (lastIndex : nat) (countFlag : bool) (i : nat)
    (entry : Entry) (offset : Z) (bucketMetaTemp : BucketMeta) : M BucketMeta :=
  d <- theDB ;;
  let bucket := Bucket entry in
  let bucketMetaTemp :=
    if decide (EntryIdxMode (opt d) = HintBPTSparseIdxMode)
    then buildTempBucketMetaIdx bucket (Key entry) bucketMetaTemp
    else bucketMetaTemp in
  (if decide (i = lastIndex)
   then
     let txID := TxID (Meta entry) in
     if decide (EntryIdxMode (opt d) = HintBPTSparseIdxMode)
     then buildTxIDRootIdx txID countFlag ;;
          buildBucketMetaIdx bucket (Key entry) bucketMetaTemp
     else ret tt
   else ret tt) ;;
  f <- theActiveFile ;;
  let hint := mkHint (Key entry) (fileID f) (Meta entry) (to_uint64 offset) in
  let record := mkRecord hint (Value entry) bucket in
  (if decide (Ds (Meta entry) = DataStructureTree)
   then buildTreeIdx (time_Now i) record countFlag else ret tt) ;;
  (if decide (Ds (Meta entry) = DataStructureList)
   then buildListIdx (time_Now i) record else ret tt) ;;
  (if decide (Ds (Meta entry) = DataStructureSet)
   then buildSetIdx record else ret tt) ;;
  (if decide (Ds (Meta entry) = DataStructureSortedSet)
   then buildSortedSetIdx record else ret tt) ;;
  ret bucketMetaTemp.

Definition commit_entry (lastIndex : nat) (countFlag : bool) (i : nat)
    (entry : Entry) (buff : list byte) (bucketMetaTemp : BucketMeta)
    : M (list byte * BucketMeta) :=
  buff <- commit_place entry buff ;;
  enc <- commit_encode lastIndex i entry buff ;;
  bucketMetaTemp <- commit_index lastIndex countFlag i (fst (fst enc)) (snd enc)
                                 bucketMetaTemp ;;
  ret (snd (fst enc), bucketMetaTemp).

(** [n] iterations starting at index [i]; the result is the locals after
    the last of them. *)
Fixpoint commit_loop (n : nat) (lastIndex : nat) (countFlag : bool) (i : nat)
    (buff : list byte) (bucketMetaTemp : BucketMeta) : M (list byte * BucketMeta) :=
  match n with
  | O => ret (buff, bucketMetaTemp)
  | S n' =>
      t <- gets st_tx ;;
      match pendingWrites t !! i with
      | None => panic       (* index out of range *)
      | Some entry =>
          r <- commit_entry lastIndex countFlag i entry buff bucketMetaTemp ;;
          commit_loop n' lastIndex countFlag (S i) (fst r) (snd r)
      end
  end.

(** The body of [Commit] up to its [return]s.  The third component counts
    the deferred calls registered after the first one:
    0 none, 1 [tx.setStatusClosed()], 2 also [tx.db.commitBuffer.Reset()]. *)
Definition Commit_body (s : St) : Res unit * St * nat :=
  match isClosed s with
  | (Panic, s0) => (Panic, s0, 0%nat)
  | (Fail e, s0) => (Fail e, s0, 0%nat)
  | (Ok true, s0) => (Fail ErrCannotCommitAClosedTx, s0, 0%nat)
  | (Ok false, s0) =>
      match db (st_tx s0) with
      | None => (Fail ErrDBClosed, snd (setStatusClosed s0), 0%nat)
      | Some _ =>
          let s1 := snd (setStatusCommitting s0) in
          let writesLen := length (pendingWrites (st_tx s1)) in
          if decide (writesLen = 0%nat) then (Ok tt, s1, 1%nat)
          else
            let lastIndex := (writesLen - 1)%nat in
            let countFlag := negb (isMerging (st_db s1)) in
            match allocCommitBuffer s1 with
            | (Ok buff, s2) =>
                let r := (commit_loop writesLen lastIndex countFlag 0 buff BucketMeta_zero ;;
                          buildNotDSIdxes) s2 in
                (fst r, snd r, 2%nat)
            | (Fail e, s2) => (Fail e, s2, 1%nat)
            | (Panic, s2) => (Panic, s2, 1%nat)
            end
      end
  end.

(** Statements run one after the other; the first that does not return
    normally ends the run. *)
Fixpoint run_steps (l : list (M unit)) : M unit :=
  match l with
  | [] => ret tt
  | [m] => m
  | m :: l' => m ;; run_steps l'
  end.

(** The statements of the function literal deferred first, in their order:
    the error handler, the unlock, and the three assignments of nil. *)
Definition Commit_deferred_steps (err : option error) : list (M unit) :=
  [ match err with
    | Some e => handleErr e
    | None => ret tt
    end;
    unlock;
    modifyTx (set_db None);
    modifyTx (set_pendingWrites []);
    modifyTx (set_Reserved None) ].

(** The function literal deferred first, which runs last. *)
Definition Commit_deferred (err : option error) : M unit :=
  run_steps (Commit_deferred_steps err).

Inductive Outcome : Type :=
| Returned (err : option error)
| Panicked.

Definition namedResult (r : Res unit) : option error :=
  match r with
  | Fail e => Some e
  | _ => None
  end.

Definition Commit (s : St) : Outcome * St :=
  let '(r, s1, k) := Commit_body s in
  let s2 := if (2 <=? k)%nat then snd (modifyDB (set_commitBuffer []) s1) else s1 in
  let s3 := if (1 <=? k)%nat then snd (setStatusClosed s2) else s2 in
  match Commit_deferred (namedResult r) s3 with
  | (Ok _, s4) =>
      (match r with
       | Panic => Panicked
       | _ => Returned (namedResult r)
       end, s4)
  | (_, s4) => (Panicked, s4)
  end.

(** ** Begin *)

Definition newTx (writable_ : bool) : error + Tx :=
  match snowflake_NewNode with
  | Some e => inl e
  | None =>
      inr (mkTx (to_uint64 snowflake_Generate) (Some theDBRef) writable_ None []
                (Some ∅) 0)
  end.

Definition Begin (writable_ : bool) (d : DB) (log : list Event)
    : Res Tx * list Event :=
  match newTx writable_ with
  | inl e => (Fail e, log)
  | inr t =>
      let s := mkSt t d log in
      match (lock ;; setStatusRunning) s with
      | (Ok _, s1) =>
          if closed d
          then
            match (unlock ;; setStatusClosed) s1 with
            | (Ok _, s2) => (Fail ErrDBClosed, st_log s2)
            | (_, s2) => (Panic, st_log s2)
            end
          else (Ok (st_tx s1), st_log s1)
      | (_, s1) => (Panic, st_log s1)
      end
  end.

(** ** Notions used in the statements *)

(** A transaction as a completed [Commit] or [Rollback] leaves it. *)
Definition closed_tx (t : Tx) : Prop :=
  db t = None /\ status t = Some txStatusClosed.

Definition release_event (ev : Event) : Prop :=
  match ev with
  | EvUnlock | EvRUnlock | EvHandleError _ => True
  | _ => False
  end.

Definition batch_full (t : Tx) (d : DB) : Prop :=
  Z.of_nat (length (pendingWrites t)) >= MaxBatchCount (opt d) \/
  tx_size t >= MaxBatchSize (opt d).

(** ** Frames: what a call may change *)

(** Events of the file system. *)
Definition aux_event (ev : Event) : Prop :=
  match ev with
  | EvWriteAt _ _ _ | EvSync _ | EvRelease _ | EvGetDataFile _ | EvWriteNodes _
  | EvPersistence _ | EvOpenFile _ | EvFdWriteAt _ _ | EvFdSync _ => True
  | _ => False
  end.

(** Events of the file system other than the writes to a segment. *)
Definition meta_event (ev : Event) : Prop :=
  match ev with
  | EvSync _ | EvRelease _ | EvGetDataFile _ | EvWriteNodes _
  | EvPersistence _ | EvOpenFile _ | EvFdWriteAt _ _ | EvFdSync _ => True
  | _ => False
  end.

(** Events of the commit loop. *)
Definition loop_event (ev : Event) : Prop :=
  match ev with
  | EvBufferWrite _ _ _ => True
  | _ => aux_event ev
  end.

(** All fields of the transaction but [ReservedStoreTxIDIdxes] and
    [pendingWrites], whose length stays. *)
Definition T_core (t t' : Tx) : Prop :=
  tx_id t' = tx_id t /\ db t' = db t /\ writable t' = writable t /\
  status t' = status t /\ tx_size t' = tx_size t /\
  length (pendingWrites t') = length (pendingWrites t).

(** All fields but [ReservedStoreTxIDIdxes]. *)
Definition T_frame (t t' : Tx) : Prop :=
  tx_id t' = tx_id t /\ db t' = db t /\ writable t' = writable t /\
  status t' = status t /\ tx_size t' = tx_size t /\
  pendingWrites t' = pendingWrites t.

Definition D_opt (d d' : DB) : Prop :=
  opt d' = opt d /\ isMerging d' = isMerging d /\ closed d' = closed d.

Definition D_file (d d' : DB) : Prop :=
  D_opt d d' /\ ActiveFile d' = ActiveFile d /\ MaxFileID d' = MaxFileID d.

Definition log_ext (P : Event -> Prop) (s s' : St) : Prop :=
  exists evs, st_log s' = st_log s ++ evs /\ Forall P evs.

Definition frame (P : Event -> Prop) (T : Tx -> Tx -> Prop) (D : DB -> DB -> Prop)
    (s s' : St) : Prop :=
  T (st_tx s) (st_tx s') /\ D (st_db s) (st_db s') /\ log_ext P s s'.

(** [m] relates every state to the one it leaves, whatever the result. *)
Definition keeps {A} (R : St -> St -> Prop) (m : M A) : Prop :=
  forall s, R s (snd (m s)).

(** What the index builders, the file operations and the commit loop may change. *)
Definition R_builder : St -> St -> Prop := frame meta_event T_frame D_file.
Definition R_rot : St -> St -> Prop := frame meta_event T_frame D_opt.
Definition R_io : St -> St -> Prop := frame aux_event T_frame D_opt.
Definition R_loop : St -> St -> Prop := frame loop_event T_core D_opt.

(** [Q] holds of the result and the final state of [m] run from [s]. *)
Definition wp {A} (m : M A) (s : St) (Q : Res A -> St -> Prop) : Prop :=
  Q (fst (m s)) (snd (m s)).

Definition is_ok {A} (r : Res A) : Prop :=
  match r with
  | Ok _ => True
  | _ => False
  end.

(** The entries handed to [Encode], in the order of the log. *)
Definition bufferWrites (l : list Event) : list Entry :=
  omap (fun ev => match ev with
                  | EvBufferWrite e _ _ => Some e
                  | _ => None
                  end) l.


(** The pending writes as [Commit] encodes them: the last one stamped. *)
Definition stampLast (l : list Entry) : list Entry :=
  imap (fun i e => if decide (i = (length l - 1)%nat) then setStatus Committed e else e) l.

(** What [put] and [putDeleteLog] establish for every pending entry. *)
Definition pending_ok (t : Tx) : Prop :=
  Forall (fun e => Status (Meta e) = UnCommitted /\ TxID (Meta e) = tx_id t)
         (pendingWrites t).

(** A run of successful rotations.  Between two of them other code of the
    commit path runs, which leaves [MaxFileID] alone.  The list holds the
    file id of the active segment after each rotation. *)
Inductive rotations : St -> list Z -> St -> Prop :=
| rotations_nil (s : St) : rotations s [] s
| rotations_cons (s s1 s2 s' : St) (f : DataFile) (ids : list Z) :
    MaxFileID (st_db s1) = MaxFileID (st_db s) ->
    rotateActiveFile s1 = (Ok tt, s2) ->
    ActiveFile (st_db s2) = Some f ->
    rotations s2 ids s' ->
    rotations s (fileID f :: ids) s'.

(** The value and hint the ordered index of [bucket] holds for [key]. *)
Definition treeLookup (d : DB) (bucket key : string) : option (slice * Hint) :=
  BTreeIdx d !! bucket ≫= (fun t => t !! key).

(** The in-memory indexes and the TTL manager are the same. *)
Definition D_idx (d d' : DB) : Prop :=
  D_opt d d' /\ BTreeIdx d' = BTreeIdx d /\ SetIdx d' = SetIdx d /\
  SortedSetIdx d' = SortedSetIdx d /\ Index d' = Index d /\ tm d' = tm d /\
  bucketMetas d' = bucketMetas d /\ KeyCount d' = KeyCount d.

Definition R_idx : St -> St -> Prop := frame aux_event T_frame D_idx.
Definition R_idx_loop : St -> St -> Prop := frame loop_event T_core D_idx.

(** The entry of index [i] as it is encoded. *)
Definition encoded_entry (lastIndex i : nat) (e : Entry) : Entry :=
  if decide (i = lastIndex) then setStatus Committed e else e.

(** The state of [commit_encode] right after [buff.Write(entry.Encode())],
    when [f] is the active file. *)
Definition encode_state (lastIndex i : nat) (e : Entry) (buff : list byte)
    (f : DataFile) (s : St) : St :=
  mkSt (if decide (i = lastIndex) then stampCommitted i (st_tx s) else st_tx s)
       (if decide (Ds (Meta e) = DataStructureTree)
        then set_BPTreeKeyEntryPosMap
               (<[str (getNewKey (Bucket e) (Key e)) := add64 (writeOff f) (blen buff)]>
                  (BPTreeKeyEntryPosMap (st_db s))) (st_db s)
        else st_db s)
       (st_log s ++ [EvBufferWrite (encoded_entry lastIndex i e) (fileID f)
                                   (add64 (writeOff f) (blen buff))]).

(** An entry of [size] bytes no longer fits the active file [f] behind the
    buffered bytes. *)
Definition overflows (d : DB) (f : DataFile) (buff : list byte) (size : Z) : bool :=
  add64 (add64 (ActualSize f) (blen buff)) size >? SegmentSize (opt d).

(** The first [k] iterations of the loop of [Commit], from the state in
    which [Commit] enters it: status Committing, buffer allocated. *)
Definition commit_prefix (k : nat) (s : St) : Res (list byte * BucketMeta) * St :=
  let s1 := snd (setStatusCommitting s) in
  match allocCommitBuffer s1 with
  | (Ok buff, s2) =>
      commit_loop k (length (pendingWrites (st_tx s1)) - 1)
                  (negb (isMerging (st_db s1))) 0 buff BucketMeta_zero s2
  | (Fail e, s2) => (Fail e, s2)
  | (Panic, s2) => (Panic, s2)
  end.

(** The laws of the entry codec (entry.go) the commit path relies on: an
    entry is encoded in [Size] bytes, and the status does not change the
    size. *)
Definition codec_ok : Prop :=
  (forall e, blen (Encode e) = Size e) /\
  (forall st e, Size (setStatus st e) = Size e).

(** The active segment as the commit path keeps it: the next append is at
    the end of what was written, within the segment. *)
Definition segment_ok (d : DB) : Prop :=
  exists f, ActiveFile d = Some f /\ 0 <= ActualSize f /\
            writeOff f = ActualSize f /\ ActualSize f <= SegmentSize (opt d).

(** An entry, or a write to a segment, lies within [seg] bytes. *)
Definition placed_ok (seg : Z) (ev : Event) : Prop :=
  match ev with
  | EvBufferWrite e _ off => 0 <= off /\ off + Size e <= seg
  | EvWriteAt _ off data => 0 <= off /\ off + blen data <= seg
  | _ => True
  end.

(** The invariant of the loop of [Commit] on the buffered bytes [buff]. *)
Definition buffer_ok (seg : Z) (buff : list byte) (s : St) : Prop :=
  db (st_tx s) <> None /\ SegmentSize (opt (st_db s)) = seg /\
  exists f, ActiveFile (st_db s) = Some f /\ 0 <= ActualSize f /\
            writeOff f = ActualSize f /\ ActualSize f + blen buff <= seg.

Definition is_bufferWrite (ev : Event) : Prop :=
  match ev with
  | EvBufferWrite _ _ _ => True
  | _ => False
  end.


(** ** Notions used in the further properties *)


(** The calls of [lock] and [unlock] for a transaction of the given kind. *)
Definition lockEvent (w : bool) : Event := if w then EvLock else EvRLock.
Definition unlockEvent (w : bool) : Event := if w then EvUnlock else EvRUnlock.

(** The bytes handed to [WriteAt], in the order of the log. *)
Definition writtenBytes (l : list Event) : list byte :=
  flat_map (fun ev => match ev with
                      | EvWriteAt _ _ data => data
                      | _ => []
                      end) l.

(** The callback [CommitWith] schedules once the transaction was handed to
    the dispatcher. *)
Definition scheduledCb (cb : nat) : txnCb :=
  match sendToWriteCh_err with
  | Some err => mkTxnCb false (Some cb) (Some err)
  | None => mkTxnCb true (Some cb) None
  end.


(** [compare] orders the keys: its sign is antisymmetric and "not after"
    is transitive, as for [bytes.Compare]. *)
Definition compare_ok : Prop :=
  (forall a b, compare a b > 0 <-> compare b a < 0) /\
  (forall a b c, compare a b <= 0 -> compare b c <= 0 -> compare a c <= 0).

(** [bucketMetaTemp] after the loop of [Commit] has passed the entries [l]
    in sparse mode, from the value [m]. *)
Definition tempMeta (l : list Entry) (m : BucketMeta) : BucketMeta :=
  fold_left (fun m e => buildTempBucketMetaIdx (Bucket e) (Key e) m) l m.

(** [m] spans the keys of the entries [seen]. *)
Definition spans (seen : list Entry) (m : BucketMeta) : Prop :=
  bm_start m <> None /\
  (exists e, e ∈ seen /\ bm_start m = Key e) /\
  (exists e, e ∈ seen /\ bm_end m = Key e) /\
  (forall e, e ∈ seen ->
     compare (bm_start m) (Key e) <= 0 /\ compare (Key e) (bm_end m) <= 0) /\
  bm_startSize m = to_uint32 (slen (bm_start m)) /\
  bm_endSize m = to_uint32 (slen (bm_end m)).

(** The cached meta [bm] of a bucket after [buildBucketMetaIdx] has
    compared it with [t]. *)
Definition widen (bm t : BucketMeta) : BucketMeta :=
  let m1 :=
    if bool_decide (compare (bm_start bm) (bm_start t) > 0)
    then mkBucketMeta (bm_start t) (bm_end bm) (to_uint32 (slen (bm_start t)))
                      (bm_endSize bm)
    else bm in
  if bool_decide (compare (bm_end m1) (bm_end t) < 0)
  then mkBucketMeta (bm_start m1) (bm_end t) (bm_startSize m1)
                    (to_uint32 (slen (bm_end t)))
  else m1.

(** The file events of [buildBucketMetaIdx] writing [m] for [bucket]. *)
Definition bucketMetaWrite (sync : bool) (bucket : string) (m : BucketMeta)
    : list Event :=
  [EvOpenFile (BucketMetaFilePath bucket);
   EvFdWriteAt (BucketMetaFilePath bucket) (EncodeBucketMeta m)] ++
  if sync then [EvFdSync (BucketMetaFilePath bucket)] else [].


(** The writes to a segment, in the order of the log: file id, offset, data. *)
Definition segmentWrites (l : list Event) : list (Z * Z * list byte) :=
  omap (fun ev => match ev with
                  | EvWriteAt fid off data => Some (fid, off, data)
                  | _ => None
                  end) l.

(** Where the entries were placed, in the order of the log: entry, file
    id, offset. *)
Definition placements (l : list Event) : list (Entry * Z * Z) :=
  omap (fun ev => match ev with
                  | EvBufferWrite e fid off => Some (e, fid, off)
                  | _ => None
                  end) l.

(** The entries [l] one behind the other in the file [fid], from [off]. *)
Fixpoint layout (fid off : Z) (l : list Entry) : list (Entry * Z * Z) :=
  match l with
  | [] => []
  | e :: l' => (e, fid, off) :: layout fid (off + Size e) l'
  end.

End Model.

(** * A concrete instance

    A codec in which an entry takes a 42-byte header plus its bucket, key
    and value, trivial set, sorted set, list and B+ tree structures, keys
    ordered as strings, and an environment in which every call succeeds.
    It is the instance at which the statements below are witnessed. *)

Module Demo.

Definition entrySize (e : Entry) : Z :=
  42 + slen (Key e) + slen (Value e) + Z.of_nat (String.length (Bucket e)).

Definition encode (e : Entry) : list byte :=
  repeat Byte.x00 (Z.to_nat (entrySize e)).

Definition validEntry (e : Entry) : option error :=
  if decide (slen (Key e) = 0) then Some ErrKeyEmpty else None.

Definition cmp (a b : slice) : Z :=
  match String.compare (str a) (str b) with
  | Lt => -1
  | Eq => 0
  | Gt => 1
  end.

Definition newKey (bucket : string) (key : slice) : slice :=
  Some (bucket +:+ "/" +:+ str key).

Definition collab : Collaborators := {|
  Size := entrySize;
  Encode := encode;
  valid := validEntry;
  NewMetaData := mkMeta 0 0 0 0 DataDeleteFlag 0 UnCommitted DataStructureSet 0;
  EncodeBucketMeta := fun _ => [];
  getNewKey := newKey;
  compare := cmp;
  Split := fun s _ => [s];
  SeparatorForZSetKey := "|";
  SeparatorForListKey := "|";
  StrToInt := fun _ => 0;
  StrToInt64 := fun _ => 0;
  Score := unit;
  StrToFloat64 := fun _ => tt;
  UnmarshalInts := fun _ => [];
  IntToStr := fun _ => EmptyString;
  Int64ToStr := fun _ => EmptyString;
  SetT := unit;
  NewSet := tt;
  SRem := fun _ _ x => x;
  SAdd := fun _ _ _ x => x;
  SortedSetT := unit;
  NewSortedSet := tt;
  ZAdd := fun _ _ _ _ x => x;
  ZRem := fun _ _ x => x;
  ZRemRangeByRank := fun _ _ _ x => x;
  ZPopMax := fun _ x => x;
  ZPopMin := fun _ x => x;
  ListIndex := unit;
  getList := fun _ x => x;
  setListTTL := fun _ _ _ _ x => x;
  LPush := fun _ _ _ x => x;
  RPush := fun _ _ _ x => x;
  LRem := fun _ _ _ _ x => x;
  LPop := fun _ _ x => x;
  RPop := fun _ _ x => x;
  LSet := fun _ _ _ _ x => x;
  LTrim := fun _ _ _ _ x => x;
  LRemByIndex := fun _ _ _ x => x;
  deleteList := fun _ x => x;
  IsExpired := fun _ _ _ => false;
  BPTNodes := unit;
  NewNodes := tt;
  rootAddress := fun _ => Some 0;
  FirstKey := fun _ => None;
  LastKey := fun _ => None;
  nodesInsert := fun _ _ _ x => (None, x);
  nodesWrite := fun _ _ _ _ _ _ x => (None, x)
|}.

(** Every call succeeds; the clock reads [now]. *)
Definition env (now : Z) : Env := {|
  io_WriteAt := fun _ _ _ => None;
  io_Sync := fun _ => None;
  io_Release := fun _ => None;
  io_getDataFile := fun _ => None;
  io_Persistence := fun _ => None;
  io_OpenFile := fun _ => None;
  io_fdWriteAt := fun _ _ => None;
  io_fdSync := fun _ => None;
  time_Now := fun _ => now;
  snowflake_NewNode := None;
  snowflake_Generate := 7;
  sendToWriteCh_err := None;
  req_Wait := None
|}.

Definition options (mode : EntryIdxMode_t) : Options :=
  mkOptions 128 4096 false FileIO mode 2 1000 true.

(** A freshly opened DB: segment 0 is active and empty. *)
Definition db0 (mode : EntryIdxMode_t) : DB (C := collab) :=
  mkDB (C := collab) (options mode) false false 0 (Some (mkDataFile 0 0 0)) []
       ∅ ∅ ∅ tt ∅ 0 ∅ NewTree NewTree [] ∅.

(** A running writable transaction with the given pending writes. *)
Definition tx0 (pw : list Entry) : Tx (C := collab) :=
  mkTx (C := collab) 7 (Some theDBRef) true (Some txStatusRunning) pw (Some ∅)
       (sumSizes (C := collab) pw 0).

Definition st0 (mode : EntryIdxMode_t) (pw : list Entry) : St (C := collab) :=
  mkSt (C := collab) (tx0 pw) (db0 mode) [].

(** The entry [put] builds for a Tree set of [key] in [bucket]. *)
Definition entry (bucket key value : string) (ttl timestamp : Z) : Entry :=
  newEntry (C := collab) (tx0 []) bucket (Some key) (Some value) ttl DataSetFlag
           timestamp DataStructureTree.


(** An environment in which the calls that write a segment, release it or
    open the file of a bucket meta fail, and every other call succeeds. *)
Definition env_fail : Env := {|
  io_WriteAt := fun _ _ _ => Some (ErrExternal 1);
  io_Sync := fun _ => None;
  io_Release := fun _ => Some (ErrExternal 2);
  io_getDataFile := fun _ => None;
  io_Persistence := fun _ => None;
  io_OpenFile := fun _ => Some (ErrExternal 3);
  io_fdWriteAt := fun _ _ => None;
  io_fdSync := fun _ => None;
  time_Now := fun _ => 0;
  snowflake_NewNode := None;
  snowflake_Generate := 7;
  sendToWriteCh_err := None;
  req_Wait := None
|}.

(** The record [Commit] builds for [entry bucket key value ttl timestamp]
    placed at [offset] of the file [fid]. *)
Definition record (fid offset : Z) (bucket key value : string) (ttl timestamp : Z)
    : Record_ :=
  mkRecord (mkHint (Some key) fid (Meta (entry bucket key value ttl timestamp)) offset)
           (Some value) bucket.

End Demo.

(** * Properties *)

Section Properties.

Context `{C : Collaborators} `{E : Env}.

(** ** Arithmetic of the machine integers *)

Lemma wrap64_small (z : Z) : minInt64 <= z <= maxInt64 -> wrap64 z = z.
Proof.
  unfold wrap64, minInt64, maxInt64. intros Hz.
  rewrite Z.mod_small by lia. lia.
Qed.

Lemma add64_small (a b : Z) : minInt64 <= a + b <= maxInt64 -> add64 a b = a + b.
Proof. apply wrap64_small. Qed.

Lemma blen_nonneg (b : list byte) : 0 <= blen b.
Proof. unfold blen. lia. Qed.

Lemma blen_app (a b : list byte) : blen (a ++ b) = blen a + blen b.
Proof. unfold blen. rewrite length_app. lia. Qed.

Lemma blen_nil_iff (b : list byte) : length b = 0%nat <-> blen b = 0.
Proof. unfold blen. lia. Qed.

(** ** Running the primitive steps *)

Ltac unfold_prims :=
  unfold setStatusClosed, setStatusCommitting, setStatusRunning, isClosed,
    isCommitting, isRunning, loadStatus, lock, unlock, handleErr, theActiveFile,
    theDB, check, emit, modifyDB, modifyTx, modify, gets, fail, panic, ret, bind in *.

Lemma set_status_same (t : Tx) (v : txStatus) :
  status t = Some v -> set_status (Some v) t = t.
Proof. destruct t; simpl; intros ->; reflexivity. Qed.

Lemma St_eta (s : St) : mkSt (st_tx s) (st_db s) (st_log s) = s.
Proof. destruct s; reflexivity. Qed.

Ltac destruct_st s :=
  let t := fresh "t" in
  let d := fresh "d" in
  let l := fresh "log" in
  destruct s as [t d l];
  destruct t as [txid txdb w st pw rs sz]; simpl in *.

(** ** Closed transactions *)

Lemma Rollback_ok_closed (s s' : St) :
  Rollback s = (Ok tt, s') -> closed_tx (st_tx s').
Proof.
  destruct_st s. unfold Rollback, closed_tx. unfold_prims. simpl.
  destruct txdb; simpl; [|discriminate].
  destruct st as [[| |]|]; simpl; try discriminate.
  intros [= <-]. simpl. auto.
Qed.

Lemma Rollback_ok_running (s s' : St) :
  Rollback s = (Ok tt, s') ->
  status (st_tx s) = Some txStatusRunning /\ db (st_tx s) <> None.
Proof.
  destruct_st s. unfold Rollback. unfold_prims. simpl.
  destruct txdb; simpl; [|discriminate].
  destruct st as [[| |]|]; simpl; try discriminate. auto.
Qed.

Lemma Rollback_committing (s : St) :
  db (st_tx s) <> None -> status (st_tx s) = Some txStatusCommitting ->
  Rollback s = (Fail ErrCannotRollbackACommittingTx, s).
Proof.
  destruct_st s. unfold Rollback. unfold_prims. simpl.
  intros Hdb ->. destruct txdb; [reflexivity|congruence].
Qed.

Lemma Commit_deferred_ok (err : option error) (s s' : St) :
  Commit_deferred err s = (Ok tt, s') ->
  db (st_tx s') = None /\ pendingWrites (st_tx s') = [] /\
  ReservedStoreTxIDIdxes (st_tx s') = None /\ status (st_tx s') = status (st_tx s) /\
  st_db s' = st_db s /\ db (st_tx s) <> None /\
  st_log s' = st_log s ++
    match err with
    | Some e => if ErrorHandler (opt (st_db s)) then [EvHandleError e] else []
    | None => []
    end ++ [if writable (st_tx s) then EvUnlock else EvRUnlock].
Proof.
  destruct_st s. unfold Commit_deferred, Commit_deferred_steps; cbn [run_steps]. unfold_prims. simpl.
  destruct txdb; simpl.
  - destruct err as [e|]; simpl.
    + destruct (ErrorHandler (opt d)); simpl; intros [= <-]; simpl;
        rewrite <- ?app_assoc; auto 10.
    + intros [= <-]; simpl; auto 10.
  - destruct err; simpl; discriminate.
Qed.

Lemma Commit_deferred_open (err : option error) (s : St) :
  db (st_tx s) <> None -> fst (Commit_deferred err s) = Ok tt.
Proof.
  destruct_st s. unfold Commit_deferred, Commit_deferred_steps; cbn [run_steps]. unfold_prims. simpl.
  intros Hdb. destruct txdb; [|congruence].
  destruct err; simpl; [destruct (ErrorHandler (opt d))|]; reflexivity.
Qed.

Lemma closed_tx_Rollback (s : St) :
  closed_tx (st_tx s) -> Rollback s = (Fail ErrDBClosed, s).
Proof.
  destruct_st s. unfold closed_tx, Rollback. unfold_prims. simpl.
  intros [-> ->]. reflexivity.
Qed.

Lemma closed_tx_Commit (s : St) :
  closed_tx (st_tx s) -> Commit s = (Panicked, s).
Proof.
  destruct_st s. unfold closed_tx. simpl. intros [-> ->].
  unfold Commit, Commit_body. unfold_prims. simpl. reflexivity.
Qed.

Lemma Commit_returned_closed (s s' : St) (o : option error) :
  Commit s = (Returned o, s') -> closed_tx (st_tx s').
Proof.
  unfold Commit. destruct (Commit_body s) as [[r s1] k] eqn:Hb.
  set (s2 := if (2 <=? k)%nat then _ else _).
  set (s3 := if (1 <=? k)%nat then _ else _).
  destruct (Commit_deferred (namedResult r) s3) as [[[]| |] s4] eqn:Hd; try discriminate.
  intros Hc. assert (s' = s4) as -> by (destruct r; congruence).
  apply Commit_deferred_ok in Hd as (Hdb & _ & _ & Hst & _ & Hnn & _).
  split; [done|]. rewrite Hst.
  destruct k as [|k].
  - (* no further deferred call: the status was Closed on entry *)
    subst s3 s2. simpl in *.
    unfold Commit_body in Hb. unfold_prims.
    destruct (status (st_tx s)) as [v|] eqn:Hs; simpl in Hb.
    + case_bool_decide; simpl in Hb.
      * inversion Hb; subst. congruence.
      * destruct (db (st_tx s)) eqn:Hdb'; simpl in Hb.
        -- repeat case_match; simplify_eq.
        -- inversion Hb; subst. reflexivity.
    + inversion Hb; subst. simpl in Hc. discriminate.
  - subst s3. reflexivity.
Qed.

(** C5 (the code departs from the claim).  Once a transaction has been
    closed, by a [Commit] that returned or by a successful [Rollback], its
    [db] field is nil and its status is Closed.  On such a transaction
    [Rollback] returns [ErrDBClosed], not [ErrCannotRollbackAClosedTx]: the
    test [tx.db == nil] comes first.  [Commit] reaches
    [return ErrCannotCommitAClosedTx], but the deferred function then
    dereferences the nil [tx.db] in [handleErr] and panics.  Neither call
    changes the state. *)
Theorem closed_tx_Rollback_Commit (s s1 : St) (o : option error) :
  Commit s = (Returned o, s1) \/ Rollback s = (Ok tt, s1) ->
  closed_tx (st_tx s1) /\
  Rollback s1 = (Fail ErrDBClosed, s1) /\
  Commit s1 = (Panicked, s1).
Proof.
  intros Hreach.
  assert (closed_tx (st_tx s1)) as Hc.
  { destruct Hreach as [Hc|Hr].
    - eapply Commit_returned_closed; eassumption.
    - eapply Rollback_ok_closed; eassumption. }
  split; [assumption|]. split.
  - apply closed_tx_Rollback, Hc.
  - apply closed_tx_Commit, Hc.
Qed.

(** ** Empty transactions *)

Lemma Commit_empty_db (s : St) :
  pendingWrites (st_tx s) = [] ->
  st_db (snd (Commit s)) = st_db s /\
  exists evs, st_log (snd (Commit s)) = st_log s ++ evs /\ Forall release_event evs.
Proof.
  destruct_st s. intros ->.
  unfold Commit, Commit_body, Commit_deferred, Commit_deferred_steps; cbn [run_steps].
  unfold_prims. simpl.
  destruct st as [[| |]|]; simpl; destruct txdb; simpl;
    repeat (case_match; simpl in *; simplify_eq);
    rewrite <- ?app_assoc;
    (split; [reflexivity|]);
    first [ exists []; rewrite app_nil_r; split; [reflexivity|constructor]
          | eexists; split; [reflexivity|];
            repeat constructor; simpl; repeat case_match; exact Logic.I ].
Qed.

Lemma Commit_empty_running (s : St) :
  pendingWrites (st_tx s) = [] ->
  db (st_tx s) <> None ->
  status (st_tx s) = Some txStatusRunning ->
  Commit s =
    (Returned None,
     mkSt (mkTx (tx_id (st_tx s)) None (writable (st_tx s)) (Some txStatusClosed) []
                None (tx_size (st_tx s)))
          (st_db s)
          (st_log s ++ [if writable (st_tx s) then EvUnlock else EvRUnlock])).
Proof.
  destruct_st s. intros -> Hdb ->. destruct txdb; [|congruence].
  unfold Commit, Commit_body, Commit_deferred, Commit_deferred_steps; cbn [run_steps].
  unfold_prims. simpl. reflexivity.
Qed.

(** C6.  With no pending write [Commit] never touches the DB context (files,
    indexes) and logs nothing but the release of the lock; on an open,
    running transaction it returns nil.  [CommitWith] starts one goroutine
    running the callback record [{user: cb, err: nil}], which calls the
    user's function with nil, and sends nothing to the dispatcher. *)
Theorem Commit_empty_pendingWrites (s : St) :
  pendingWrites (st_tx s) = [] ->
  (st_db (snd (Commit s)) = st_db s /\
   exists evs, st_log (snd (Commit s)) = st_log s ++ evs /\ Forall release_event evs) /\
  (db (st_tx s) <> None -> status (st_tx s) = Some txStatusRunning ->
   fst (Commit s) = Returned None /\
   st_log (snd (Commit s)) =
     st_log s ++ [if writable (st_tx s) then EvUnlock else EvRUnlock]) /\
  (forall cb : nat,
     CommitWith (Some cb) s =
       (Ok tt, mkSt (st_tx s) (st_db s)
                    (st_log s ++ [EvGo (mkTxnCb false (Some cb) None)])) /\
     forall s0 : St,
       runTxnCallback (Some (mkTxnCb false (Some cb) None)) s0 =
         (Ok tt, mkSt (st_tx s0) (st_db s0) (st_log s0 ++ [EvUser cb None]))).
Proof.
  intros Hpw. split; [apply Commit_empty_db, Hpw|]. split.
  - intros Hdb Hst. rewrite (Commit_empty_running s Hpw Hdb Hst). simpl. auto.
  - intros cb. split.
    + unfold CommitWith. unfold_prims. rewrite Hpw. simpl. reflexivity.
    + intros s0. reflexivity.
Qed.

(** ** Batch bounds *)

Lemma checkSize_full (s : St) :
  db (st_tx s) <> None ->
  (batch_full (st_tx s) (st_db s) -> checkSize s = (Fail ErrTxnTooBig, s)) /\
  (~ batch_full (st_tx s) (st_db s) -> checkSize s = (Ok tt, s)).
Proof.
  destruct_st s. intros Hdb. destruct txdb; [|congruence].
  unfold checkSize, batch_full. unfold_prims. simpl.
  destruct (Z.geb_spec (Z.of_nat (length pw)) (MaxBatchCount (opt d)));
    destruct (Z.geb_spec sz (MaxBatchSize (opt d))); simpl;
    split; intros; try reflexivity; lia.
Qed.

Lemma put_appends (s : St) (bucket : string) (key value : slice) (ttl : Z)
    (flag : DataFlag) (timestamp : Z) (ds : DataStructure) :
  db (st_tx s) <> None ->
  writable (st_tx s) = true ->
  valid (newEntry (st_tx s) bucket key value ttl flag timestamp ds) = None ->
  put bucket key value ttl flag timestamp ds s =
    (Ok tt,
     mkSt (appendEntry (newEntry (st_tx s) bucket key value ttl flag timestamp ds) (st_tx s))
          (st_db s) (st_log s)).
Proof.
  destruct_st s. intros Hdb -> Hv. destruct txdb; [|congruence].
  unfold put, checkTxIsClosed. unfold_prims. simpl.
  simpl in Hv. rewrite Hv. reflexivity.
Qed.

(** C4, as the code has it.  [checkSize] answers [ErrTxnTooBig] exactly when
    the count or the size of the pending writes has reached its bound, and
    changes nothing.  [put] does not call it: on an open writable
    transaction a valid entry is appended whatever the bounds. *)
Theorem checkSize_reports_put_appends (s : St) (bucket : string) (key value : slice)
    (ttl : Z) (flag : DataFlag) (timestamp : Z) (ds : DataStructure) :
  db (st_tx s) <> None ->
  (batch_full (st_tx s) (st_db s) -> checkSize s = (Fail ErrTxnTooBig, s)) /\
  (~ batch_full (st_tx s) (st_db s) -> checkSize s = (Ok tt, s)) /\
  (writable (st_tx s) = true ->
   valid (newEntry (st_tx s) bucket key value ttl flag timestamp ds) = None ->
   put bucket key value ttl flag timestamp ds s =
     (Ok tt,
      mkSt (appendEntry (newEntry (st_tx s) bucket key value ttl flag timestamp ds) (st_tx s))
           (st_db s) (st_log s))).
Proof.
  intros Hdb. destruct (checkSize_full s Hdb) as [Hf Hn].
  split; [exact Hf|]. split; [exact Hn|].
  intros Hw Hv. apply put_appends; assumption.
Qed.

(** ** Frame rules *)

#[local] Instance T_core_preorder : PreOrder T_core.
Proof.
  split.
  - intros t. unfold T_core. auto 10.
  - intros a b c (?&?&?&?&?&?) (?&?&?&?&?&?). unfold T_core.
    repeat split; congruence.
Qed.

#[local] Instance T_frame_preorder : PreOrder T_frame.
Proof.
  split.
  - intros t. unfold T_frame. auto 10.
  - intros a b c (?&?&?&?&?&?) (?&?&?&?&?&?). unfold T_frame.
    repeat split; congruence.
Qed.

#[local] Instance D_opt_preorder : PreOrder D_opt.
Proof.
  split.
  - intros d. unfold D_opt. auto.
  - intros a b c (?&?&?) (?&?&?). unfold D_opt. repeat split; congruence.
Qed.

#[local] Instance D_file_preorder : PreOrder D_file.
Proof.
  split.
  - intros d. split; [reflexivity|auto].
  - intros a b c (?&?&?) (?&?&?). split; [etransitivity; eassumption|].
    split; congruence.
Qed.

#[local] Instance D_idx_preorder : PreOrder D_idx.
Proof.
  split.
  - intros d. split; [reflexivity|auto 10].
  - intros a b c (?&?&?&?&?&?&?&?) (?&?&?&?&?&?&?&?).
    split; [etransitivity; eassumption|]. repeat split; congruence.
Qed.

#[local] Instance log_ext_preorder (P : Event -> Prop) : PreOrder (log_ext P).
Proof.
  split.
  - intros s. exists []. rewrite app_nil_r. auto.
  - intros a b c (e1 & H1 & F1) (e2 & H2 & F2). exists (e1 ++ e2).
    rewrite H2, H1, <- app_assoc. split; [reflexivity|].
    apply Forall_app; auto.
Qed.

#[local] Instance frame_preorder (P : Event -> Prop) (T : Tx -> Tx -> Prop)
    (D : DB -> DB -> Prop) `{!PreOrder T} `{!PreOrder D} : PreOrder (frame P T D).
Proof.
  split.
  - intros s. repeat split; reflexivity.
  - intros a b c (?&?&?) (?&?&?). repeat split; etransitivity; eassumption.
Qed.

Lemma log_ext_mono (P Q : Event -> Prop) (s s' : St) :
  (forall ev, P ev -> Q ev) -> log_ext P s s' -> log_ext Q s s'.
Proof.
  intros HPQ (evs & Hl & Hf). exists evs. split; [assumption|].
  eapply Forall_impl; eauto.
Qed.

Lemma frame_mono (P Q : Event -> Prop) (T U : Tx -> Tx -> Prop)
    (D D' : DB -> DB -> Prop) (s s' : St) :
  (forall ev, P ev -> Q ev) -> (forall t t', T t t' -> U t t') ->
  (forall d d', D d d' -> D' d d') ->
  frame P T D s s' -> frame Q U D' s s'.
Proof.
  intros HP HT HD (?&?&?). repeat split; auto. eapply log_ext_mono; eauto.
Qed.

Lemma T_frame_core (t t' : Tx) : T_frame t t' -> T_core t t'.
Proof. intros (?&?&?&?&?&Hp). unfold T_core. rewrite Hp. auto 10. Qed.

Lemma D_file_opt (d d' : DB) : D_file d d' -> D_opt d d'.
Proof. intros [? _]. assumption. Qed.

Lemma aux_loop_event (ev : Event) : aux_event ev -> loop_event ev.
Proof. destruct ev; simpl; auto. Qed.

Lemma meta_aux_event (ev : Event) : meta_event ev -> aux_event ev.
Proof. destruct ev; simpl; auto. Qed.

Section Keeps.

Context (R : St -> St -> Prop) `{!PreOrder R}.

Lemma keeps_ret {A} (a : A) : keeps R (ret a).
Proof. intros s. reflexivity. Qed.

Lemma keeps_fail {A} (e : error) : keeps R (fail e : M A).
Proof. intros s. reflexivity. Qed.

Lemma keeps_panic {A} : keeps R (panic : M A).
Proof. intros s. reflexivity. Qed.

Lemma keeps_gets {A} (f : St -> A) : keeps R (gets f).
Proof. intros s. reflexivity. Qed.

Lemma keeps_check (r : option error) : keeps R (check r).
Proof. intros s. destruct r; reflexivity. Qed.

Lemma keeps_theDB : keeps R theDB.
Proof. intros s. unfold theDB. destruct (db (st_tx s)); reflexivity. Qed.

Lemma keeps_bind {A B} (m : M A) (f : A -> M B) :
  keeps R m -> (forall a, keeps R (f a)) -> keeps R (bind m f).
Proof.
  intros Hm Hf s. unfold bind. specialize (Hm s).
  destruct (m s) as [[a|e|] s1]; simpl in *; try assumption.
  etransitivity; [eassumption|]. apply Hf.
Qed.

Lemma keeps_theActiveFile : keeps R theActiveFile.
Proof.
  unfold theActiveFile. apply keeps_bind; [apply keeps_theDB|].
  intros d. destruct (ActiveFile d); [apply keeps_ret|apply keeps_panic].
Qed.

Lemma keeps_loadStatus : keeps R loadStatus.
Proof.
  unfold loadStatus. apply keeps_bind; [apply keeps_gets|].
  intros t. destruct (status t); [apply keeps_ret|apply keeps_panic].
Qed.

Lemma keeps_modify (f : St -> St) : (forall s, R s (f s)) -> keeps R (modify f).
Proof. intros Hf s. apply Hf. Qed.

End Keeps.

Lemma keeps_mono {A} (R R' : St -> St -> Prop) (m : M A) :
  (forall s s', R s s' -> R' s s') -> keeps R m -> keeps R' m.
Proof. intros HR Hm s. apply HR, Hm. Qed.

Section FrameRules.

Context (P : Event -> Prop) (T : Tx -> Tx -> Prop) (D : DB -> DB -> Prop)
        `{!PreOrder T} `{!PreOrder D}.

Lemma keeps_emit (ev : Event) : P ev -> keeps (frame P T D) (emit ev).
Proof.
  intros Hev s. split; [|split]; simpl; try reflexivity.
  exists [ev]. auto.
Qed.

Lemma keeps_modifyDB (f : DB -> DB) :
  (forall d, D d (f d)) -> keeps (frame P T D) (modifyDB f).
Proof.
  intros Hf s. split; [|split]; simpl; try reflexivity; try apply Hf.
  exists []. simpl. rewrite app_nil_r. auto.
Qed.

Lemma keeps_modifyTx (f : Tx -> Tx) :
  (forall t, T t (f t)) -> keeps (frame P T D) (modifyTx f).
Proof.
  intros Hf s. split; [|split]; simpl; try reflexivity; try apply Hf.
  exists []. simpl. rewrite app_nil_r. auto.
Qed.

End FrameRules.

Ltac frame_side :=
  intros; simpl;
  try match goal with
      | |- aux_event _ => exact Logic.I
      | |- meta_event _ => exact Logic.I
      | |- loop_event _ => exact Logic.I
      end;
  unfold D_idx, D_file, D_opt, T_frame, T_core, bumpActiveFile, storeReserved,
    stampCommitted, appendEntry in *;
  repeat case_match; simpl; rewrite ?length_insert; repeat split; try reflexivity.

#[local] Instance R_builder_preorder : PreOrder R_builder.
Proof. unfold R_builder. typeclasses eauto. Qed.
#[local] Instance R_io_preorder : PreOrder R_io.
Proof. unfold R_io. typeclasses eauto. Qed.
#[local] Instance R_loop_preorder : PreOrder R_loop.
Proof. unfold R_loop. typeclasses eauto. Qed.

#[local] Instance R_idx_preorder : PreOrder R_idx.
Proof. unfold R_idx. typeclasses eauto. Qed.
#[local] Instance R_idx_loop_preorder : PreOrder R_idx_loop.
Proof. unfold R_idx_loop. typeclasses eauto. Qed.

Lemma R_idx_idx_loop (s s' : St) : R_idx s s' -> R_idx_loop s s'.
Proof. apply frame_mono; auto using T_frame_core, aux_loop_event. Qed.

#[local] Instance R_rot_preorder : PreOrder R_rot.
Proof. unfold R_rot. typeclasses eauto. Qed.

Lemma R_builder_rot (s s' : St) : R_builder s s' -> R_rot s s'.
Proof. apply frame_mono; auto using D_file_opt. Qed.

Lemma R_rot_io (s s' : St) : R_rot s s' -> R_io s s'.
Proof. apply frame_mono; auto using meta_aux_event. Qed.

Lemma R_builder_io (s s' : St) : R_builder s s' -> R_io s s'.
Proof. intros. apply R_rot_io, R_builder_rot. assumption. Qed.

Lemma R_io_loop (s s' : St) : R_io s s' -> R_loop s s'.
Proof. apply frame_mono; auto using T_frame_core, aux_loop_event. Qed.

Lemma R_builder_loop (s s' : St) : R_builder s s' -> R_loop s s'.
Proof. intros. apply R_io_loop, R_builder_io. assumption. Qed.

Create HintDb keeps.

Ltac kapply lem := apply lem; try (solve [typeclasses eauto]).

Ltac keeps_tac :=
  repeat first
    [ kapply keeps_ret | kapply keeps_fail | kapply keeps_panic | kapply keeps_gets
    | kapply keeps_theDB | kapply keeps_theActiveFile | kapply keeps_check
    | kapply keeps_loadStatus
    | solve [ auto with keeps nocore ]
    | apply (keeps_mono R_builder R_io); [exact R_builder_io | solve [auto with keeps nocore]]
    | apply (keeps_mono R_io R_loop); [exact R_io_loop | solve [auto with keeps nocore]]
    | apply (keeps_mono R_builder R_loop); [exact R_builder_loop | solve [auto with keeps nocore]]
    | apply (keeps_mono R_idx R_idx_loop); [exact R_idx_idx_loop | solve [auto with keeps nocore]]
    | apply (keeps_mono R_builder R_rot); [exact R_builder_rot | solve [auto with keeps nocore]]
    | kapply keeps_bind; [ | intros ? ]
    | kapply keeps_emit; solve [frame_side]
    | kapply keeps_modifyDB; solve [frame_side]
    | kapply keeps_modifyTx; solve [frame_side]
    | assumption
    | lazymatch goal with
      | |- keeps _ (match ?x with _ => _ end) => destruct x
      | |- keeps _ (let _ := _ in _) => cbv zeta
      end
    ].

Lemma writeData_keeps (data : list byte) : keeps R_io (writeData data).
Proof. unfold writeData. keeps_tac. Qed.
#[local] Hint Resolve writeData_keeps : keeps.

Lemma getDataFile_keeps (path : Path) (capacity : Z) :
  keeps R_io (getDataFile path capacity).
Proof. unfold getDataFile. keeps_tac. Qed.
#[local] Hint Resolve getDataFile_keeps : keeps.

Lemma rotateSparse_keeps (fID : Z) : keeps R_io (rotateSparse fID).
Proof. unfold rotateSparse. keeps_tac. Qed.
#[local] Hint Resolve rotateSparse_keeps : keeps.

Lemma resetActiveFile_keeps : keeps R_io resetActiveFile.
Proof.
  unfold resetActiveFile. keeps_tac.
  intros s.
  match goal with
  | |- context [getDataFile ?p ?c s] =>
      pose proof (getDataFile_keeps p c s) as Hg;
      destruct (getDataFile p c s) as [[f| |] s1]
  end; simpl in *; assumption.
Qed.
#[local] Hint Resolve resetActiveFile_keeps : keeps.

Lemma rotateActiveFile_keeps : keeps R_io rotateActiveFile.
Proof. unfold rotateActiveFile. keeps_tac. Qed.
#[local] Hint Resolve rotateActiveFile_keeps : keeps.

Lemma writeBucketMeta_keeps (bucket : string) (m : BucketMeta) :
  keeps R_builder (writeBucketMeta bucket m).
Proof. unfold writeBucketMeta. keeps_tac. Qed.
#[local] Hint Resolve writeBucketMeta_keeps : keeps.

Lemma buildBucketMetaIdx_keeps (bucket : string) (key : slice) (m : BucketMeta) :
  keeps R_builder (buildBucketMetaIdx bucket key m).
Proof. unfold buildBucketMetaIdx. keeps_tac. Qed.
#[local] Hint Resolve buildBucketMetaIdx_keeps : keeps.

Lemma buildTxIDRootIdx_range_keeps (l : list (Z * BPTree)) (txIDStr : string)
    (meta : MetaData) (countFlag : bool) :
  keeps R_builder (buildTxIDRootIdx_range l txIDStr meta countFlag).
Proof.
  induction l as [|[fID t] l IH]; simpl; keeps_tac.
Qed.
#[local] Hint Resolve buildTxIDRootIdx_range_keeps : keeps.

Lemma buildTxIDRootIdx_keeps (txID : Z) (countFlag : bool) :
  keeps R_builder (buildTxIDRootIdx txID countFlag).
Proof. unfold buildTxIDRootIdx. keeps_tac. Qed.
#[local] Hint Resolve buildTxIDRootIdx_keeps : keeps.

Lemma deleteBucket_keeps (ds : DataStructure) (bucket : string) :
  keeps R_builder (deleteBucket ds bucket).
Proof. unfold deleteBucket. keeps_tac. Qed.
#[local] Hint Resolve deleteBucket_keeps : keeps.

Lemma buildNotDSIdxes_range_keeps (l : list Entry) :
  keeps R_builder (buildNotDSIdxes_range l).
Proof. induction l as [|e l IH]; simpl; keeps_tac. Qed.
#[local] Hint Resolve buildNotDSIdxes_range_keeps : keeps.

Lemma buildNotDSIdxes_keeps : keeps R_builder buildNotDSIdxes.
Proof. unfold buildNotDSIdxes. keeps_tac. Qed.
#[local] Hint Resolve buildNotDSIdxes_keeps : keeps.

Lemma buildTreeIdx_keeps (now : Z) (record : Record_) (countFlag : bool) :
  keeps R_builder (buildTreeIdx now record countFlag).
Proof. unfold buildTreeIdx. keeps_tac. Qed.
#[local] Hint Resolve buildTreeIdx_keeps : keeps.

Lemma buildSetIdx_keeps (record : Record_) : keeps R_builder (buildSetIdx record).
Proof. unfold buildSetIdx. keeps_tac. Qed.
#[local] Hint Resolve buildSetIdx_keeps : keeps.

Lemma buildSortedSetIdx_keeps (record : Record_) :
  keeps R_builder (buildSortedSetIdx record).
Proof. unfold buildSortedSetIdx, onSortedSet. keeps_tac. Qed.
#[local] Hint Resolve buildSortedSetIdx_keeps : keeps.

Lemma buildListIdx_keeps (now : Z) (record : Record_) :
  keeps R_builder (buildListIdx now record).
Proof. unfold buildListIdx, onList. keeps_tac. Qed.
#[local] Hint Resolve buildListIdx_keeps : keeps.

Lemma commit_place_keeps (entry : Entry) (buff : list byte) :
  keeps R_io (commit_place entry buff).
Proof. unfold commit_place. keeps_tac. Qed.
#[local] Hint Resolve commit_place_keeps : keeps.

Lemma commit_encode_keeps (lastIndex i : nat) (entry : Entry) (buff : list byte) :
  keeps R_loop (commit_encode lastIndex i entry buff).
Proof. unfold commit_encode. keeps_tac. Qed.
#[local] Hint Resolve commit_encode_keeps : keeps.

Lemma commit_index_keeps (lastIndex : nat) (countFlag : bool) (i : nat)
    (entry : Entry) (offset : Z) (bmt : BucketMeta) :
  keeps R_builder (commit_index lastIndex countFlag i entry offset bmt).
Proof. unfold commit_index. keeps_tac. Qed.
#[local] Hint Resolve commit_index_keeps : keeps.

Lemma commit_entry_keeps (lastIndex : nat) (countFlag : bool) (i : nat)
    (entry : Entry) (buff : list byte) (bmt : BucketMeta) :
  keeps R_loop (commit_entry lastIndex countFlag i entry buff bmt).
Proof. unfold commit_entry. keeps_tac. Qed.
#[local] Hint Resolve commit_entry_keeps : keeps.

Lemma commit_loop_keeps (n lastIndex : nat) (countFlag : bool) (i : nat)
    (buff : list byte) (bmt : BucketMeta) :
  keeps R_loop (commit_loop n lastIndex countFlag i buff bmt).
Proof.
  revert i buff bmt. induction n as [|n IH]; intros i buff bmt; simpl; keeps_tac.
Qed.
#[local] Hint Resolve commit_loop_keeps : keeps.

(** ** The deferred calls of Commit *)






(** ** Running a computation step by step *)

Lemma wp_bind {A B} (m : M A) (f : A -> M B) (s : St) (Q : Res B -> St -> Prop) :
  wp m s (fun r s' =>
            match r with
            | Ok a => wp (f a) s' Q
            | Fail e => Q (Fail e) s'
            | Panic => Q Panic s'
            end) ->
  wp (bind m f) s Q.
Proof.
  unfold wp, bind. destruct (m s) as [[a|e|] s']; simpl; auto.
Qed.

Lemma wp_keeps {A} (R : St -> St -> Prop) (m : M A) (s : St) (Q : Res A -> St -> Prop) :
  keeps R m -> (forall r s', R s s' -> Q r s') -> wp m s Q.
Proof. intros Hk HQ. apply HQ, Hk. Qed.

Lemma wp_theDB (s : St) (Q : Res DB -> St -> Prop) :
  (db (st_tx s) = None -> Q Panic s) ->
  (db (st_tx s) <> None -> Q (Ok (st_db s)) s) ->
  wp theDB s Q.
Proof.
  unfold wp, theDB. intros Hn Hs. destruct (db (st_tx s)); simpl; auto.
Qed.

Lemma wp_theActiveFile (s : St) (Q : Res DataFile -> St -> Prop) :
  (db (st_tx s) = None \/ ActiveFile (st_db s) = None -> Q Panic s) ->
  (forall f, db (st_tx s) <> None -> ActiveFile (st_db s) = Some f -> Q (Ok f) s) ->
  wp theActiveFile s Q.
Proof.
  unfold wp, theActiveFile, theDB, bind, ret, panic. intros Hn Hs.
  destruct (db (st_tx s)); simpl; auto.
  destruct (ActiveFile (st_db s)); simpl; auto.
Qed.

Lemma wp_eq {A} (m : M A) (s s' : St) (r : Res A) (Q : Res A -> St -> Prop) :
  m s = (r, s') -> wp m s Q -> Q r s'.
Proof. unfold wp. intros ->. auto. Qed.

Lemma wp_intro {A} (m : M A) (s : St) (Q : Res A -> St -> Prop) :
  (forall r s', m s = (r, s') -> Q r s') -> wp m s Q.
Proof. unfold wp. intros H. apply H. destruct (m s); reflexivity. Qed.

(** ** rotateActiveFile *)

Lemma getDataFile_keeps_b (path : Path) (capacity : Z) :
  keeps R_builder (getDataFile path capacity).
Proof. unfold getDataFile. keeps_tac. Qed.

Lemma rotateSparse_keeps_b (fID : Z) : keeps R_builder (rotateSparse fID).
Proof. unfold rotateSparse. keeps_tac. Qed.

Lemma getDataFile_ok (path : Path) (capacity : Z) (s s' : St) (f : DataFile) :
  getDataFile path capacity s = (Ok f, s') -> f = mkDataFile 0 0 0.
Proof.
  unfold getDataFile. unfold_prims. destruct (io_getDataFile path); simpl; congruence.
Qed.

Lemma rotateActiveFile_ok (s s' : St) :
  rotateActiveFile s = (Ok tt, s') ->
  MaxFileID (st_db s') = add64 (MaxFileID (st_db s)) 1 /\
  ActiveFile (st_db s') = Some (mkDataFile (MaxFileID (st_db s')) 0 0).
Proof.
  intros Hrot.
  enough (wp rotateActiveFile s (fun r s' =>
            r = Ok tt ->
            MaxFileID (st_db s') = add64 (MaxFileID (st_db s)) 1 /\
            ActiveFile (st_db s') = Some (mkDataFile (MaxFileID (st_db s')) 0 0))) as Hwp.
  { exact (wp_eq _ _ _ _ _ Hrot Hwp eq_refl). }
  clear Hrot s'. unfold rotateActiveFile.
  apply wp_bind, wp_theDB; [discriminate|]. intros Hdb.
  apply wp_bind. unfold wp. simpl.
  set (s1 := mkSt _ _ _).
  assert (Hm1 : MaxFileID (st_db s1) = add64 (MaxFileID (st_db s)) 1) by reflexivity.
  clearbody s1.
  apply wp_bind. eapply wp_keeps with (R := R_builder); [keeps_tac|].
  intros [[]| |] s2 (_ & (_ & _ & Hm2) & _); try discriminate.
  apply wp_bind. eapply wp_keeps with (R := R_builder); [keeps_tac|].
  intros [f| |] s3 (_ & (_ & _ & Hm3) & _); try discriminate.
  apply wp_bind. eapply wp_keeps with (R := R_builder); [keeps_tac|].
  intros [[]| |] s4 (_ & (_ & _ & Hm4) & _); try discriminate.
  apply wp_bind. eapply wp_keeps with (R := R_builder); [keeps_tac|].
  intros [[]| |] s5 (_ & (_ & _ & Hm5) & _); try discriminate.
  apply wp_bind. eapply wp_keeps with (R := R_builder);
    [destruct (decide _); [apply rotateSparse_keeps_b|keeps_tac]|].
  intros [[]| |] s6 (_ & (_ & _ & Hm6) & _); try discriminate.
  unfold resetActiveFile.
  apply wp_bind, wp_theDB; [discriminate|]. intros Hdb6.
  unfold wp.
  pose proof (getDataFile_keeps_b (DataPath (MaxFileID (st_db s6)))
                (SegmentSize (opt (st_db s6))) s6) as (_ & (_ & _ & Hm7) & _).
  destruct (getDataFile _ _ s6) as [[f'| |] s7] eqn:Hg; simpl in *; try discriminate.
  apply getDataFile_ok in Hg as ->. simpl. intros _.
  split; [congruence|]. rewrite Hm7. reflexivity.
Qed.

Lemma rotations_ids (s s' : St) (ids : list Z) :
  rotations s ids s' ->
  minInt64 <= MaxFileID (st_db s) ->
  MaxFileID (st_db s) + Z.of_nat (length ids) <= maxInt64 ->
  ids = (fun k => MaxFileID (st_db s) + Z.of_nat k) <$> seq 1 (length ids).
Proof.
  induction 1 as [s|s s1 s2 s' f ids Hm Hrot Hf Hrs IH]; intros Hlo Hhi.
  - reflexivity.
  - simpl length in *. apply rotateActiveFile_ok in Hrot as [Hm2 Ha].
    rewrite Hm, add64_small in Hm2 by (unfold maxInt64, minInt64 in *; lia).
    rewrite Hf in Ha. injection Ha as ->. simpl fileID.
    cbn [seq fmap list_fmap]. f_equal.
    + lia.
    + rewrite IH at 1 by (unfold maxInt64, minInt64 in *; lia).
      rewrite <- (fmap_S_seq 1), <- list_fmap_compose.
      apply list_fmap_ext. intros _ k _. simpl. lia.
Qed.

(** C8, with the bound the code needs.  While [MaxFileID] stays below the
    largest [int64], a successful rotation adds exactly one to it and
    installs an active segment whose file id is the new [MaxFileID]; over a
    run of [n] successful rotations the installed ids are [MaxFileID + 1],
    ..., [MaxFileID + n]: strictly increasing, all above the starting
    [MaxFileID], none twice. *)
Theorem rotateActiveFile_increments (s s' : St) (ids : list Z) :
  minInt64 <= MaxFileID (st_db s) ->
  (MaxFileID (st_db s) < maxInt64 ->
   forall s1, rotateActiveFile s = (Ok tt, s1) ->
     MaxFileID (st_db s1) = MaxFileID (st_db s) + 1 /\
     ActiveFile (st_db s1) = Some (mkDataFile (MaxFileID (st_db s1)) 0 0)) /\
  (rotations s ids s' ->
   MaxFileID (st_db s) + Z.of_nat (length ids) <= maxInt64 ->
   ids = (fun k => MaxFileID (st_db s) + Z.of_nat k) <$> seq 1 (length ids) /\
   StronglySorted Z.lt ids /\
   NoDup ids /\
   Forall (fun i => MaxFileID (st_db s) < i) ids).
Proof.
  intros Hlo. split.
  - intros Hhi s1 Hrot. apply rotateActiveFile_ok in Hrot as [Hm Ha].
    rewrite add64_small in Hm by (unfold maxInt64, minInt64 in *; lia). auto.
  - intros Hrs Hhi. pose proof (rotations_ids _ _ _ Hrs Hlo Hhi) as Hids.
    split; [exact Hids|].
    assert (Hs : StronglySorted Z.lt ids).
    { rewrite Hids. generalize (length ids) 1%nat. intros n.
      induction n as [|n IH]; intros a; simpl; constructor.
      - apply IH.
      - apply Forall_forall. intros x Hx.
        apply list_elem_of_fmap in Hx as (k & -> & Hk).
        rewrite elem_of_seq in Hk. lia. }
    split; [exact Hs|]. split.
    + clear -Hs. induction Hs as [|a l Hs IH Ha]; constructor; auto.
      intros Hin. rewrite Forall_forall in Ha.
      apply Ha in Hin. lia.
    + rewrite Hids. apply Forall_forall. intros x Hx.
      apply list_elem_of_fmap in Hx as (k & -> & Hk).
      rewrite elem_of_seq in Hk. lia.
Qed.

(** ** Expired entries in buildTreeIdx *)


(** The file operations leave the in-memory indexes alone. *)

Lemma writeData_keeps_idx (data : list byte) : keeps R_idx (writeData data).
Proof. unfold writeData. keeps_tac. Qed.
#[local] Hint Resolve writeData_keeps_idx : keeps.

Lemma getDataFile_keeps_idx (path : Path) (capacity : Z) :
  keeps R_idx (getDataFile path capacity).
Proof. unfold getDataFile. keeps_tac. Qed.
#[local] Hint Resolve getDataFile_keeps_idx : keeps.

Lemma rotateSparse_keeps_idx (fID : Z) : keeps R_idx (rotateSparse fID).
Proof. unfold rotateSparse. keeps_tac. Qed.
#[local] Hint Resolve rotateSparse_keeps_idx : keeps.

Lemma resetActiveFile_keeps_idx : keeps R_idx resetActiveFile.
Proof.
  unfold resetActiveFile. keeps_tac.
  intros s.
  match goal with
  | |- context [getDataFile ?p ?c s] =>
      pose proof (getDataFile_keeps_idx p c s) as Hg;
      destruct (getDataFile p c s) as [[f| |] s1]
  end; simpl in *; assumption.
Qed.
#[local] Hint Resolve resetActiveFile_keeps_idx : keeps.

Lemma rotateActiveFile_keeps_idx : keeps R_idx rotateActiveFile.
Proof. unfold rotateActiveFile. keeps_tac. Qed.
#[local] Hint Resolve rotateActiveFile_keeps_idx : keeps.

Lemma commit_place_keeps_idx (entry : Entry) (buff : list byte) :
  keeps R_idx (commit_place entry buff).
Proof. unfold commit_place. keeps_tac. Qed.
#[local] Hint Resolve commit_place_keeps_idx : keeps.

Lemma commit_encode_keeps_idx (lastIndex i : nat) (entry : Entry) (buff : list byte) :
  keeps R_idx_loop (commit_encode lastIndex i entry buff).
Proof. unfold commit_encode. keeps_tac. Qed.
#[local] Hint Resolve commit_encode_keeps_idx : keeps.

(** ** The three parts of an iteration, as equations *)

Lemma commit_place_eq (e : Entry) (buff : list byte) (s : St) (f : DataFile) :
  db (st_tx s) <> None ->
  ActiveFile (st_db s) = Some f ->
  commit_place e buff s =
    if Size e >? SegmentSize (opt (st_db s)) then (Fail ErrDataSizeExceed, s)
    else if overflows (st_db s) f buff (Size e)
         then bind (writeData buff) (fun _ => bind rotateActiveFile (fun _ => ret [])) s
         else (Ok buff, s).
Proof.
  intros Hdb Hf. unfold commit_place, overflows, theActiveFile, theDB.
  unfold bind at 1, fail, ret.
  destruct (db (st_tx s)) eqn:Hd; [|congruence]. simpl.
  destruct (Size e >? SegmentSize (opt (st_db s))); [reflexivity|].
  unfold bind at 1. unfold bind at 1. rewrite Hd. simpl. rewrite Hf. simpl.
  destruct (_ >? _); reflexivity.
Qed.

Lemma commit_place_nil (e : Entry) (buff : list byte) (s : St) :
  db (st_tx s) = None -> commit_place e buff s = (Panic, s).
Proof.
  intros Hdb. unfold commit_place, theDB, bind. rewrite Hdb. reflexivity.
Qed.

Lemma commit_encode_eq (lastIndex i : nat) (e : Entry) (buff : list byte) (s : St)
    (f : DataFile) :
  db (st_tx s) <> None ->
  ActiveFile (st_db s) = Some f ->
  commit_encode lastIndex i e buff s =
    let e' := encoded_entry lastIndex i e in
    let buff' := buff ++ Encode e' in
    let offset := add64 (writeOff f) (blen buff) in
    if decide (i = lastIndex)
    then bind (writeData buff') (fun _ => ret (e', buff', offset))
              (encode_state lastIndex i e buff f s)
    else (Ok (e', buff', offset), encode_state lastIndex i e buff f s).
Proof.
  intros Hdb Hf. unfold commit_encode, encode_state, encoded_entry, theActiveFile, theDB.
  unfold_prims.
  destruct (db (st_tx s)) eqn:Hd; [|congruence]. simpl. rewrite Hf. simpl.
  destruct (decide (Ds (Meta e) = DataStructureTree)); simpl;
    destruct (decide (i = lastIndex)); simpl; try reflexivity.
Qed.

Lemma commit_encode_nil (lastIndex i : nat) (e : Entry) (buff : list byte) (s : St) :
  db (st_tx s) = None \/ ActiveFile (st_db s) = None ->
  commit_encode lastIndex i e buff s = (Panic, s).
Proof.
  intros Hn. unfold commit_encode, theActiveFile, theDB. unfold_prims.
  destruct (db (st_tx s)); simpl; [|reflexivity].
  destruct Hn as [Hn|Hn]; [congruence|]. rewrite Hn. reflexivity.
Qed.

(** ** What Commit encodes *)

Lemma bufferWrites_app (a b : list Event) :
  bufferWrites (a ++ b) = bufferWrites a ++ bufferWrites b.
Proof. apply omap_app. Qed.

Lemma bufferWrites_aux (evs : list Event) :
  Forall aux_event evs -> bufferWrites evs = [].
Proof.
  induction 1 as [|ev evs Hev _ IH]; [reflexivity|].
  destruct ev; simpl in Hev; try tauto; exact IH.
Qed.

Lemma bufferWrites_release (evs : list Event) :
  Forall release_event evs -> bufferWrites evs = [].
Proof.
  induction 1 as [|ev evs Hev _ IH]; [reflexivity|].
  destruct ev; simpl in Hev; try tauto; exact IH.
Qed.

Lemma R_io_writes (s s' : St) :
  R_io s s' ->
  pendingWrites (st_tx s') = pendingWrites (st_tx s) /\
  db (st_tx s') = db (st_tx s) /\
  exists evs, st_log s' = st_log s ++ evs /\ bufferWrites evs = [].
Proof.
  intros ((_ & Hdb & _ & _ & _ & Hpw) & _ & evs & Hl & Hf).
  split; [exact Hpw|]. split; [exact Hdb|].
  exists evs. split; [exact Hl|]. apply bufferWrites_aux, Hf.
Qed.


Lemma commit_entry_writes (lastIndex : nat) (countFlag : bool) (i : nat) (e : Entry)
    (buff : list byte) (bmt : BucketMeta) (s s' : St) (r : Res (list byte * BucketMeta)) :
  commit_entry lastIndex countFlag i e buff bmt s = (r, s') ->
  exists evs,
    st_log s' = st_log s ++ evs /\
    (bufferWrites evs = [encoded_entry lastIndex i e] \/
     (bufferWrites evs = [] /\ ~ is_ok r)) /\
    (is_ok r -> bufferWrites evs = [encoded_entry lastIndex i e]) /\
    (i <> lastIndex -> pendingWrites (st_tx s') = pendingWrites (st_tx s)).
Proof.
  unfold commit_entry. unfold bind at 1.
  pose proof (commit_place_keeps e buff s) as Hp.
  destruct (commit_place e buff s) as [[buff1| |] s1]; simpl in Hp;
    apply R_io_writes in Hp as (Hpw1 & Hdb1 & evs1 & Hl1 & Hw1).
  2,3: intros [= <- <-]; exists evs1; simpl; intuition.
  unfold bind at 1.
  destruct (db (st_tx s1)) as [dref|] eqn:Hdb.
  2:{ rewrite commit_encode_nil by auto. intros [= <- <-].
      exists evs1; simpl; intuition. }
  destruct (ActiveFile (st_db s1)) as [f|] eqn:Hf.
  2:{ rewrite commit_encode_nil by auto. intros [= <- <-].
      exists evs1; simpl; intuition. }
  rewrite (commit_encode_eq lastIndex i e buff1 s1 f) by congruence.
  cbv zeta.
  set (s2 := encode_state lastIndex i e buff1 f s1).
  set (e' := encoded_entry lastIndex i e).
  assert (Hl2 : st_log s2 = st_log s ++ evs1 ++ [EvBufferWrite e' (fileID f)
                                (add64 (writeOff f) (blen buff1))]).
  { subst s2. simpl. rewrite Hl1, <- app_assoc. reflexivity. }
  assert (Hpw2 : i <> lastIndex -> pendingWrites (st_tx s2) = pendingWrites (st_tx s)).
  { intros Hne. subst s2. simpl. destruct (decide (i = lastIndex)); congruence. }
  assert (Hfin : forall s3 evs3,
            st_log s3 = st_log s2 ++ evs3 -> bufferWrites evs3 = [] ->
            exists evs, st_log s3 = st_log s ++ evs /\ bufferWrites evs = [e']).
  { intros s3 evs3 Hl3 Hw3.
    exists (evs1 ++ [EvBufferWrite e' (fileID f) (add64 (writeOff f) (blen buff1))] ++ evs3).
    split.
    - rewrite Hl3, Hl2, <- !app_assoc. reflexivity.
    - rewrite !bufferWrites_app, Hw1, Hw3. reflexivity. }
  clearbody s2.
  (* the write of the buffer on the last entry *)
  assert (Henc : forall re s3,
            (if decide (i = lastIndex)
             then bind (writeData (buff1 ++ Encode e'))
                       (fun _ => ret (e', buff1 ++ Encode e', add64 (writeOff f) (blen buff1))) s2
             else (Ok (e', buff1 ++ Encode e', add64 (writeOff f) (blen buff1)), s2))
            = (re, s3) ->
            (i <> lastIndex -> pendingWrites (st_tx s3) = pendingWrites (st_tx s)) /\
            (exists evs, st_log s3 = st_log s ++ evs /\ bufferWrites evs = [e']) /\
            (exists evs3, st_log s3 = st_log s2 ++ evs3 /\ bufferWrites evs3 = []) /\
            (forall x, re = Ok x -> x.1.1 = e')).
  { intros re s3. destruct (decide (i = lastIndex)) as [Hi|Hi].
    - unfold bind, ret.
      pose proof (writeData_keeps (buff1 ++ Encode e') s2) as Hwd.
      destruct (writeData _ s2) as [[[]| |] s2']; simpl in Hwd;
        apply R_io_writes in Hwd as (Hpw3 & _ & evs3 & Hl3 & Hw3);
        intros [= <- <-]; (split; [congruence|]);
        (split; [eapply Hfin; eassumption|]);
        (split; [eauto|]); intros x [= <-]; reflexivity.
    - intros [= <- <-]. split; [auto|]. split.
      + apply (Hfin s2 []); [rewrite app_nil_r|]; reflexivity.
      + split; [exists []; rewrite app_nil_r; auto|]. intros x [= <-]. reflexivity. }
  remember (if decide (i = lastIndex) then _ else _) as res eqn:He in |- *.
  symmetry in He. destruct res as [[enc| |] s3];
    apply Henc in He as (Hpw3 & (evs & Hl3 & Hw3) & (evs3 & Hl3' & Hw3') & Hx).
  2,3: intros [= <- <-]; exists evs; simpl; intuition.
  (* the indexes *)
  unfold bind at 1.
  pose proof (commit_index_keeps lastIndex countFlag i enc.1.1 enc.2 bmt s3) as Hi.
  destruct (commit_index _ _ _ _ _ _ s3) as [[bmt'| |] s4]; simpl in Hi;
    apply R_builder_io, R_io_writes in Hi as (Hpw4 & _ & evs4 & Hl4 & Hw4);
    intros [= <- <-];
    (exists (evs ++ evs4); split; [rewrite Hl4, Hl3, <- app_assoc; reflexivity|];
     rewrite bufferWrites_app, Hw3, Hw4; simpl;
     split; [auto|]; split; [auto|]; intros Hne; rewrite Hpw4; auto).
Qed.

Lemma stampLast_lookup (pw : list Entry) (i : nat) (e : Entry) :
  pw !! i = Some e ->
  stampLast pw !! i = Some (encoded_entry (length pw - 1) i e).
Proof.
  intros Hi. unfold stampLast, encoded_entry.
  rewrite list_lookup_imap, Hi. reflexivity.
Qed.

Lemma stampLast_length (pw : list Entry) : length (stampLast pw) = length pw.
Proof. apply length_imap. Qed.

Lemma commit_loop_writes (countFlag : bool) (pw : list Entry) (n : nat) :
  forall (i : nat) (buff : list byte) (bmt : BucketMeta) (s s' : St)
         (r : Res (list byte * BucketMeta)),
    commit_loop n (length pw - 1) countFlag i buff bmt s = (r, s') ->
    pendingWrites (st_tx s) = pw ->
    (i + n <= length pw)%nat ->
    exists evs m,
      st_log s' = st_log s ++ evs /\
      bufferWrites evs = take m (drop i (stampLast pw)) /\
      (is_ok r -> m = n) /\
      ((i + n <= length pw - 1)%nat -> pendingWrites (st_tx s') = pw).
Proof.
  induction n as [|n IH]; intros i buff bmt s s' r Hrun Hpw Hlen.
  - simpl in Hrun. injection Hrun as <- <-. exists [], 0%nat.
    rewrite app_nil_r. simpl. auto.
  - simpl in Hrun. unfold bind at 1, gets in Hrun. rewrite Hpw in Hrun.
    destruct (pw !! i) as [e|] eqn:Hi.
    2:{ apply lookup_ge_None in Hi. lia. }
    unfold bind at 1 in Hrun.
    destruct (commit_entry (length pw - 1) countFlag i e buff bmt s) as [r1 s1] eqn:He.
    apply commit_entry_writes in He as (evs1 & Hl1 & Hcase & Hok & Hkeep).
    pose proof (stampLast_lookup pw i e Hi) as Hs.
    assert (Hone : take 1 (drop i (stampLast pw)) = [encoded_entry (length pw - 1) i e]).
    { rewrite (drop_S _ _ _ Hs). reflexivity. }
    destruct r1 as [x| |].
    + (* the iteration went through *)
      specialize (Hok Logic.I).
      destruct (decide (i = (length pw - 1)%nat)) as [Hlast|Hlast].
      * assert (n = 0%nat) as -> by lia. simpl in Hrun. injection Hrun as <- <-.
        exists evs1, 1%nat. rewrite Hok, Hone. repeat split; auto. lia.
      * apply IH in Hrun as (evs2 & m & Hl2 & Hw2 & Hm & Hp2); [|rewrite Hkeep; auto|lia].
        exists (evs1 ++ evs2), (S m). split; [rewrite Hl2, Hl1, <- app_assoc; reflexivity|].
        split; [|split; [intros Hr; f_equal; auto|intros; apply Hp2; lia]].
        rewrite bufferWrites_app, Hok, Hw2, (drop_S _ _ _ Hs). reflexivity.
    + injection Hrun as <- <-.
      assert (Hp : (i + S n <= length pw - 1)%nat -> pendingWrites (st_tx s1) = pw)
        by (intros; rewrite Hkeep; [auto|lia]).
      destruct Hcase as [Hw|[Hw _]].
      * exists evs1, 1%nat. rewrite Hw, Hone. simpl. tauto.
      * exists evs1, 0%nat. rewrite Hw. simpl. tauto.
    + injection Hrun as <- <-.
      assert (Hp : (i + S n <= length pw - 1)%nat -> pendingWrites (st_tx s1) = pw)
        by (intros; rewrite Hkeep; [auto|lia]).
      destruct Hcase as [Hw|[Hw _]].
      * exists evs1, 1%nat. rewrite Hw, Hone. simpl. tauto.
      * exists evs1, 0%nat. rewrite Hw. simpl. tauto.
Qed.

Lemma Commit_deferred_log (err : option error) (s : St) :
  exists evs,
    st_log (snd (Commit_deferred err s)) = st_log s ++ evs /\ Forall release_event evs.
Proof.
  destruct_st s. unfold Commit_deferred, Commit_deferred_steps; cbn [run_steps]. unfold_prims. simpl.
  destruct err as [e|]; destruct txdb; simpl;
    repeat (case_match; simpl in *; simplify_eq);
    rewrite <- ?app_assoc;
    first [ exists []; rewrite app_nil_r; split; [reflexivity|constructor]
          | eexists; split; [reflexivity|];
            repeat constructor; simpl; repeat case_match; exact Logic.I ].
Qed.

Lemma Commit_body_writes (s s1 : St) (r : Res unit) (k : nat) :
  Commit_body s = (r, s1, k) ->
  exists evs m,
    st_log s1 = st_log s ++ evs /\
    bufferWrites evs = take m (stampLast (pendingWrites (st_tx s))) /\
    (r = Ok tt -> bufferWrites evs = stampLast (pendingWrites (st_tx s))).
Proof.
  assert (Hnone : forall s1 : St, st_log s1 = st_log s ->
            (pendingWrites (st_tx s) = [] \/ r <> Ok tt) ->
            exists evs m,
              st_log s1 = st_log s ++ evs /\
              bufferWrites evs = take m (stampLast (pendingWrites (st_tx s))) /\
              (r = Ok tt -> bufferWrites evs = stampLast (pendingWrites (st_tx s)))).
  { intros s2 Hl Hc. exists [], 0%nat. rewrite app_nil_r. split; [exact Hl|].
    split; [reflexivity|]. intros Hr. destruct Hc as [->|Hc]; [reflexivity|congruence]. }
  unfold Commit_body, isClosed, loadStatus, allocCommitBuffer. unfold_prims.
  destruct (status (st_tx s)) as [v|] eqn:Hst; simpl.
  2:{ intros [= <- <- <-]. apply Hnone; [reflexivity|right; discriminate]. }
  case_bool_decide; simpl.
  { intros [= <- <- <-]. apply Hnone; [reflexivity|right; discriminate]. }
  destruct (db (st_tx s)) eqn:Hdb; simpl.
  2:{ intros [= <- <- <-]. apply Hnone; [reflexivity|right; discriminate]. }
  case_decide.
  { intros [= <- <- <-]. apply Hnone; [reflexivity|left].
    destruct (pendingWrites (st_tx s)); [reflexivity|discriminate]. }
  set (s0 := mkSt (set_status (Some txStatusCommitting) (st_tx s)) (st_db s) (st_log s)).
  assert (Hrun : forall buff,
            let m := bind (commit_loop (length (pendingWrites (st_tx s)))
                                       (length (pendingWrites (st_tx s)) - 1)
                                       (negb (isMerging (st_db s))) 0 buff BucketMeta_zero)
                          (fun _ => buildNotDSIdxes) in
            (fst (m s0), snd (m s0), 2%nat) = (r, s1, k) ->
            exists evs m,
              st_log s1 = st_log s ++ evs /\
              bufferWrites evs = take m (stampLast (pendingWrites (st_tx s))) /\
              (r = Ok tt -> bufferWrites evs = stampLast (pendingWrites (st_tx s)))).
  { intros buff m [= <- <- <-]. subst m. unfold bind.
    destruct (commit_loop _ _ _ _ _ _ s0) as [rl sl] eqn:Hloop.
    apply (commit_loop_writes _ (pendingWrites (st_tx s))) in Hloop
      as (evs & m & Hl & Hw & Hm & _); [|reflexivity|lia].
    rewrite drop_0 in Hw.
    destruct rl as [x| |]; simpl.
    - pose proof (buildNotDSIdxes_keeps sl) as Hb.
      apply R_builder_io, R_io_writes in Hb as (_ & _ & evs2 & Hl2 & Hw2).
      exists (evs ++ evs2), m. split; [rewrite Hl2, Hl, <- app_assoc; reflexivity|].
      rewrite bufferWrites_app, Hw2, app_nil_r. split; [exact Hw|].
      intros _. rewrite Hw, (Hm Logic.I).
      apply take_ge. rewrite stampLast_length. lia.
    - exists evs, m. split; [exact Hl|]. split; [exact Hw|discriminate].
    - exists evs, m. split; [exact Hl|]. split; [exact Hw|discriminate]. }
  destruct (_ <? CommitBufferSize _); [apply Hrun|].
  destruct (_ <? 0); [|apply Hrun].
  intros [= <- <- <-]. apply Hnone; [reflexivity|right; discriminate].
Qed.

Lemma Commit_writes (s s' : St) (o : Outcome) :
  Commit s = (o, s') ->
  exists evs m,
    st_log s' = st_log s ++ evs /\
    bufferWrites evs = take m (stampLast (pendingWrites (st_tx s))) /\
    (o = Returned None -> bufferWrites evs = stampLast (pendingWrites (st_tx s))).
Proof.
  unfold Commit. destruct (Commit_body s) as [[r s1] k] eqn:Hb.
  apply Commit_body_writes in Hb as (evs & m & Hl & Hw & Hall).
  set (s2 := if (2 <=? k)%nat then _ else _).
  set (s3 := if (1 <=? k)%nat then _ else _).
  assert (Hl3 : st_log s3 = st_log s1).
  { subst s3 s2. destruct (2 <=? k)%nat, (1 <=? k)%nat; reflexivity. }
  destruct (Commit_deferred_log (namedResult r) s3) as (evs2 & Hl2 & Hrel).
  apply bufferWrites_release in Hrel.
  destruct (Commit_deferred (namedResult r) s3) as [rd s4]; simpl in Hl2.
  intros Hc.
  assert (s' = s4) as -> by (destruct rd; congruence).
  exists (evs ++ evs2), m.
  split; [rewrite Hl2, Hl3, Hl, <- app_assoc; reflexivity|].
  rewrite bufferWrites_app, Hrel, app_nil_r. split; [exact Hw|].
  intros ->. apply Hall.
  destruct rd as [[]| |]; try discriminate. destruct r as [[]| |]; simpl in Hc; congruence.
Qed.

Lemma appendEntry_pending_ok (t : Tx) (bucket : string) (key value : slice) (ttl : Z)
    (flag : DataFlag) (timestamp : Z) (ds : DataStructure) :
  pending_ok t ->
  pending_ok (appendEntry (newEntry t bucket key value ttl flag timestamp ds) t).
Proof.
  unfold pending_ok, appendEntry. destruct t; simpl. intros Hok.
  apply Forall_app. split; [exact Hok|]. repeat constructor.
Qed.

Lemma put_pending_ok (s s1 : St) (bucket : string) (key value : slice) (ttl : Z)
    (flag : DataFlag) (timestamp : Z) (ds : DataStructure) :
  pending_ok (st_tx s) ->
  put bucket key value ttl flag timestamp ds s = (Ok tt, s1) \/
  putDeleteLog bucket key value ttl flag timestamp ds s = (Ok tt, s1) ->
  pending_ok (st_tx s1).
Proof.
  intros Hok [Hput|Hput].
  - unfold put, checkTxIsClosed in Hput. unfold_prims.
    destruct (db (st_tx s)); simpl in Hput; [|discriminate].
    destruct (writable (st_tx s)); simpl in Hput; [|discriminate].
    destruct (valid _); simpl in Hput; [discriminate|].
    injection Hput as <-. simpl. apply appendEntry_pending_ok, Hok.
  - unfold putDeleteLog in Hput. unfold_prims. simpl in Hput.
    injection Hput as <-. simpl. apply appendEntry_pending_ok, Hok.
Qed.

(** C1.  The entries [Commit] hands to [Encode], in order, are an initial
    part of the pending writes with the last one stamped; when [Commit]
    returns nil they are all of them.  In that stamped list the last entry
    is Committed and every earlier one UnCommitted, and all carry the id of
    the transaction: [put] and [putDeleteLog] append entries that are
    UnCommitted and carry [tx.id]. *)
Theorem Commit_stamps_last (s s' : St) (o : Outcome) :
  pending_ok (st_tx s) ->
  Commit s = (o, s') ->
  (exists evs m,
     st_log s' = st_log s ++ evs /\
     bufferWrites evs = take m (stampLast (pendingWrites (st_tx s))) /\
     (o = Returned None -> bufferWrites evs = stampLast (pendingWrites (st_tx s)))) /\
  (forall i e,
     stampLast (pendingWrites (st_tx s)) !! i = Some e ->
     TxID (Meta e) = tx_id (st_tx s) /\
     (i = (length (pendingWrites (st_tx s)) - 1)%nat -> Status (Meta e) = Committed) /\
     (i <> (length (pendingWrites (st_tx s)) - 1)%nat -> Status (Meta e) = UnCommitted)) /\
  (forall bucket key value ttl flag timestamp ds s1,
     put bucket key value ttl flag timestamp ds s = (Ok tt, s1) \/
     putDeleteLog bucket key value ttl flag timestamp ds s = (Ok tt, s1) ->
     pending_ok (st_tx s1)).
Proof.
  intros Hok Hc. split; [eapply Commit_writes; eassumption|]. split.
  - intros i e Hi. unfold stampLast in Hi. rewrite list_lookup_imap in Hi.
    destruct (pendingWrites (st_tx s) !! i) as [e0|] eqn:Hi0; [|discriminate].
    injection Hi as <-.
    unfold pending_ok in Hok. rewrite Forall_forall in Hok.
    destruct (Hok e0) as [Hst Hid]; [eapply list_elem_of_lookup_2; eassumption|].
    case_decide; simpl; repeat split; auto; congruence.
  - intros. eapply put_pending_ok; eassumption.
Qed.

(** ** An entry larger than a segment *)

Lemma commit_loop_app (a b lastIndex : nat) (countFlag : bool) :
  forall (i : nat) (buff : list byte) (bmt : BucketMeta) (s : St),
    commit_loop (a + b) lastIndex countFlag i buff bmt s =
    bind (commit_loop a lastIndex countFlag i buff bmt)
         (fun r => commit_loop b lastIndex countFlag (i + a) (fst r) (snd r)) s.
Proof.
  induction a as [|a IH]; intros i buff bmt s.
  - simpl. unfold bind, ret. rewrite Nat.add_0_r. reflexivity.
  - simpl. unfold bind, gets.
    destruct (pendingWrites (st_tx s) !! i) as [e|]; [|reflexivity].
    destruct (commit_entry lastIndex countFlag i e buff bmt s) as [[x| |] s1];
      try reflexivity.
    rewrite IH. unfold bind.
    replace (S i + a)%nat with (i + S a)%nat by lia. reflexivity.
Qed.

Lemma commit_place_oversized (e : Entry) (buff : list byte) (s : St) :
  db (st_tx s) <> None ->
  Size e > SegmentSize (opt (st_db s)) ->
  commit_place e buff s = (Fail ErrDataSizeExceed, s).
Proof.
  intros Hdb Hsz. unfold commit_place, theDB, bind, fail.
  destruct (db (st_tx s)); [|congruence].
  destruct (Z.gtb_spec (Size e) (SegmentSize (opt (st_db s)))); [reflexivity|lia].
Qed.

Lemma take_stampLast (pw : list Entry) (k : nat) :
  (k <= length pw - 1)%nat -> take k (stampLast pw) = take k pw.
Proof.
  intros Hk. apply list_eq. intros i.
  destruct (decide (i < k)%nat) as [Hi|Hi].
  - rewrite !lookup_take_lt by assumption. unfold stampLast.
    rewrite list_lookup_imap. destruct (pw !! i); [|reflexivity]. simpl.
    case_decide; [lia|reflexivity].
  - rewrite !lookup_take_ge by lia. reflexivity.
Qed.

(** C3.  Let the entry [e] be larger than a segment, behind the entries
    [pre] of the pending writes.  If the iterations for [pre] go through
    (no I/O error before [e] is reached), [Commit] returns
    [ErrDataSizeExceed]; the DB context is the one those iterations left,
    with the commit buffer reset, so no index holds an entry at or after
    [e]; and the log holds nothing after theirs but the error handler and
    the unlock: the entries encoded are [pre], and no write to a segment
    comes from [e] or a later entry. *)
Theorem Commit_oversized (s sk : St) (pre post : list Entry) (e : Entry)
    (loc : list byte * BucketMeta) :
  pendingWrites (st_tx s) = pre ++ e :: post ->
  status (st_tx s) = Some txStatusRunning ->
  db (st_tx s) <> None ->
  Size e > SegmentSize (opt (st_db s)) ->
  commit_prefix (length pre) s = (Ok loc, sk) ->
  fst (Commit s) = Returned (Some ErrDataSizeExceed) /\
  st_db (snd (Commit s)) = set_commitBuffer [] (st_db sk) /\
  st_log (snd (Commit s)) =
    st_log sk ++
    (if ErrorHandler (opt (st_db s)) then [EvHandleError ErrDataSizeExceed] else []) ++
    [if writable (st_tx s) then EvUnlock else EvRUnlock] /\
  exists evs, st_log sk = st_log s ++ evs /\ bufferWrites evs = pre.
Proof.
  intros Hpw Hst Hdb Hsz Hpre.
  unfold commit_prefix in Hpre. simpl in Hpre.
  set (s0 := mkSt (set_status (Some txStatusCommitting) (st_tx s)) (st_db s) (st_log s)) in *.
  destruct (allocCommitBuffer s0) as [[buff| |] s0'] eqn:Halloc; try discriminate.
  assert (s0' = s0) as ->.
  { revert Halloc. unfold allocCommitBuffer. unfold_prims.
    destruct (db (st_tx s0)); simpl; [|discriminate].
    repeat case_match; congruence. }
  assert (Hlen : length (pendingWrites (st_tx s)) = (length pre + S (length post))%nat).
  { rewrite Hpw, length_app. reflexivity. }
  assert (Hpw0 : pendingWrites (st_tx s0) = pre ++ e :: post) by exact Hpw.
  (* what the iterations over [pre] did *)
  pose proof (commit_loop_keeps (length pre) (length (pendingWrites (st_tx s)) - 1)
                (negb (isMerging (st_db s))) 0 buff BucketMeta_zero s0) as Hk.
  rewrite Hpre in Hk. simpl in Hk.
  destruct Hk as ((_ & Hdbk & Hwk & _) & (Hok & _) & _).
  pose proof Hpre as Hpre'.
  rewrite Hpw in Hpre'.
  apply (commit_loop_writes _ (pre ++ e :: post)) in Hpre'
    as (evs & m & Hl & Hw & Hm & Hkeep); [|exact Hpw0|rewrite length_app; simpl; lia].
  rewrite (Hm Logic.I), drop_0, take_stampLast, take_app_length in Hw
    by (rewrite length_app; simpl; lia).
  specialize (Hkeep ltac:(rewrite length_app; simpl; lia)).
  (* the iteration on [e] *)
  assert (Hloop : commit_loop (length (pendingWrites (st_tx s)))
                    (length (pendingWrites (st_tx s)) - 1)
                    (negb (isMerging (st_db s))) 0 buff BucketMeta_zero s0
                  = (Fail ErrDataSizeExceed, sk)).
  { rewrite Hlen at 1. rewrite commit_loop_app. unfold bind at 1. rewrite Hpre.
    simpl. unfold bind at 1, gets. rewrite Hkeep.
    rewrite list_lookup_middle by reflexivity.
    unfold bind at 1. unfold commit_entry. unfold bind at 1.
    rewrite commit_place_oversized; [reflexivity|rewrite Hdbk; exact Hdb|].
    rewrite Hok. exact Hsz. }
  (* Commit *)
  unfold Commit, Commit_body, isClosed, loadStatus. unfold_prims.
  rewrite Hst. simpl.
  destruct (db (st_tx s)) as [dref|] eqn:Hd; [|congruence].
  destruct (decide (length (pendingWrites (st_tx s)) = 0%nat)) as [Hz|_].
  { rewrite Hpw, length_app in Hz. simpl in Hz. lia. }
  fold s0. rewrite Halloc, Hloop. simpl.
  unfold Commit_deferred, Commit_deferred_steps; cbn [run_steps]. unfold_prims. simpl.
  assert (Hdbk' : db (st_tx sk) = Some dref) by (rewrite Hdbk; subst s0; simpl; exact Hd).
  rewrite Hdbk'. simpl.
  assert (Hw' : writable (st_tx sk) = writable (st_tx s)) by (rewrite Hwk; reflexivity).
  assert (Ho' : opt (st_db sk) = opt (st_db s)) by (rewrite Hok; reflexivity).
  rewrite Ho'.
  destruct (ErrorHandler (opt (st_db s))); simpl; rewrite ?Hdbk'; simpl;
    rewrite Hw', <- ?app_assoc; simpl;
    (split; [reflexivity|]); (split; [reflexivity|]); (split; [reflexivity|]);
    exists evs; split; [exact Hl|exact Hw|exact Hl|exact Hw].
Qed.

Lemma commit_index_tree (lastIndex : nat) (countFlag : bool) (i : nat) (e : Entry)
    (offset : Z) (bmt : BucketMeta) (s : St) :
  EntryIdxMode (opt (st_db s)) <> HintBPTSparseIdxMode ->
  Ds (Meta e) = DataStructureTree ->
  commit_index lastIndex countFlag i e offset bmt s =
    match db (st_tx s), ActiveFile (st_db s) with
    | Some _, Some f =>
        bind (buildTreeIdx (time_Now i)
                (mkRecord (mkHint (Key e) (fileID f) (Meta e) (to_uint64 offset))
                          (Value e) (Bucket e)) countFlag)
             (fun _ => ret bmt) s
    | _, _ => (Panic, s)
    end.
Proof.
  intros Hmode Hds. unfold commit_index, theActiveFile, theDB.
  unfold bind at 1.
  destruct (db (st_tx s)) eqn:Hdb; [|reflexivity].
  destruct (decide (EntryIdxMode (opt (st_db s)) = HintBPTSparseIdxMode)); [congruence|].
  rewrite Hds.
  assert (Hskip : (if decide (i = lastIndex) then ret tt else ret tt) = (ret tt : M unit))
    by (destruct (decide (i = lastIndex)); reflexivity).
  rewrite Hskip. unfold bind at 1, ret at 1. unfold bind at 1. unfold bind at 1.
  rewrite Hdb. destruct (ActiveFile (st_db s)); [|reflexivity].
  unfold ret at 1. simpl. unfold bind, ret.
  destruct (buildTreeIdx _ _ _ s) as [[[]| |] s1]; reflexivity.
Qed.

Lemma setStatus_meta (st : DataStatus) (e : Entry) :
  Ds (Meta (setStatus st e)) = Ds (Meta e) /\
  Flag (Meta (setStatus st e)) = Flag (Meta e) /\
  TTL (Meta (setStatus st e)) = TTL (Meta e) /\
  expireTimeOf (Meta (setStatus st e)) = expireTimeOf (Meta e).
Proof. destruct e as [k v b [? ? ? ? ? ? ? ? ?]]. simpl. auto. Qed.

Lemma encoded_entry_meta (lastIndex i : nat) (e : Entry) :
  Ds (Meta (encoded_entry lastIndex i e)) = Ds (Meta e) /\
  Flag (Meta (encoded_entry lastIndex i e)) = Flag (Meta e) /\
  TTL (Meta (encoded_entry lastIndex i e)) = TTL (Meta e) /\
  expireTimeOf (Meta (encoded_entry lastIndex i e)) = expireTimeOf (Meta e).
Proof.
  unfold encoded_entry. destruct (decide (i = lastIndex)); [apply setStatus_meta|auto].
Qed.

Lemma commit_encode_ok (lastIndex i : nat) (e : Entry) (buff : list byte) (s s' : St)
    (x : Entry * list byte * Z) :
  commit_encode lastIndex i e buff s = (Ok x, s') ->
  x.1.1 = encoded_entry lastIndex i e.
Proof.
  destruct (db (st_tx s)) eqn:Hdb.
  2:{ rewrite commit_encode_nil by auto. discriminate. }
  destruct (ActiveFile (st_db s)) as [f|] eqn:Hf.
  2:{ rewrite commit_encode_nil by auto. discriminate. }
  rewrite (commit_encode_eq _ _ _ _ _ f) by congruence. cbv zeta.
  destruct (decide (i = lastIndex)).
  - unfold bind, ret. destruct (writeData _ _) as [[[]| |] s1]; intros [= <- <-]; reflexivity.
  - intros [= <- <-]. reflexivity.
Qed.


(** ** No entry spans two segments *)

#[local] Hint Resolve getDataFile_keeps_b rotateSparse_keeps_b : keeps.

Lemma resetActiveFile_keeps_rot : keeps R_rot resetActiveFile.
Proof.
  unfold resetActiveFile. keeps_tac.
  intros s.
  match goal with
  | |- context [getDataFile ?p ?c s] =>
      pose proof (getDataFile_keeps_b p c s) as Hg;
      destruct (getDataFile p c s) as [[f| |] s1]
  end; simpl in *; apply R_builder_rot in Hg; assumption.
Qed.
#[local] Hint Resolve resetActiveFile_keeps_rot : keeps.

Lemma rotateActiveFile_keeps_rot : keeps R_rot rotateActiveFile.
Proof. unfold rotateActiveFile. keeps_tac. Qed.
#[local] Hint Resolve rotateActiveFile_keeps_rot : keeps.

Lemma meta_placed_ok (seg : Z) (ev : Event) : meta_event ev -> placed_ok seg ev.
Proof. destruct ev; simpl; tauto. Qed.

Lemma release_placed_ok (seg : Z) (ev : Event) : release_event ev -> placed_ok seg ev.
Proof. destruct ev; simpl; tauto. Qed.

Lemma log_ext_nil (P : Event -> Prop) (s s' : St) :
  st_log s' = st_log s -> log_ext P s s'.
Proof. intros Hl. exists []. rewrite app_nil_r. auto. Qed.

Lemma log_ext_trans (P : Event -> Prop) (s1 s2 s3 : St) :
  log_ext P s1 s2 -> log_ext P s2 s3 -> log_ext P s1 s3.
Proof. intros H1 H2. exact (PreOrder_Transitive _ _ _ H1 H2). Qed.

Lemma theDB_open (s : St) :
  db (st_tx s) <> None -> theDB s = (Ok (st_db s), s).
Proof. unfold theDB. destruct (db (st_tx s)); congruence. Qed.

Lemma theActiveFile_open (s : St) (f : DataFile) :
  db (st_tx s) <> None -> ActiveFile (st_db s) = Some f ->
  theActiveFile s = (Ok f, s).
Proof.
  intros Hdb Hf. unfold theActiveFile, bind. rewrite theDB_open by assumption.
  rewrite Hf. reflexivity.
Qed.

Lemma writeData_eq (data : list byte) (s : St) (f : DataFile) :
  db (st_tx s) <> None ->
  ActiveFile (st_db s) = Some f ->
  length data <> 0%nat ->
  writeData data s =
    if add64 (ActualSize f) (blen data) >? SegmentSize (opt (st_db s))
    then (Fail ErrNotEnoughFileSpace, s)
    else
      let log1 := st_log s ++ [EvWriteAt (fileID f) (ActualSize f) data] in
      match io_WriteAt (fileID f) (ActualSize f) data with
      | Some e => (Fail e, mkSt (st_tx s) (st_db s) log1)
      | None =>
          let d2 := bumpActiveFile (blen data) (st_db s) in
          if SyncEnable (opt (st_db s))
          then (match io_Sync (fileID f) with
                | Some e => Fail e
                | None => Ok tt
                end, mkSt (st_tx s) d2 (log1 ++ [EvSync (fileID f)]))
          else (Ok tt, mkSt (st_tx s) d2 log1)
      end.
Proof.
  intros Hdb Hf Hlen. unfold writeData.
  destruct (decide (length data = 0%nat)); [congruence|].
  unfold bind at 1. rewrite theDB_open by assumption.
  unfold bind at 1. rewrite (theActiveFile_open s f) by assumption.
  destruct (_ >? _); [reflexivity|].
  unfold bind at 1, emit at 1, modify at 1.
  unfold bind at 1, check at 1.
  destruct (io_WriteAt _ _ _); [reflexivity|]. unfold ret at 1.
  unfold bind at 1, modifyDB at 1, modify at 1. cbn [st_tx st_db st_log].
  destruct (SyncEnable _); [|reflexivity].
  unfold bind, emit, modify, check. cbn [st_tx st_db st_log].
  destruct (io_Sync _); reflexivity.
Qed.

(** [writeData] with room for [data] behind what the file holds. *)
Lemma writeData_spec (seg : Z) (data : list byte) (s s' : St) (r : Res unit) :
  seg < 2 ^ 62 ->
  buffer_ok seg data s ->
  writeData data s = (r, s') ->
  log_ext (placed_ok seg) s s' /\
  st_tx s' = st_tx s /\
  opt (st_db s') = opt (st_db s) /\
  MaxFileID (st_db s') = MaxFileID (st_db s) /\
  (r = Ok tt ->
   exists f f',
     ActiveFile (st_db s) = Some f /\
     ActiveFile (st_db s') = Some f' /\
     fileID f' = fileID f /\
     ActualSize f' = ActualSize f + blen data /\
     writeOff f' = ActualSize f' /\
     (data <> [] ->
      exists evs, st_log s' = st_log s ++ EvWriteAt (fileID f) (ActualSize f) data :: evs /\
                  Forall meta_event evs)).
Proof.
  intros Hseg (Hdb & Hsz & f & Hf & H0 & Hoff & Hfit).
  pose proof (blen_nonneg data) as Hlen.
  destruct (decide (length data = 0%nat)) as [Hz|Hnz].
  { unfold writeData. destruct (decide (length data = 0%nat)); [|congruence].
    unfold ret. intros [= <- <-]. split; [apply log_ext_nil; reflexivity|].
    repeat split. intros _. exists f, f. apply blen_nil_iff in Hz.
    repeat split; auto; try lia.
    intros Hne. destruct data; [congruence|discriminate]. }
  rewrite (writeData_eq data s f) by assumption.
  rewrite add64_small by (unfold minInt64, maxInt64; lia).
  destruct (Z.gtb_spec (ActualSize f + blen data) (SegmentSize (opt (st_db s)))); [lia|].
  cbv zeta.
  assert (Hev : placed_ok seg (EvWriteAt (fileID f) (ActualSize f) data))
    by (simpl; lia).
  assert (Hbump : bumpActiveFile (blen data) (st_db s) =
                  set_ActiveFile (Some (mkDataFile (fileID f) (ActualSize f + blen data)
                                                   (ActualSize f + blen data))) (st_db s)).
  { unfold bumpActiveFile. rewrite Hf, Hoff.
    rewrite !add64_small by (unfold minInt64, maxInt64; lia). reflexivity. }
  rewrite Hbump.
  destruct (io_WriteAt (fileID f) (ActualSize f) data) as [err|].
  { intros [= <- <-]. simpl.
    split; [exists [EvWriteAt (fileID f) (ActualSize f) data]; split; [reflexivity|auto]|].
    repeat split. discriminate. }
  destruct (SyncEnable (opt (st_db s))).
  - intros [= <- <-]. simpl.
    split; [exists [EvWriteAt (fileID f) (ActualSize f) data; EvSync (fileID f)];
            split; [rewrite <- app_assoc; reflexivity|
                   repeat (apply List.Forall_cons; [first [exact Hev|exact Logic.I]|]);
                   apply List.Forall_nil]|].
    repeat split.
    intros _. eexists f, _. split; [exact Hf|]. split; [reflexivity|]. simpl.
    repeat split.
    intros _. exists [EvSync (fileID f)]. rewrite <- app_assoc. split; [reflexivity|].
    repeat constructor.
  - intros [= <- <-]. simpl.
    split; [exists [EvWriteAt (fileID f) (ActualSize f) data];
            split; [reflexivity|
                   repeat (apply List.Forall_cons; [first [exact Hev|exact Logic.I]|]);
                   apply List.Forall_nil]|].
    repeat split.
    intros _. eexists f, _. split; [exact Hf|]. split; [reflexivity|]. simpl.
    repeat split.
    intros _. exists []. split; [reflexivity|constructor].
Qed.

(** A successful rotation releases the file that was active, and opens the
    next one empty. *)
Lemma rotateActiveFile_spec (s s' : St) (f : DataFile) :
  ActiveFile (st_db s) = Some f ->
  rotateActiveFile s = (Ok tt, s') ->
  MaxFileID (st_db s') = add64 (MaxFileID (st_db s)) 1 /\
  ActiveFile (st_db s') = Some (mkDataFile (MaxFileID (st_db s')) 0 0) /\
  exists evs,
    st_log s' = st_log s ++ evs /\ Forall meta_event evs /\
    EvRelease (fileID f) ∈ evs.
Proof.
  intros Hf Hrot.
  destruct (rotateActiveFile_ok s s' Hrot) as [Hm Ha].
  split; [exact Hm|]. split; [exact Ha|].
  enough (wp rotateActiveFile s (fun r s' =>
            r = Ok tt ->
            exists evs, st_log s' = st_log s ++ evs /\ Forall meta_event evs /\
                        EvRelease (fileID f) ∈ evs)) as Hwp.
  { exact (wp_eq _ _ _ _ _ Hrot Hwp eq_refl). }
  clear Hrot Hm Ha s'. unfold rotateActiveFile.
  apply wp_bind, wp_theDB; [discriminate|]. intros Hdb.
  apply wp_bind. unfold wp. simpl.
  set (s1 := mkSt _ _ _).
  assert (Hf1 : ActiveFile (st_db s1) = Some f) by exact Hf.
  assert (Hl1 : st_log s1 = st_log s) by reflexivity.
  clearbody s1.
  apply wp_bind. eapply wp_keeps with (R := R_builder); [keeps_tac|].
  intros [[]| |] s2 (_ & (_ & Hf2 & _) & evs2 & Hl2 & Hev2); try discriminate.
  apply wp_bind, wp_theActiveFile; [discriminate|].
  intros f2 _ Hf2'. assert (f2 = f) as -> by congruence.
  apply wp_bind. unfold wp. simpl.
  set (s3 := mkSt _ _ _).
  assert (Hl3 : st_log s3 = st_log s ++ evs2 ++ [EvRelease (fileID f)]).
  { subst s3. simpl. rewrite Hl2, Hl1, <- app_assoc. reflexivity. }
  clearbody s3.
  eapply wp_keeps with (R := R_rot); [keeps_tac|].
  intros r s4 (_ & _ & evs4 & Hl4 & Hev4) _.
  exists (evs2 ++ [EvRelease (fileID f)] ++ evs4).
  split; [rewrite Hl4, Hl3, <- !app_assoc; reflexivity|]. split.
  - apply Forall_app. split; [exact Hev2|].
    apply Forall_app. split; [|exact Hev4]. repeat constructor.
  - apply elem_of_app. right. apply elem_of_app. left. apply list_elem_of_singleton.
    reflexivity.
Qed.

Lemma log_ext_meta (seg : Z) (s s' : St) :
  log_ext meta_event s s' -> log_ext (placed_ok seg) s s'.
Proof. apply log_ext_mono, meta_placed_ok. Qed.

Lemma Size_nonneg (e : Entry) : codec_ok -> 0 <= Size e.
Proof. intros [Hlen _]. rewrite <- Hlen. apply blen_nonneg. Qed.

Lemma commit_place_spec (seg : Z) (e : Entry) (buff : list byte) (s s' : St)
    (r : Res (list byte)) :
  seg < 2 ^ 62 ->
  0 <= Size e ->
  buffer_ok seg buff s ->
  commit_place e buff s = (r, s') ->
  log_ext (placed_ok seg) s s' /\
  T_frame (st_tx s) (st_tx s') /\
  (forall buff', r = Ok buff' ->
     buffer_ok seg buff' s' /\
     exists f', ActiveFile (st_db s') = Some f' /\
                ActualSize f' + blen buff' + Size e <= seg).
Proof.
  intros Hseg Hsize Hok. pose proof Hok as (Hdb & Hsz & f & Hf & H0 & Hoff & Hfit).
  pose proof (blen_nonneg buff) as Hlen.
  rewrite (commit_place_eq e buff s f) by assumption.
  destruct (Z.gtb_spec (Size e) (SegmentSize (opt (st_db s)))) as [Hbig|Hsmall].
  { intros [= <- <-]. split; [reflexivity|]. split; [reflexivity|]. discriminate. }
  unfold overflows.
  rewrite (add64_small (ActualSize f) (blen buff)), add64_small
    by (unfold minInt64, maxInt64; lia).
  destruct (Z.gtb_spec (ActualSize f + blen buff + Size e) (SegmentSize (opt (st_db s))))
    as [Hover|Hfits].
  - (* flush, rotate, start with an empty buffer *)
    unfold bind at 1.
    destruct (writeData buff s) as [rw s1] eqn:Hw.
    apply (writeData_spec seg) in Hw as (Hl1 & Htx1 & Ho1 & _ & Hok1); try assumption.
    destruct rw as [[]| |].
    2,3: intros [= <- <-]; split; [exact Hl1|]; split; [rewrite Htx1; reflexivity|discriminate].
    destruct (Hok1 eq_refl) as (f0 & f1 & _ & Hf1 & _).
    unfold bind at 1.
    pose proof (rotateActiveFile_keeps_rot s1) as Hk.
    destruct (rotateActiveFile s1) as [rr s2] eqn:Hr. simpl in Hk.
    destruct Hk as (Htx2 & (Ho2 & _) & Hl2).
    assert (Hl : log_ext (placed_ok seg) s s2).
    { eapply log_ext_trans; [exact Hl1|]. apply log_ext_meta, Hl2. }
    assert (Htx : T_frame (st_tx s) (st_tx s2)) by (rewrite <- Htx1; exact Htx2).
    destruct rr as [[]| |].
    2,3: intros [= <- <-]; split; [exact Hl|]; split; [exact Htx|discriminate].
    apply rotateActiveFile_ok in Hr as [_ Ha2].
    unfold ret. intros [= <- <-]. split; [exact Hl|]. split; [exact Htx|].
    intros buff' [= <-].
    assert (Hb : blen [] = 0) by reflexivity.
    split.
    + split; [destruct Htx as (_ & -> & _); exact Hdb|].
      split; [rewrite Ho2, Ho1; exact Hsz|].
      eexists. split; [exact Ha2|]. simpl. rewrite Hb. repeat split; lia.
    + eexists. split; [exact Ha2|]. simpl. rewrite Hb. lia.
  - intros [= <- <-]. split; [reflexivity|]. split; [reflexivity|].
    intros buff' [= <-]. split; [exact Hok|]. exists f. split; [exact Hf|lia].
Qed.

Lemma encode_state_frame (lastIndex i : nat) (e : Entry) (buff : list byte)
    (f : DataFile) (s : St) :
  let s1 := encode_state lastIndex i e buff f s in
  db (st_tx s1) = db (st_tx s) /\
  opt (st_db s1) = opt (st_db s) /\
  ActiveFile (st_db s1) = ActiveFile (st_db s) /\
  T_core (st_tx s) (st_tx s1).
Proof.
  unfold encode_state. simpl.
  assert (Htx : T_core (st_tx s)
                  (if decide (i = lastIndex) then stampCommitted i (st_tx s) else st_tx s)).
  { destruct (decide (i = lastIndex)); [|reflexivity].
    unfold stampCommitted, T_core. destruct (pendingWrites (st_tx s) !! i); simpl;
      rewrite ?length_insert; auto 10. }
  split; [destruct Htx as (_ & Hd & _); exact Hd|].
  destruct (decide (Ds (Meta e) = DataStructureTree)); auto.
Qed.

Lemma commit_encode_spec (seg : Z) (lastIndex i : nat) (e : Entry) (buff : list byte)
    (s s' : St) (f : DataFile) (r : Res (Entry * list byte * Z)) :
  seg < 2 ^ 62 ->
  codec_ok ->
  buffer_ok seg buff s ->
  ActiveFile (st_db s) = Some f ->
  ActualSize f + blen buff + Size e <= seg ->
  commit_encode lastIndex i e buff s = (r, s') ->
  log_ext (placed_ok seg) s s' /\
  T_core (st_tx s) (st_tx s') /\
  (forall x, r = Ok x -> i <> lastIndex -> buffer_ok seg x.1.2 s').
Proof.
  intros Hseg Hcodec (Hdb & Hsz & f0 & Hf0 & H0 & Hoff & _) Hf Hfit.
  assert (f0 = f) as -> by congruence.
  pose proof (blen_nonneg buff) as Hlen.
  pose proof (Size_nonneg e Hcodec) as Hsize.
  rewrite (commit_encode_eq lastIndex i e buff s f) by assumption. cbv zeta.
  set (e' := encoded_entry lastIndex i e).
  assert (Hsz' : Size e' = Size e).
  { subst e'. unfold encoded_entry. destruct (decide (i = lastIndex)); [|reflexivity].
    apply Hcodec. }
  assert (Hblen : blen (buff ++ Encode e') = blen buff + Size e).
  { rewrite blen_app. destruct Hcodec as [Hc _]. rewrite Hc, Hsz'. reflexivity. }
  set (s1 := encode_state lastIndex i e buff f s).
  destruct (encode_state_frame lastIndex i e buff f s) as (Hdb1 & Ho1 & Hf1 & Htx1).
  fold s1 in Hdb1, Ho1, Hf1, Htx1.
  assert (Hl1 : log_ext (placed_ok seg) s s1).
  { exists [EvBufferWrite e' (fileID f) (add64 (writeOff f) (blen buff))].
    split; [reflexivity|]. repeat constructor; simpl;
      rewrite add64_small by (unfold minInt64, maxInt64; lia); lia. }
  assert (Hok1 : buffer_ok seg (buff ++ Encode e') s1).
  { split; [rewrite Hdb1; exact Hdb|]. split; [rewrite Ho1; exact Hsz|].
    exists f. rewrite Hf1. repeat split; auto. lia. }
  clearbody s1.
  destruct (decide (i = lastIndex)) as [Hi|Hi].
  - unfold bind, ret. destruct (writeData (buff ++ Encode e') s1) as [rw s2] eqn:Hw.
    apply (writeData_spec seg) in Hw as (Hl2 & Htx2 & _); try assumption.
    assert (Hl : log_ext (placed_ok seg) s s2) by (eapply log_ext_trans; eassumption).
    destruct rw as [[]| |]; intros [= <- <-];
      (split; [exact Hl|]); (split; [rewrite Htx2; exact Htx1|]);
      intros x Hx Hne; congruence.
  - intros [= <- <-]. split; [exact Hl1|]. split; [exact Htx1|].
    intros x [= <-] _. exact Hok1.
Qed.

Lemma commit_entry_placed (seg : Z) (lastIndex : nat) (countFlag : bool) (i : nat)
    (e : Entry) (buff : list byte) (bmt : BucketMeta) (s s' : St)
    (r : Res (list byte * BucketMeta)) :
  seg < 2 ^ 62 ->
  codec_ok ->
  buffer_ok seg buff s ->
  commit_entry lastIndex countFlag i e buff bmt s = (r, s') ->
  log_ext (placed_ok seg) s s' /\
  length (pendingWrites (st_tx s')) = length (pendingWrites (st_tx s)) /\
  (forall x, r = Ok x -> i <> lastIndex -> buffer_ok seg x.1 s').
Proof.
  intros Hseg Hcodec Hok. pose proof (Size_nonneg e Hcodec) as Hsize.
  unfold commit_entry. unfold bind at 1.
  destruct (commit_place e buff s) as [rp s1] eqn:Hp.
  apply (commit_place_spec seg) in Hp as (Hl1 & Htx1 & Hok1); try assumption.
  apply T_frame_core in Htx1. destruct Htx1 as (_ & _ & _ & _ & _ & Hlen1).
  destruct rp as [buff1| |].
  2,3: intros [= <- <-]; split; [exact Hl1|]; split; [exact Hlen1|discriminate].
  destruct (Hok1 buff1 eq_refl) as (Hb1 & f1 & Hf1 & Hfit1).
  unfold bind at 1.
  destruct (commit_encode lastIndex i e buff1 s1) as [re s2] eqn:He.
  apply (commit_encode_spec seg _ _ _ _ _ _ f1) in He as (Hl2 & Htx2 & Hok2);
    try assumption.
  destruct Htx2 as (_ & _ & _ & _ & _ & Hlen2).
  assert (Hl : log_ext (placed_ok seg) s s2) by (eapply log_ext_trans; eassumption).
  destruct re as [x| |].
  2,3: intros [= <- <-]; split; [exact Hl|]; split; [congruence|discriminate].
  unfold bind at 1.
  pose proof (commit_index_keeps lastIndex countFlag i x.1.1 x.2 bmt s2) as Hk.
  destruct (commit_index lastIndex countFlag i x.1.1 x.2 bmt s2) as [ri s3].
  simpl in Hk. destruct Hk as (Htx3 & ((Ho3 & _) & Hf3 & _) & Hl3).
  apply log_ext_meta with (seg := seg) in Hl3.
  assert (Hl' : log_ext (placed_ok seg) s s3) by (eapply log_ext_trans; eassumption).
  destruct Htx3 as (_ & Hdb3 & _ & _ & _ & Hpw3).
  destruct ri as [bmt'| |]; unfold ret; intros [= <- <-];
    (split; [exact Hl'|]); (split; [congruence|]); try discriminate.
  intros y [= <-] Hne. simpl.
  destruct (Hok2 x eq_refl Hne) as (Hd & Hs & f2 & Hf2 & Hrest).
  split; [congruence|]. split; [congruence|].
  exists f2. split; [congruence|exact Hrest].
Qed.

Lemma commit_loop_placed (seg : Z) (countFlag : bool) (len n : nat) :
  forall (i : nat) (buff : list byte) (bmt : BucketMeta) (s s' : St)
         (r : Res (list byte * BucketMeta)),
    seg < 2 ^ 62 ->
    codec_ok ->
    buffer_ok seg buff s ->
    length (pendingWrites (st_tx s)) = len ->
    (i + n <= len)%nat ->
    commit_loop n (len - 1) countFlag i buff bmt s = (r, s') ->
    log_ext (placed_ok seg) s s' /\
    (forall x, r = Ok x -> (i + n < len)%nat -> buffer_ok seg x.1 s').
Proof.
  induction n as [|n IH]; intros i buff bmt s s' r Hseg Hcodec Hok Hlen Hin Hrun.
  - simpl in Hrun. injection Hrun as <- <-. split; [reflexivity|].
    intros x [= <-] _. exact Hok.
  - simpl in Hrun. unfold bind at 1, gets in Hrun.
    destruct (pendingWrites (st_tx s) !! i) as [e|].
    2:{ injection Hrun as <- <-. split; [reflexivity|discriminate]. }
    unfold bind at 1 in Hrun.
    destruct (commit_entry (len - 1) countFlag i e buff bmt s) as [r1 s1] eqn:He.
    apply (commit_entry_placed seg) in He as (Hl1 & Hlen1 & Hok1); try assumption.
    destruct r1 as [x| |]; try (injection Hrun as <- <-; split; [exact Hl1|discriminate]).
    destruct (decide (i = (len - 1)%nat)) as [Hlast|Hlast].
    + assert (n = 0%nat) as -> by lia. simpl in Hrun. injection Hrun as <- <-.
      split; [exact Hl1|]. intros; lia.
    + apply IH in Hrun as [Hl2 Hok2]; try assumption; [|apply Hok1; auto|congruence|lia].
      split; [eapply log_ext_trans; eassumption|].
      intros y Hy Hlt. apply Hok2; [exact Hy|lia].
Qed.


Lemma commit_prefix_buffer_ok (seg : Z) (k : nat) (s sk : St)
    (loc : list byte * BucketMeta) :
  seg < 2 ^ 62 ->
  codec_ok ->
  SegmentSize (opt (st_db s)) = seg ->
  segment_ok (st_db s) ->
  commitBuffer (st_db s) = [] ->
  (k < length (pendingWrites (st_tx sk)))%nat ->
  commit_prefix k s = (Ok loc, sk) ->
  buffer_ok seg loc.1 sk /\
  length (pendingWrites (st_tx sk)) = length (pendingWrites (st_tx s)).
Proof.
  intros Hseg Hcodec Hsz (f & Hf & H0 & Hoff & Hfit) Hbuf Hk.
  unfold commit_prefix. simpl.
  set (s0 := mkSt (set_status (Some txStatusCommitting) (st_tx s)) (st_db s) (st_log s)).
  destruct (allocCommitBuffer s0) as [[buff| |] s0'] eqn:Halloc; try discriminate.
  assert (s0' = s0 /\ buff = [] /\ db (st_tx s) <> None) as (-> & -> & Hdb).
  { revert Halloc. unfold allocCommitBuffer. unfold_prims.
    destruct (db (st_tx s0)) eqn:Hd; simpl; [|discriminate].
    simpl in Hd. rewrite Hd.
    repeat case_match; intros [= <- <-]; rewrite ?Hbuf; auto. }
  intros Hloop.
  pose proof (commit_loop_keeps k (length (pendingWrites (st_tx s)) - 1)
                (negb (isMerging (st_db s))) 0 [] BucketMeta_zero s0) as Hkeep.
  rewrite Hloop in Hkeep. simpl in Hkeep.
  destruct Hkeep as ((_ & _ & _ & _ & _ & Hlen) & _).
  apply (commit_loop_placed seg) in Hloop as [_ Hok]; try assumption.
  - split; [apply Hok; [reflexivity|simpl in Hlen |- *; lia]|exact Hlen].
  - split; [exact Hdb|]. split; [exact Hsz|]. exists f.
    assert (Hb : blen [] = 0) by reflexivity.
    simpl. rewrite Hb. repeat split; auto. lia.
  - reflexivity.
  - simpl in Hlen |- *. lia.
Qed.

Lemma commit_encode_log (lastIndex i : nat) (e : Entry) (buff : list byte)
    (s s' : St) (f : DataFile) (r : Res (Entry * list byte * Z)) :
  db (st_tx s) <> None ->
  ActiveFile (st_db s) = Some f ->
  commit_encode lastIndex i e buff s = (r, s') ->
  (forall x, r = Ok x -> x.1.2 = buff ++ Encode (encoded_entry lastIndex i e)) /\
  exists evs,
    st_log s' =
      st_log s ++ EvBufferWrite (encoded_entry lastIndex i e) (fileID f)
                                (add64 (writeOff f) (blen buff)) :: evs /\
    Forall aux_event evs.
Proof.
  intros Hdb Hf.
  rewrite (commit_encode_eq lastIndex i e buff s f) by assumption. cbv zeta.
  destruct (decide (i = lastIndex)) as [Hi|Hi].
  - unfold bind, ret.
    pose proof (writeData_keeps (buff ++ Encode (encoded_entry lastIndex i e))
                  (encode_state lastIndex i e buff f s)) as Hk.
    destruct (writeData _ _) as [rw s1]. simpl in Hk.
    destruct Hk as (_ & _ & evs & Hl & Hev).
    intros Hrun.
    assert (s' = s1) as -> by (destruct rw; congruence).
    split.
    + intros x ->. destruct rw as [[]| |]; try discriminate.
      injection Hrun as <-. reflexivity.
    + exists evs. split; [|exact Hev]. rewrite Hl. unfold encode_state. simpl.
      rewrite <- app_assoc. reflexivity.
  - intros [= <- <-]. split; [intros x [= <-]; reflexivity|].
    exists []. split; [reflexivity|constructor].
Qed.

Lemma commit_entry_rotates (seg : Z) (lastIndex : nat) (countFlag : bool) (i : nat)
    (e : Entry) (buff : list byte) (bmt : BucketMeta) (s s' : St) (f : DataFile)
    (x : list byte * BucketMeta) :
  seg < 2 ^ 62 ->
  codec_ok ->
  buffer_ok seg buff s ->
  ActiveFile (st_db s) = Some f ->
  ActualSize f + blen buff + Size e > seg ->
  commit_entry lastIndex countFlag i e buff bmt s = (Ok x, s') ->
  x.1 = Encode (encoded_entry lastIndex i e) /\
  exists flush rot rest,
    st_log s' =
      st_log s ++ flush ++ rot ++
      EvBufferWrite (encoded_entry lastIndex i e) (add64 (MaxFileID (st_db s)) 1) 0
        :: rest /\
    Forall aux_event flush /\
    (buff <> [] -> EvWriteAt (fileID f) (ActualSize f) buff ∈ flush) /\
    Forall meta_event rot /\
    EvRelease (fileID f) ∈ rot /\
    Forall aux_event rest.
Proof.
  intros Hseg Hcodec Hok Hf Hover.
  pose proof Hok as (Hdb & Hsz & f0 & Hf0 & H0 & Hoff & Hfit).
  assert (f0 = f) as -> by congruence.
  pose proof (blen_nonneg buff) as Hlen.
  pose proof (Size_nonneg e Hcodec) as Hsize.
  unfold commit_entry. unfold bind at 1.
  rewrite (commit_place_eq e buff s f) by assumption.
  destruct (Z.gtb_spec (Size e) (SegmentSize (opt (st_db s)))) as [Hbig|Hsmall];
    [discriminate|].
  unfold overflows.
  rewrite (add64_small (ActualSize f) (blen buff)), add64_small
    by (unfold minInt64, maxInt64; lia).
  destruct (Z.gtb_spec (ActualSize f + blen buff + Size e) (SegmentSize (opt (st_db s))))
    as [_|Hfits]; [|lia].
  (* the flush *)
  unfold bind at 1.
  pose proof (writeData_keeps buff s) as Hkw.
  destruct (writeData buff s) as [rw s1] eqn:Hw. simpl in Hkw.
  destruct Hkw as (_ & _ & flush & Hlw & Hevw).
  apply (writeData_spec seg) in Hw as (_ & Htx1 & _ & Hmax1 & Hok1); try assumption.
  destruct rw as [[]| |]; try discriminate.
  destruct (Hok1 eq_refl) as (f0 & f1 & Hf0' & Hf1 & Hid1 & _ & _ & Hwrite).
  assert (f0 = f) as -> by congruence.
  (* the rotation *)
  unfold bind at 1.
  pose proof (rotateActiveFile_keeps_rot s1) as Hkr.
  destruct (rotateActiveFile s1) as [rr s2] eqn:Hr. simpl in Hkr.
  destruct Hkr as ((_ & Hdb2 & _) & _ & _).
  destruct rr as [[]| |]; try discriminate.
  apply (rotateActiveFile_spec s1 s2 f1 Hf1) in Hr as (Hmax2 & Hf2 & rot & Hlr & Hevr & Hrel).
  unfold ret at 1.
  (* the entry goes to the start of the new segment *)
  unfold bind at 1.
  destruct (commit_encode lastIndex i e [] s2) as [re s3] eqn:He.
  apply (commit_encode_log _ _ _ _ _ _ _ _) with (2 := Hf2) in He as (Hbuf & evs3 & Hl3 & Hev3);
    [|rewrite Hdb2, Htx1; exact Hdb].
  destruct re as [y| |]; try discriminate.
  unfold bind at 1.
  pose proof (commit_index_keeps lastIndex countFlag i y.1.1 y.2 bmt s3) as Hki.
  destruct (commit_index lastIndex countFlag i y.1.1 y.2 bmt s3) as [ri s4].
  simpl in Hki. destruct Hki as (_ & _ & evs4 & Hl4 & Hev4).
  destruct ri as [bmt'| |]; try discriminate.
  unfold ret. intros [= <- <-]. simpl.
  split; [rewrite (Hbuf y eq_refl); reflexivity|].
  exists flush, rot, (evs3 ++ evs4).
  split.
  { rewrite Hl4, Hl3, Hlr, Hlw. simpl.
    assert (Hzero : add64 0 (blen []) = 0) by reflexivity.
    rewrite Hzero, Hmax2, Hmax1, <- !app_assoc. reflexivity. }
  split; [exact Hevw|]. split.
  { intros Hne. destruct (Hwrite Hne) as (evs & Hl & _).
    rewrite Hlw in Hl. apply app_inv_head in Hl. rewrite Hl. left. }
  split; [exact Hevr|]. split; [rewrite <- Hid1; exact Hrel|].
  apply Forall_app. split; [exact Hev3|].
  eapply Forall_impl; [exact Hev4|]. apply meta_aux_event.
Qed.


Lemma Commit_body_placed (seg : Z) (s s1 : St) (r : Res unit) (k : nat) :
  seg < 2 ^ 62 ->
  codec_ok ->
  SegmentSize (opt (st_db s)) = seg ->
  segment_ok (st_db s) ->
  commitBuffer (st_db s) = [] ->
  Commit_body s = (r, s1, k) ->
  log_ext (placed_ok seg) s s1.
Proof.
  intros Hseg Hcodec Hsz (f & Hf & H0 & Hoff & Hfit) Hbuf.
  unfold Commit_body, isClosed, loadStatus, allocCommitBuffer. unfold_prims.
  destruct (status (st_tx s)) as [v|] eqn:Hst; simpl.
  2:{ intros [= <- <- <-]. apply log_ext_nil. reflexivity. }
  case_bool_decide; simpl.
  { intros [= <- <- <-]. apply log_ext_nil. reflexivity. }
  destruct (db (st_tx s)) eqn:Hdb; simpl.
  2:{ intros [= <- <- <-]. apply log_ext_nil. reflexivity. }
  case_decide.
  { intros [= <- <- <-]. apply log_ext_nil. reflexivity. }
  set (s0 := mkSt (set_status (Some txStatusCommitting) (st_tx s)) (st_db s) (st_log s)).
  assert (Hrun : forall buff,
            buff = [] ->
            let m := bind (commit_loop (length (pendingWrites (st_tx s)))
                                       (length (pendingWrites (st_tx s)) - 1)
                                       (negb (isMerging (st_db s))) 0 buff BucketMeta_zero)
                          (fun _ => buildNotDSIdxes) in
            (fst (m s0), snd (m s0), 2%nat) = (r, s1, k) ->
            log_ext (placed_ok seg) s s1).
  { intros buff -> m [= <- <- <-]. subst m. unfold bind.
    destruct (commit_loop _ _ _ _ _ _ s0) as [rl sl] eqn:Hloop.
    apply (commit_loop_placed seg) in Hloop as [Hl _]; try assumption.
    - assert (Hl0 : log_ext (placed_ok seg) s sl) by exact Hl.
      destruct rl as [x| |]; simpl; try exact Hl0.
      pose proof (buildNotDSIdxes_keeps sl) as Hb.
      destruct Hb as (_ & _ & Hlb).
      eapply log_ext_trans; [exact Hl0|]. apply log_ext_meta, Hlb.
    - split; [simpl; congruence|]. split; [exact Hsz|]. exists f.
      assert (Hb : blen [] = 0) by reflexivity.
      simpl. rewrite Hb. repeat split; auto. lia.
    - reflexivity.
    - simpl. lia. }
  destruct (_ <? CommitBufferSize _); [apply Hrun, Hbuf|].
  destruct (_ <? 0); [|apply Hrun; reflexivity].
  intros [= <- <- <-]. apply log_ext_nil. reflexivity.
Qed.

Lemma Commit_placed (seg : Z) (s s' : St) (o : Outcome) :
  seg < 2 ^ 62 ->
  codec_ok ->
  SegmentSize (opt (st_db s)) = seg ->
  segment_ok (st_db s) ->
  commitBuffer (st_db s) = [] ->
  Commit s = (o, s') ->
  log_ext (placed_ok seg) s s'.
Proof.
  intros Hseg Hcodec Hsz Hfile Hbuf.
  unfold Commit. destruct (Commit_body s) as [[r s1] k] eqn:Hb.
  apply (Commit_body_placed seg) in Hb; try assumption.
  set (s2 := if (2 <=? k)%nat then _ else _).
  set (s3 := if (1 <=? k)%nat then _ else _).
  assert (Hl3 : st_log s3 = st_log s1).
  { subst s3 s2. destruct (2 <=? k)%nat, (1 <=? k)%nat; reflexivity. }
  destruct (Commit_deferred_log (namedResult r) s3) as (evs2 & Hl2 & Hrel).
  destruct (Commit_deferred (namedResult r) s3) as [rd s4]; simpl in Hl2.
  intros Hc.
  assert (s' = s4) as -> by (destruct rd; congruence).
  eapply log_ext_trans; [exact Hb|].
  exists evs2. split; [rewrite Hl2, Hl3; reflexivity|].
  eapply Forall_impl; [exact Hrel|]. apply release_placed_ok.
Qed.

(** C2.  Let the codec be length-true, the segment size below 2^62, the
    active file consistent (its write offset is its size, within the
    segment) and the commit buffer empty when [Commit] starts.  Then
    - every entry [Commit] encodes, at offset [off] of its file, satisfies
      [0 <= off] and [off + Size e <= SegmentSize], and every write to a
      segment stays within the segment;
    - whenever the iterations before index [k] went through and the entry
      at [k] no longer fits behind the active file and the buffered bytes,
      the iteration for it, if it goes through, first flushes the buffer at
      the end of the active file, then rotates (the old file is released),
      and only then encodes the entry, at offset 0 of the file with the
      next id, into an empty buffer. *)
Theorem Commit_entries_within_segment (s s' : St) (o : Outcome) :
  codec_ok ->
  SegmentSize (opt (st_db s)) < 2 ^ 62 ->
  segment_ok (st_db s) ->
  commitBuffer (st_db s) = [] ->
  Commit s = (o, s') ->
  (exists evs,
     st_log s' = st_log s ++ evs /\
     Forall (placed_ok (SegmentSize (opt (st_db s)))) evs) /\
  (forall (k : nat) (e : Entry) (buff : list byte) (bmt : BucketMeta) (sk sk' : St)
          (f : DataFile) (x : list byte * BucketMeta),
     commit_prefix k s = (Ok (buff, bmt), sk) ->
     pendingWrites (st_tx sk) !! k = Some e ->
     ActiveFile (st_db sk) = Some f ->
     ActualSize f + blen buff + Size e > SegmentSize (opt (st_db s)) ->
     commit_entry (length (pendingWrites (st_tx s)) - 1) (negb (isMerging (st_db s)))
                  k e buff bmt sk = (Ok x, sk') ->
     x.1 = Encode (encoded_entry (length (pendingWrites (st_tx s)) - 1) k e) /\
     exists flush rot rest,
       st_log sk' =
         st_log sk ++ flush ++ rot ++
         EvBufferWrite (encoded_entry (length (pendingWrites (st_tx s)) - 1) k e)
                       (add64 (MaxFileID (st_db sk)) 1) 0 :: rest /\
       Forall aux_event flush /\
       (buff <> [] -> EvWriteAt (fileID f) (ActualSize f) buff ∈ flush) /\
       Forall meta_event rot /\
       EvRelease (fileID f) ∈ rot /\
       Forall aux_event rest).
Proof.
  intros Hcodec Hseg Hfile Hbuf Hrun. split.
  - exact (Commit_placed _ s s' o Hseg Hcodec eq_refl Hfile Hbuf Hrun).
  - intros k e buff bmt sk sk' f x Hpre Hk Hf Hover Hentry.
    apply lookup_lt_Some in Hk.
    destruct (commit_prefix_buffer_ok _ k s sk (buff, bmt) Hseg Hcodec eq_refl
                Hfile Hbuf Hk Hpre) as [Hok _].
    exact (commit_entry_rotates _ _ _ _ _ _ _ _ _ _ _ Hseg Hcodec Hok Hf Hover Hentry).
Qed.


(** ** Further properties of the transaction's methods *)

(** X1.  A [put] that does not succeed returns an error, it never panics,
    and leaves the transaction, the DB context and the log as they were.
    The error is [ErrTxClosed] when [tx.db] is nil, whatever else holds;
    otherwise [ErrTxNotWritable] on a read-only transaction; otherwise the
    error of [entry.valid]. *)
Theorem put_failure_unchanged (s s' : St) (bucket : string) (key value : slice)
    (ttl : Z) (flag : DataFlag) (timestamp : Z) (ds : DataStructure) (r : Res unit) :
  put bucket key value ttl flag timestamp ds s = (r, s') ->
  r <> Ok tt ->
  s' = s /\
  exists err, r = Fail err /\
    ((db (st_tx s) = None /\ err = ErrTxClosed) \/
     (db (st_tx s) <> None /\ writable (st_tx s) = false /\ err = ErrTxNotWritable) \/
     (db (st_tx s) <> None /\ writable (st_tx s) = true /\
      valid (newEntry (st_tx s) bucket key value ttl flag timestamp ds) = Some err)).
Proof.
  unfold put, checkTxIsClosed. unfold_prims.
  destruct (db (st_tx s)) eqn:Hdb; simpl.
  2:{ intros [= <- <-] _. split; [reflexivity|]. exists ErrTxClosed. auto. }
  destruct (writable (st_tx s)) eqn:Hw; simpl.
  2:{ intros [= <- <-] _. split; [reflexivity|]. exists ErrTxNotWritable.
      split; [reflexivity|]. right. left. repeat split; congruence. }
  destruct (valid _) as [err|] eqn:Hv; simpl.
  - intros [= <- <-] _. split; [reflexivity|]. exists err.
    split; [reflexivity|]. right. right. repeat split; congruence.
  - intros [= <- <-] Hr. congruence.
Qed.




(** X3.  [Rollback] of a running transaction returns nil: the status is
    Closed, [tx.db] and the pending writes are cleared, the lock is
    released once, and nothing of the DB context changes: no file is
    written and no index is touched. *)
Theorem Rollback_running (s : St) :
  db (st_tx s) <> None ->
  status (st_tx s) = Some txStatusRunning ->
  Rollback s =
    (Ok tt,
     mkSt (set_pendingWrites [] (set_db None (set_status (Some txStatusClosed) (st_tx s))))
          (st_db s)
          (st_log s ++ [unlockEvent (writable (st_tx s))])).
Proof.
  destruct_st s. unfold Rollback, unlockEvent. unfold_prims. simpl.
  intros Hdb ->. destruct txdb; [reflexivity|congruence].
Qed.

(** X4.  [Rollback] refuses a transaction that is committing, or one whose
    status is Closed while [tx.db] is still set, with the error of that
    case, and then changes nothing: the lock stays held and the pending
    writes stay. *)
Theorem Rollback_refused (s : St) :
  db (st_tx s) <> None ->
  (status (st_tx s) = Some txStatusCommitting ->
   Rollback s = (Fail ErrCannotRollbackACommittingTx, s)) /\
  (status (st_tx s) = Some txStatusClosed ->
   Rollback s = (Fail ErrCannotRollbackAClosedTx, s)).
Proof.
  destruct_st s. unfold Rollback. unfold_prims. simpl.
  intros Hdb. destruct txdb; [|congruence]. split; intros ->; reflexivity.
Qed.


Lemma Begin_eq (w : bool) (d : DB) (log : list Event) :
  Begin w d log =
    match snowflake_NewNode with
    | Some e => (Fail e, log)
    | None =>
        if closed d
        then (Fail ErrDBClosed, log ++ [lockEvent w; unlockEvent w])
        else (Ok (mkTx (to_uint64 snowflake_Generate) (Some theDBRef) w
                       (Some txStatusRunning) [] (Some ∅) 0),
              log ++ [lockEvent w])
    end.
Proof.
  unfold Begin, newTx, lockEvent, unlockEvent.
  destruct snowflake_NewNode; [reflexivity|].
  unfold_prims. simpl. destruct (closed d); simpl; rewrite <- ?app_assoc; reflexivity.
Qed.

(** X5.  [Begin] never panics.  When no transaction id can be made it
    returns that error without taking the lock.  On a closed DB it takes
    the lock, releases it again and returns [ErrDBClosed].  Otherwise it
    takes the lock once, of the kind [writable] asks for, and returns a
    running transaction on the DB with the generated id, no pending write
    and size 0. *)
Theorem Begin_outcomes (w : bool) (d : DB) (log : list Event) :
  (forall e, snowflake_NewNode = Some e -> Begin w d log = (Fail e, log)) /\
  (snowflake_NewNode = None -> closed d = true ->
   Begin w d log = (Fail ErrDBClosed, log ++ [lockEvent w; unlockEvent w])) /\
  (snowflake_NewNode = None -> closed d = false ->
   Begin w d log =
     (Ok (mkTx (to_uint64 snowflake_Generate) (Some theDBRef) w
               (Some txStatusRunning) [] (Some ∅) 0),
      log ++ [lockEvent w])).
Proof.
  rewrite Begin_eq. split; [|split].
  - intros e ->. reflexivity.
  - intros -> ->. reflexivity.
  - intros -> ->. reflexivity.
Qed.

(** X6.  A transaction that [Begin] returned and that is ended at once, by
    [Rollback] or by [Commit], is ended without error; the lock was taken
    once and released once, by calls of the same kind, and the DB context
    is the one [Begin] was called on. *)
Theorem Begin_then_end (w : bool) (d : DB) (log log1 : list Event) (t : Tx) :
  Begin w d log = (Ok t, log1) ->
  (fst (Rollback (mkSt t d log1)) = Ok tt /\
   st_db (snd (Rollback (mkSt t d log1))) = d /\
   st_log (snd (Rollback (mkSt t d log1))) = log ++ [lockEvent w; unlockEvent w]) /\
  (fst (Commit (mkSt t d log1)) = Returned None /\
   st_db (snd (Commit (mkSt t d log1))) = d /\
   st_log (snd (Commit (mkSt t d log1))) = log ++ [lockEvent w; unlockEvent w]).
Proof.
  rewrite Begin_eq. destruct snowflake_NewNode; [discriminate|].
  destruct (closed d); [discriminate|]. intros [= <- <-]. split.
  - unfold Rollback, lockEvent, unlockEvent. unfold_prims. simpl.
    rewrite <- app_assoc. auto.
  - rewrite Commit_empty_running by (simpl; congruence). simpl.
    unfold lockEvent, unlockEvent. rewrite <- app_assoc. auto.
Qed.

(** X7.  [CommitWith] with pending writes hands the transaction to the
    dispatcher once and starts one goroutine for the callback; it calls
    the user's function itself in no case and changes neither the
    transaction nor the DB context.  The goroutine calls the user's
    function once: with the error of the hand-over when there was one,
    without waiting, and otherwise with the result of waiting for the
    request.  A nil callback makes [CommitWith] panic before anything is
    done. *)
Theorem CommitWith_delivers (s : St) (cb : nat) :
  pendingWrites (st_tx s) <> [] ->
  db (st_tx s) <> None ->
  CommitWith (Some cb) s =
    (Ok tt, mkSt (st_tx s) (st_db s)
                 (st_log s ++ [EvSendToWriteCh (tx_id (st_tx s)); EvGo (scheduledCb cb)])) /\
  (forall s0 : St,
     runTxnCallback (Some (scheduledCb cb)) s0 =
       (Ok tt, mkSt (st_tx s0) (st_db s0)
                    (st_log s0 ++ [EvUser cb match sendToWriteCh_err with
                                             | Some err => Some err
                                             | None => req_Wait
                                             end]))) /\
  CommitWith None s = (Panic, s).
Proof.
  intros Hpw Hdb. split; [|split].
  - destruct_st s. unfold CommitWith, commitAndSend, scheduledCb. unfold_prims. simpl.
    destruct pw; [congruence|]. simpl. destruct txdb; [|congruence]. simpl.
    destruct sendToWriteCh_err; simpl; rewrite <- app_assoc; reflexivity.
  - intros s0. unfold runTxnCallback, scheduledCb.
    destruct sendToWriteCh_err; reflexivity.
  - reflexivity.
Qed.


(** ** Further properties of the file operations *)

Lemma length_nonnil {A} (l : list A) : l <> [] -> length l <> 0%nat.
Proof. destruct l; simpl; congruence. Qed.

(** X8.  [writeData] writes nothing in three cases and then leaves the
    transaction and the DB context as they were.  With no data it returns
    nil at once, in every state, even when [tx.db] or the active file is
    nil.  With data that does not fit behind [ActualSize] it returns the
    error "not enough file space" without calling [WriteAt].  When
    [WriteAt] fails it returns that error and neither [writeOff] nor
    [ActualSize] has moved. *)
Theorem writeData_rejects (data : list byte) (s : St) :
  writeData [] s = (Ok tt, s) /\
  forall f : DataFile,
    db (st_tx s) <> None ->
    ActiveFile (st_db s) = Some f ->
    data <> [] ->
    minInt64 <= ActualSize f + blen data <= maxInt64 ->
    (ActualSize f + blen data > SegmentSize (opt (st_db s)) ->
     writeData data s = (Fail ErrNotEnoughFileSpace, s)) /\
    (forall e,
       ActualSize f + blen data <= SegmentSize (opt (st_db s)) ->
       io_WriteAt (fileID f) (ActualSize f) data = Some e ->
       writeData data s =
         (Fail e, mkSt (st_tx s) (st_db s)
                       (st_log s ++ [EvWriteAt (fileID f) (ActualSize f) data]))).
Proof.
  split; [reflexivity|].
  intros f Hdb Hf Hdata Hrange.
  rewrite (writeData_eq data s f Hdb Hf (length_nonnil data Hdata)).
  rewrite add64_small by exact Hrange.
  split.
  - intros Hbig.
    destruct (Z.gtb_spec (ActualSize f + blen data) (SegmentSize (opt (st_db s))));
      [reflexivity|lia].
  - intros e Hfit He.
    destruct (Z.gtb_spec (ActualSize f + blen data) (SegmentSize (opt (st_db s))));
      [lia|].
    cbv zeta. rewrite He. reflexivity.
Qed.

(** X9.  Once [WriteAt] has taken the data, exactly one write was made, at
    offset [ActualSize], and [writeOff] and [ActualSize] are both advanced
    by the length of the data.  [Sync] is called exactly when [SyncEnable]
    is set; when it fails its error is returned, and the two offsets stay
    advanced. *)
Theorem writeData_advances (data : list byte) (s : St) (f : DataFile) :
  db (st_tx s) <> None ->
  ActiveFile (st_db s) = Some f ->
  data <> [] ->
  minInt64 <= ActualSize f + blen data <= maxInt64 ->
  ActualSize f + blen data <= SegmentSize (opt (st_db s)) ->
  io_WriteAt (fileID f) (ActualSize f) data = None ->
  writeData data s =
    (if SyncEnable (opt (st_db s))
     then match io_Sync (fileID f) with
          | Some e => Fail e
          | None => Ok tt
          end
     else Ok tt,
     mkSt (st_tx s)
          (set_ActiveFile
             (Some (mkDataFile (fileID f) (add64 (writeOff f) (blen data))
                               (ActualSize f + blen data)))
             (st_db s))
          (st_log s ++ EvWriteAt (fileID f) (ActualSize f) data ::
             if SyncEnable (opt (st_db s)) then [EvSync (fileID f)] else [])).
Proof.
  intros Hdb Hf Hdata Hrange Hfit Hw.
  rewrite (writeData_eq data s f Hdb Hf (length_nonnil data Hdata)).
  assert (Hadd : add64 (ActualSize f) (blen data) = ActualSize f + blen data)
    by (apply add64_small, Hrange).
  rewrite Hadd.
  destruct (Z.gtb_spec (ActualSize f + blen data) (SegmentSize (opt (st_db s))));
    [lia|].
  cbv zeta. rewrite Hw. unfold bumpActiveFile. rewrite Hf, Hadd.
  destruct (SyncEnable (opt (st_db s))); [|reflexivity].
  rewrite <- app_assoc. reflexivity.
Qed.

(** X10.  [rotateActiveFile] increments [MaxFileID] before anything that
    can fail.  When releasing the old file fails, the error is returned,
    the old file is still the active one, under its old id, and
    [MaxFileID] is already one more: the id is used up. *)
Theorem rotateActiveFile_release_fails (s : St) (f : DataFile) (e : error) :
  db (st_tx s) <> None ->
  ActiveFile (st_db s) = Some f ->
  (SyncEnable (opt (st_db s)) = false -> RWMode (opt (st_db s)) = MMap ->
   io_Sync (fileID f) = None) ->
  io_Release (fileID f) = Some e ->
  rotateActiveFile s =
    (Fail e,
     mkSt (st_tx s)
          (set_MaxFileID (add64 (MaxFileID (st_db s)) 1) (st_db s))
          (st_log s ++
           (if negb (SyncEnable (opt (st_db s))) &&
               bool_decide (RWMode (opt (st_db s)) = MMap)
            then [EvSync (fileID f)] else []) ++ [EvRelease (fileID f)])).
Proof.
  destruct s as [t d l]. simpl. intros Hdb Hf Hsync Hrel.
  unfold rotateActiveFile. unfold_prims. simpl.
  destruct (db t) eqn:Hd; [|congruence].
  assert (Hsy : negb (SyncEnable (opt d)) && bool_decide (RWMode (opt d) = MMap) = true ->
                io_Sync (fileID f) = None).
  { intros [Hs Hm]%andb_prop. apply Hsync.
    - destruct (SyncEnable (opt d)); [discriminate|reflexivity].
    - apply bool_decide_eq_true in Hm. exact Hm. }
  destruct (negb (SyncEnable (opt d)) && bool_decide (RWMode (opt d) = MMap)) eqn:Hpre;
    repeat (progress (simpl; rewrite ?Hd, ?Hf, ?Hrel, ?Hpre));
    rewrite ?Hsy by reflexivity;
    repeat (progress (simpl; rewrite ?Hd, ?Hf, ?Hrel, ?Hpre));
    rewrite <- ?app_assoc; reflexivity.
Qed.

(** X11.  Outside sparse mode a rotation that goes through syncs the old
    file first when the DB is memory-mapped without [SyncEnable], releases
    it, and opens the data file named after the new [MaxFileID].  It
    changes [MaxFileID] and the active file and nothing else: no index and
    no field of the transaction. *)
Theorem rotateActiveFile_plain (s : St) (f : DataFile) :
  db (st_tx s) <> None ->
  ActiveFile (st_db s) = Some f ->
  EntryIdxMode (opt (st_db s)) <> HintBPTSparseIdxMode ->
  (SyncEnable (opt (st_db s)) = false -> RWMode (opt (st_db s)) = MMap ->
   io_Sync (fileID f) = None) ->
  io_Release (fileID f) = None ->
  io_getDataFile (DataPath (add64 (MaxFileID (st_db s)) 1)) = None ->
  rotateActiveFile s =
    (Ok tt,
     mkSt (st_tx s)
          (set_ActiveFile (Some (mkDataFile (add64 (MaxFileID (st_db s)) 1) 0 0))
             (set_MaxFileID (add64 (MaxFileID (st_db s)) 1) (st_db s)))
          (st_log s ++
           (if negb (SyncEnable (opt (st_db s))) &&
               bool_decide (RWMode (opt (st_db s)) = MMap)
            then [EvSync (fileID f)] else []) ++
           [EvRelease (fileID f);
            EvGetDataFile (DataPath (add64 (MaxFileID (st_db s)) 1))])).
Proof.
  destruct s as [t d l]. simpl. intros Hdb Hf Hmode Hsync Hrel Hget.
  unfold rotateActiveFile, resetActiveFile, getDataFile. unfold_prims. simpl.
  destruct (db t) eqn:Hd; [|congruence].
  assert (Hsy : negb (SyncEnable (opt d)) && bool_decide (RWMode (opt d) = MMap) = true ->
                io_Sync (fileID f) = None).
  { intros [Hs Hm]%andb_prop. apply Hsync.
    - destruct (SyncEnable (opt d)); [discriminate|reflexivity].
    - apply bool_decide_eq_true in Hm. exact Hm. }
  destruct (decide (EntryIdxMode (opt d) = HintBPTSparseIdxMode)); [congruence|].
  destruct (negb (SyncEnable (opt d)) && bool_decide (RWMode (opt d) = MMap)) eqn:Hpre;
    repeat (progress (simpl; rewrite ?Hd, ?Hf, ?Hrel, ?Hget, ?Hpre));
    rewrite ?Hsy by reflexivity;
    repeat (progress (simpl; rewrite ?Hd, ?Hf, ?Hrel, ?Hget, ?Hpre));
    rewrite <- ?app_assoc; reflexivity.
Qed.


(** X12.  In sparse mode a rotation that goes through hands the indexes of
    the closed segment over: the B+ tree of the segment is written to the
    tree file named after the old [MaxFileID] and its root record to the
    root file, one root record for that file id is appended to
    [BPTreeRootIdxes], the key position map and the active tree are
    replaced by empty ones, and the tree of committed transaction ids is
    kept in [tx.ReservedStoreTxIDIdxes] under the old file id while the DB
    gets an empty one. *)
Theorem rotateActiveFile_sparse (s s' : St) :
  EntryIdxMode (opt (st_db s)) = HintBPTSparseIdxMode ->
  rotateActiveFile s = (Ok tt, s') ->
  ActiveBPTreeIdx (st_db s') = NewTree /\
  ActiveCommittedTxIdsIdx (st_db s') = NewTree /\
  BPTreeKeyEntryPosMap (st_db s') = ∅ /\
  (exists m,
     ReservedStoreTxIDIdxes (st_tx s) = Some m /\
     ReservedStoreTxIDIdxes (st_tx s') =
       Some (<[MaxFileID (st_db s) := ActiveCommittedTxIdsIdx (st_db s)]> m)) /\
  (exists r,
     BPTreeRootIdxes (st_db s') = BPTreeRootIdxes (st_db s) ++ [r] /\
     ri_fID r = to_uint64 (MaxFileID (st_db s))) /\
  (exists evs,
     st_log s' = st_log s ++ evs /\
     EvWriteNodes (Some (BPTPath (MaxFileID (st_db s)))) ∈ evs /\
     EvPersistence (BPTRootPath (MaxFileID (st_db s))) ∈ evs).
Proof.
  destruct s as [t d l]. simpl. intros Hmode.
  unfold rotateActiveFile, rotateSparse, resetActiveFile, getDataFile.
  unfold_prims. simpl.
  destruct (db t) eqn:Hd; [|discriminate].
  destruct (decide (EntryIdxMode (opt d) = HintBPTSparseIdxMode)); [|congruence].
  intros Hrun.
  repeat (simpl in Hrun; rewrite ?Hd in Hrun;
          match type of Hrun with
          | context [match ?x with _ => _ end] =>
              lazymatch x with
              | context [match _ with _ => _ end] => fail
              | _ => destruct x eqn:?; try discriminate
              end
          end).
  all: injection Hrun as <-; simpl in *.
  all: split; [reflexivity|]; split; [reflexivity|]; split; [reflexivity|].
  all: split; [eexists; split; [eassumption|reflexivity]|].
  all: split; [eexists; split; reflexivity|].
  all: eexists; split; [rewrite <- !app_assoc; reflexivity|].
  all: split; rewrite ?elem_of_app, ?elem_of_cons; auto 10.
Qed.


(** ** Further properties of the bucket meta *)

Lemma compare_ok_refl (a : slice) : compare_ok -> compare a a <= 0.
Proof.
  intros [Hanti _]. destruct (Z_le_gt_dec (compare a a) 0) as [|Hgt]; [assumption|].
  apply Hanti in Hgt as Hlt. lia.
Qed.

Lemma compare_ok_flip (a b : slice) : compare_ok -> ~ compare a b < 0 -> compare b a <= 0.
Proof.
  intros [Hanti _] Hn. destruct (Z_le_gt_dec (compare b a) 0) as [|Hgt]; [assumption|].
  apply Hanti in Hgt. contradiction.
Qed.

Lemma spans_first (bucket : string) (e : Entry) :
  compare_ok -> Key e <> None ->
  spans [e] (buildTempBucketMetaIdx bucket (Key e) BucketMeta_zero).
Proof.
  intros Hc Hk. unfold buildTempBucketMetaIdx, spans. simpl.
  split; [exact Hk|].
  split; [exists e; split; [left|reflexivity]|].
  split; [exists e; split; [left|reflexivity]|].
  split; [|split; reflexivity].
  intros e' He'. apply list_elem_of_singleton in He' as ->.
  split; apply compare_ok_refl, Hc.
Qed.

Lemma spans_step (bucket : string) (seen : list Entry) (e : Entry) (m : BucketMeta) :
  compare_ok -> Key e <> None -> spans seen m ->
  spans (seen ++ [e]) (buildTempBucketMetaIdx bucket (Key e) m).
Proof.
  intros Hc Hk (Hs & (es & Hes & Hse) & (ee & Hee & Hen) & Hb & Hss & Hse').
  pose proof Hc as [Hanti Htrans].
  unfold buildTempBucketMetaIdx.
  destruct (bm_start m) as [st|] eqn:Hst; [|congruence].
  destruct (Z.gtb_spec (compare (Some st) (Key e)) 0) as [Hgt|Hle]; simpl.
  - (* the key is the new start *)
    apply Z.lt_gt in Hgt.
    assert (Hlt : compare (Key e) (Some st) <= 0) by (apply Hanti in Hgt; lia).
    destruct (Z.ltb_spec (compare (bm_end m) (Key e)) 0) as [Hlt'|Hge]; unfold spans; simpl.
    + split; [exact Hk|].
      split; [exists e; split; [apply elem_of_app; right; left|reflexivity]|].
      split; [exists e; split; [apply elem_of_app; right; left|reflexivity]|].
      split; [|split; reflexivity].
      intros e' [He'|He']%elem_of_app.
      * destruct (Hb e' He') as [Hb1 Hb2]. split.
        -- eapply Htrans; [exact Hlt|exact Hb1].
        -- eapply Htrans; [exact Hb2|simpl; lia].
      * apply list_elem_of_singleton in He' as ->.
        split; apply compare_ok_refl, Hc.
    + split; [exact Hk|].
      split; [exists e; split; [apply elem_of_app; right; left|reflexivity]|].
      split; [exists ee; split; [apply elem_of_app; left; exact Hee|exact Hen]|].
      split; [|split; [reflexivity|exact Hse']].
      intros e' [He'|He']%elem_of_app.
      * destruct (Hb e' He') as [Hb1 Hb2]. split; [|exact Hb2].
        eapply Htrans; [exact Hlt|exact Hb1].
      * apply list_elem_of_singleton in He' as ->.
        split; [apply compare_ok_refl, Hc|].
        apply compare_ok_flip; [exact Hc|simpl; lia].
  - destruct (Z.ltb_spec (compare (bm_end m) (Key e)) 0) as [Hlt'|Hge]; unfold spans; simpl;
      rewrite ?Hst.
    + split; [congruence|].
      split; [exists es; split; [apply elem_of_app; left; exact Hes|congruence]|].
      split; [exists e; split; [apply elem_of_app; right; left|reflexivity]|].
      split; [|split; [exact Hss|reflexivity]].
      intros e' [He'|He']%elem_of_app.
      * destruct (Hb e' He') as [Hb1 Hb2]. split; [exact Hb1|].
        eapply Htrans; [exact Hb2|simpl; lia].
      * apply list_elem_of_singleton in He' as ->.
        split; [exact Hle|apply compare_ok_refl, Hc].
    + split; [congruence|].
      split; [exists es; split; [apply elem_of_app; left; exact Hes|congruence]|].
      split; [exists ee; split; [apply elem_of_app; left; exact Hee|exact Hen]|].
      split; [|split; [exact Hss|exact Hse']].
      intros e' [He'|He']%elem_of_app.
      * destruct (Hb e' He') as [Hb1 Hb2]. split; assumption.
      * apply list_elem_of_singleton in He' as ->.
        split; [exact Hle|]. apply compare_ok_flip; [exact Hc|simpl; lia].
Qed.

Lemma spans_tempMeta (l seen : list Entry) (m : BucketMeta) :
  compare_ok -> Forall (fun e => Key e <> None) l -> spans seen m ->
  spans (seen ++ l) (tempMeta l m).
Proof.
  intros Hc. revert seen m. induction l as [|e l IH]; intros seen m Hl Hm.
  - rewrite app_nil_r. exact Hm.
  - apply Forall_cons_1 in Hl as [He Hl]. simpl.
    replace (seen ++ e :: l) with ((seen ++ [e]) ++ l) by (rewrite <- app_assoc; reflexivity).
    apply IH; [exact Hl|]. apply spans_step; assumption.
Qed.

(** X13.  Let [compare] order the keys, and let the loop of [Commit] pass
    the entries [l], none with a nil key, through [buildTempBucketMetaIdx]
    starting from the zero value.  Then the result spans the keys of all
    the entries, whatever bucket each of them is in: its start and its end
    are keys of [l], no key of [l] is before the start or after the end,
    and the two sizes are the lengths of the start and of the end. *)
Theorem buildTempBucketMetaIdx_spans (l : list Entry) :
  compare_ok ->
  l <> [] ->
  Forall (fun e => Key e <> None) l ->
  spans l (tempMeta l BucketMeta_zero).
Proof.
  intros Hc Hne Hl. destruct l as [|e l]; [congruence|].
  apply Forall_cons_1 in Hl as [He Hl]. simpl.
  apply (spans_tempMeta l [e]); [exact Hc|exact Hl|].
  apply spans_first; assumption.
Qed.


Lemma set_bucketMetas_id (d : DB) (bucket : string) (bm : BucketMeta) :
  bucketMetas d !! bucket = Some bm ->
  set_bucketMetas (<[bucket := bm]> (bucketMetas d)) d = d.
Proof.
  intros Hb. rewrite insert_id by exact Hb. destruct d. reflexivity.
Qed.

Lemma buildBucketMetaIdx_cached (bucket : string) (key : slice) (t bm : BucketMeta)
    (s : St) :
  db (st_tx s) <> None ->
  bucketMetas (st_db s) !! bucket = Some bm ->
  buildBucketMetaIdx bucket key t s =
    let s1 := mkSt (st_tx s)
                   (set_bucketMetas (<[bucket := widen bm t]> (bucketMetas (st_db s)))
                                    (st_db s))
                   (st_log s) in
    if bool_decide (compare (bm_start bm) (bm_start t) > 0) ||
       bool_decide (compare (bm_end bm) (bm_end t) < 0)
    then writeBucketMeta bucket (widen bm t) s1
    else (Ok tt, s1).
Proof.
  intros Hdb Hb. unfold buildBucketMetaIdx, widen. unfold bind at 1.
  rewrite theDB_open by exact Hdb. rewrite Hb. cbv zeta.
  unfold bind at 1, modifyDB at 1, modify at 1.
  destruct (bool_decide (compare (bm_start bm) (bm_start t) > 0)); simpl;
    destruct (bool_decide (compare (bm_end bm) (bm_end t) < 0)); reflexivity.
Qed.

(** X14.  When the cached meta of the bucket already reaches as far as
    [bucketMetaTemp] on both sides, [buildBucketMetaIdx] returns nil and
    does nothing: no file is opened or written and the cache is the same. *)
Theorem buildBucketMetaIdx_covered (bucket : string) (key : slice) (t bm : BucketMeta)
    (s : St) :
  db (st_tx s) <> None ->
  bucketMetas (st_db s) !! bucket = Some bm ->
  compare (bm_start bm) (bm_start t) <= 0 ->
  compare (bm_end bm) (bm_end t) >= 0 ->
  buildBucketMetaIdx bucket key t s = (Ok tt, s).
Proof.
  intros Hdb Hb Hs He.
  rewrite (buildBucketMetaIdx_cached bucket key t bm s Hdb Hb). cbv zeta.
  unfold widen.
  rewrite (bool_decide_eq_false_2 (compare (bm_start bm) (bm_start t) > 0)) by lia.
  rewrite (bool_decide_eq_false_2 (compare (bm_end bm) (bm_end t) < 0)) by lia.
  simpl. rewrite set_bucketMetas_id by exact Hb. destruct s. reflexivity.
Qed.

(** X15.  When the file of the bucket meta cannot be opened,
    [buildBucketMetaIdx] returns the error.  For a bucket that is not
    cached the cache is left without it.  For a cached bucket whose range
    had to grow, the cached meta has already been changed through the
    pointer into the cache: the cache then holds the wider range although
    nothing was written to the file. *)
Theorem buildBucketMetaIdx_open_fails (bucket : string) (key : slice) (t : BucketMeta)
    (s : St) (e : error) :
  db (st_tx s) <> None ->
  io_OpenFile (BucketMetaFilePath bucket) = Some e ->
  (bucketMetas (st_db s) !! bucket = None ->
   buildBucketMetaIdx bucket key t s =
     (Fail e, mkSt (st_tx s) (st_db s)
                   (st_log s ++ [EvOpenFile (BucketMetaFilePath bucket)]))) /\
  (forall bm,
     bucketMetas (st_db s) !! bucket = Some bm ->
     compare (bm_start bm) (bm_start t) > 0 \/ compare (bm_end bm) (bm_end t) < 0 ->
     buildBucketMetaIdx bucket key t s =
       (Fail e,
        mkSt (st_tx s)
             (set_bucketMetas (<[bucket := widen bm t]> (bucketMetas (st_db s))) (st_db s))
             (st_log s ++ [EvOpenFile (BucketMetaFilePath bucket)]))).
Proof.
  intros Hdb Hopen. split.
  - intros Hb. unfold buildBucketMetaIdx. unfold bind at 1.
    rewrite theDB_open by exact Hdb. rewrite Hb. cbv zeta.
    unfold writeBucketMeta. unfold bind at 1. rewrite theDB_open by exact Hdb.
    unfold bind at 1, emit at 1, modify at 1. unfold bind at 1.
    rewrite Hopen. reflexivity.
  - intros bm Hb Hgrow.
    rewrite (buildBucketMetaIdx_cached bucket key t bm s Hdb Hb). cbv zeta.
    assert (bool_decide (compare (bm_start bm) (bm_start t) > 0) ||
            bool_decide (compare (bm_end bm) (bm_end t) < 0) = true) as ->.
    { destruct Hgrow as [H|H].
      - rewrite (bool_decide_eq_true_2 _ H). reflexivity.
      - rewrite (bool_decide_eq_true_2 _ H). apply orb_true_r. }
    unfold writeBucketMeta. unfold bind at 1. rewrite theDB_open by exact Hdb.
    unfold bind at 1, emit at 1, modify at 1. unfold bind at 1.
    rewrite Hopen. reflexivity.
Qed.

(** X16.  When the file calls go through, [buildBucketMetaIdx] opens the
    file of the bucket, writes one encoded meta at offset 0, syncs exactly
    when [SyncEnable] is set, and caches for the bucket the very meta it
    wrote.  For a bucket that was not cached this is the range of
    [bucketMetaTemp] with the sizes taken from the keys; for a cached
    bucket whose range had to grow it is the cached range widened. *)
Theorem buildBucketMetaIdx_writes (bucket : string) (key : slice) (t : BucketMeta)
    (s : St) :
  db (st_tx s) <> None ->
  io_OpenFile (BucketMetaFilePath bucket) = None ->
  (forall data, io_fdWriteAt (BucketMetaFilePath bucket) data = None) ->
  io_fdSync (BucketMetaFilePath bucket) = None ->
  forall m,
    (bucketMetas (st_db s) !! bucket = None /\
     m = mkBucketMeta (bm_start t) (bm_end t) (to_uint32 (slen (bm_start t)))
                      (to_uint32 (slen (bm_end t)))) \/
    (exists bm,
       bucketMetas (st_db s) !! bucket = Some bm /\
       (compare (bm_start bm) (bm_start t) > 0 \/ compare (bm_end bm) (bm_end t) < 0) /\
       m = widen bm t) ->
    buildBucketMetaIdx bucket key t s =
      (Ok tt,
       mkSt (st_tx s)
            (set_bucketMetas (<[bucket := m]> (bucketMetas (st_db s))) (st_db s))
            (st_log s ++ bucketMetaWrite (SyncEnable (opt (st_db s))) bucket m)).
Proof.
  intros Hdb Hopen Hwrite Hsync m Hm.
  assert (Hw : forall d l,
            opt d = opt (st_db s) ->
            writeBucketMeta bucket m (mkSt (st_tx s) d l) =
              (Ok tt, mkSt (st_tx s)
                           (set_bucketMetas (<[bucket := m]> (bucketMetas d)) d)
                           (l ++ bucketMetaWrite (SyncEnable (opt (st_db s))) bucket m))).
  { intros d l Hopt. unfold writeBucketMeta, bucketMetaWrite. unfold_prims. simpl.
    destruct (db (st_tx s)); [|congruence]. simpl.
    rewrite Hopen. simpl. rewrite Hwrite. simpl. rewrite Hopt.
    destruct (SyncEnable (opt (st_db s))); simpl.
    - rewrite Hsync. simpl. rewrite <- !app_assoc. reflexivity.
    - rewrite <- !app_assoc. reflexivity. }
  destruct Hm as [[Hb ->]|(bm & Hb & Hgrow & ->)].
  - unfold buildBucketMetaIdx. unfold bind at 1.
    rewrite theDB_open by exact Hdb. rewrite Hb. cbv zeta.
    destruct s as [t0 d l]. apply Hw. reflexivity.
  - rewrite (buildBucketMetaIdx_cached bucket key t bm s Hdb Hb). cbv zeta.
    assert (bool_decide (compare (bm_start bm) (bm_start t) > 0) ||
            bool_decide (compare (bm_end bm) (bm_end t) < 0) = true) as ->.
    { destruct Hgrow as [H|H].
      - rewrite (bool_decide_eq_true_2 _ H). reflexivity.
      - rewrite (bool_decide_eq_true_2 _ H). apply orb_true_r. }
    rewrite Hw by reflexivity. simpl. rewrite insert_insert_eq. reflexivity.
Qed.


(** ** Further properties of the index builders *)

Lemma wrap64_range (z : Z) : minInt64 <= wrap64 z <= maxInt64.
Proof.
  unfold wrap64, minInt64, maxInt64.
  pose proof (Z.mod_pos_bound (z + 2 ^ 63) (2 ^ 64) ltac:(lia)). lia.
Qed.

Lemma wrap64_add_l (a b : Z) : wrap64 (wrap64 a + b) = wrap64 (a + b).
Proof.
  unfold wrap64.
  replace ((a + 2 ^ 63) mod 2 ^ 64 - 2 ^ 63 + b + 2 ^ 63)
    with ((a + 2 ^ 63) mod 2 ^ 64 + b) by lia.
  rewrite Zplus_mod_idemp_l. f_equal. f_equal. lia.
Qed.

Lemma tree_insert_lookup (bt : BTree) (key : string) (v : slice * Hint) :
  <[key := v]> bt !! key = Some v.
Proof. unfold BTree in bt. apply lookup_insert_eq. Qed.

Lemma buildNotDSIdxes_range_counts (l : list Entry) :
  forall (t : Tx) (d : DB) (log : list Event),
    db t <> None ->
    Forall (fun e => Ds (Meta e) <> DataStructureNone) l ->
    minInt64 <= KeyCount d <= maxInt64 ->
    buildNotDSIdxes_range l (mkSt t d log) =
      (Ok tt, mkSt t (set_KeyCount (wrap64 (KeyCount d + Z.of_nat (length l))) d) log).
Proof.
  induction l as [|e l IH]; intros t d log Hdb Hl Hk.
  - simpl. unfold ret. rewrite Z.add_0_r, wrap64_small by exact Hk.
    destruct d. reflexivity.
  - apply Forall_cons_1 in Hl as [He Hl]. simpl.
    destruct (decide (Ds (Meta e) = DataStructureNone)); [congruence|].
    unfold bind at 1, ret at 1. unfold bind at 1. unfold theDB at 1. simpl.
    destruct (db t) eqn:Hd; [|congruence].
    unfold bind at 1, modifyDB at 1, modify at 1. simpl.
    rewrite IH; [|congruence|exact Hl|apply wrap64_range].
    simpl. unfold add64. rewrite wrap64_add_l.
    replace (KeyCount d + 1 + Z.of_nat (length l))
      with (KeyCount d + Z.of_nat (S (length l))) by lia.
    reflexivity.
Qed.

(** X17.  When no pending entry is a bucket deletion (data structure
    None), [buildNotDSIdxes] returns normally and changes one thing:
    [KeyCount] grows by one for every pending entry, whatever its flag, so
    also for the entries that delete a key. *)
Theorem buildNotDSIdxes_counts (s : St) :
  db (st_tx s) <> None ->
  Forall (fun e => Ds (Meta e) <> DataStructureNone) (pendingWrites (st_tx s)) ->
  minInt64 <= KeyCount (st_db s) <= maxInt64 ->
  buildNotDSIdxes s =
    (Ok tt,
     mkSt (st_tx s)
          (set_KeyCount
             (wrap64 (KeyCount (st_db s) + Z.of_nat (length (pendingWrites (st_tx s)))))
             (st_db s))
          (st_log s)).
Proof.
  intros Hdb Hl Hk. unfold buildNotDSIdxes. unfold bind, gets.
  destruct s as [t d log]. simpl in *.
  apply buildNotDSIdxes_range_counts; assumption.
Qed.

Lemma buildTreeIdx_set_spec (now : Z) (record : Record_) (countFlag : bool)
    (s : St) (f : DataFile) :
  db (st_tx s) <> None ->
  ActiveFile (st_db s) = Some f ->
  EntryIdxMode (opt (st_db s)) <> HintBPTSparseIdxMode ->
  Flag (HMeta (H record)) = DataSetFlag ->
  TTL (HMeta (H record)) = Persistent \/ now <= expireTimeOf (HMeta (H record)) ->
  exists s',
    buildTreeIdx now record countFlag s = (Ok tt, s') /\
    st_log s' = st_log s /\
    treeLookup (st_db s') (RBucket record) (str (HKey (H record))) =
      Some (if decide (EntryIdxMode (opt (st_db s)) = HintKeyValAndRAMIdxMode)
            then V record else None,
            mkHint (HKey (H record)) (fileID f) (HMeta (H record)) (DataPos (H record))).
Proof.
  intros Hdb Hf Hmode Hflag Hlive.
  destruct s as [t d log]. simpl in *.
  unfold buildTreeIdx. unfold_prims. simpl.
  destruct (db t) eqn:Hd; [|congruence]. simpl.
  destruct (decide (EntryIdxMode (opt d) = HintBPTSparseIdxMode)); [congruence|].
  destruct (decide (Flag (HMeta (H record)) = DataSetFlag)); [|congruence].
  assert (Hle : TTL (HMeta (H record)) <> Persistent ->
                (now >? expireTimeOf (HMeta (H record))) = false).
  { intros Hp. destruct Hlive as [|Hle]; [congruence|].
    rewrite Z.gtb_ltb. apply Z.ltb_ge. lia. }
  destruct (decide (TTL (HMeta (H record)) = Persistent)) as [Hp|Hp];
    rewrite ?(Hle Hp);
    destruct (BTreeIdx d !! RBucket record) as [bt|] eqn:Hb; simpl;
    rewrite ?Hd; simpl; rewrite ?Hf; simpl;
    (eexists; split; [reflexivity|]); simpl;
    (split; [reflexivity|]); unfold treeLookup; simpl;
    rewrite lookup_insert_eq; unfold mbind, option_bind; cbv beta iota;
    apply tree_insert_lookup.
Qed.

(** X18.  Outside sparse mode, [buildTreeIdx] for a set entry that is
    persistent or not yet past its expiry makes the ordered index of the
    bucket hold, for the key, a hint with the id of the active file, the
    key, the meta and the offset of the record, together with the value in
    key-value mode and a nil value otherwise.  Every other key of every
    bucket reads as before.  A persistent entry cancels the scheduled
    deletion of the key; another one schedules it after the time that is
    left. *)
Theorem buildTreeIdx_set_lookup (now : Z) (record : Record_) (countFlag : bool)
    (s : St) (f : DataFile) :
  db (st_tx s) <> None ->
  ActiveFile (st_db s) = Some f ->
  EntryIdxMode (opt (st_db s)) <> HintBPTSparseIdxMode ->
  Flag (HMeta (H record)) = DataSetFlag ->
  TTL (HMeta (H record)) = Persistent \/ now <= expireTimeOf (HMeta (H record)) ->
  exists s',
    buildTreeIdx now record countFlag s = (Ok tt, s') /\
    st_tx s' = st_tx s /\ st_log s' = st_log s /\
    treeLookup (st_db s') (RBucket record) (str (HKey (H record))) =
      Some (if decide (EntryIdxMode (opt (st_db s)) = HintKeyValAndRAMIdxMode)
            then V record else None,
            mkHint (HKey (H record)) (fileID f) (HMeta (H record)) (DataPos (H record))) /\
    (forall bucket key,
       (bucket, key) <> (RBucket record, str (HKey (H record))) ->
       treeLookup (st_db s') bucket key = treeLookup (st_db s) bucket key) /\
    tm (st_db s') =
      if decide (TTL (HMeta (H record)) = Persistent)
      then delete (RBucket record, str (HKey (H record))) (tm (st_db s))
      else <[(RBucket record, str (HKey (H record))) :=
               time_Sub (expireTimeOf (HMeta (H record))) now]> (tm (st_db s)).
Proof.
  intros Hdb Hf Hmode Hflag Hlive.
  destruct s as [t d log]. simpl in *.
  unfold buildTreeIdx. unfold_prims. simpl.
  destruct (db t) eqn:Hd; [|congruence]. simpl.
  destruct (decide (EntryIdxMode (opt d) = HintBPTSparseIdxMode)); [congruence|].
  assert (Hlookup : forall (idx : gmap string BTree) (v : slice * Hint) bucket key,
            (bucket, key) <> (RBucket record, str (HKey (H record))) ->
            (<[RBucket record :=
                 <[str (HKey (H record)) := v]> (default NewBTree (idx !! RBucket record))]>
               idx !! bucket) ≫= (fun x => x !! key) =
            (idx !! bucket) ≫= (fun x => x !! key)).
  { intros idx v bucket key Hne.
    destruct (decide (bucket = RBucket record)) as [->|Hb].
    - rewrite lookup_insert_eq. unfold mbind, option_bind; cbv beta iota.
      transitivity (default NewBTree (idx !! RBucket record) !! key).
      + generalize (default NewBTree (idx !! RBucket record)). unfold BTree.
        intros bt. apply lookup_insert_ne. congruence.
      + destruct (idx !! RBucket record); [reflexivity|apply lookup_empty].
    - rewrite lookup_insert_ne by congruence. reflexivity. }
  destruct (decide (Flag (HMeta (H record)) = DataSetFlag)); [|congruence].
  destruct (decide (TTL (HMeta (H record)) = Persistent)) as [Hp|Hp].
  - destruct (BTreeIdx d !! RBucket record) as [bt|] eqn:Hb; simpl;
      rewrite ?Hd; simpl; rewrite ?Hf; simpl;
      (eexists; split; [reflexivity|]); simpl;
      (split; [reflexivity|]); (split; [reflexivity|]); unfold treeLookup; simpl.
    + split; [rewrite lookup_insert_eq; unfold mbind, option_bind; cbv beta iota;
               apply tree_insert_lookup|].
      split; [|reflexivity]. intros bucket key Hne. apply Hlookup, Hne.
    + split; [rewrite lookup_insert_eq; unfold mbind, option_bind; cbv beta iota;
               apply tree_insert_lookup|].
      split; [|reflexivity]. intros bucket key Hne.
      rewrite Hlookup by exact Hne.
      destruct (decide (bucket = RBucket record)) as [->|Hbk].
      * rewrite lookup_insert_eq, Hb. reflexivity.
      * rewrite lookup_insert_ne by congruence. reflexivity.
  - assert (Hle : (now >? expireTimeOf (HMeta (H record))) = false).
    { destruct Hlive as [|Hle]; [congruence|]. rewrite Z.gtb_ltb. apply Z.ltb_ge. lia. }
    destruct (BTreeIdx d !! RBucket record) as [bt|] eqn:Hb; simpl;
      rewrite ?Hd; simpl; rewrite Hle; simpl; rewrite ?Hd; simpl; rewrite ?Hf; simpl;
      (eexists; split; [reflexivity|]); simpl;
      (split; [reflexivity|]); (split; [reflexivity|]); unfold treeLookup; simpl.
    + split; [rewrite lookup_insert_eq; unfold mbind, option_bind; cbv beta iota;
               apply tree_insert_lookup|].
      split; [|reflexivity]. intros bucket key Hne. apply Hlookup, Hne.
    + split; [rewrite lookup_insert_eq; unfold mbind, option_bind; cbv beta iota;
               apply tree_insert_lookup|].
      split; [|reflexivity]. intros bucket key Hne.
      rewrite Hlookup by exact Hne.
      destruct (decide (bucket = RBucket record)) as [->|Hbk].
      * rewrite lookup_insert_eq, Hb. reflexivity.
      * rewrite lookup_insert_ne by congruence. reflexivity.
Qed.


(** X19.  Outside sparse mode, [buildTreeIdx] for a delete entry removes
    the key from the ordered index of the bucket and cancels its scheduled
    deletion; every other key of every bucket reads as before.  The active
    file is not consulted. *)
Theorem buildTreeIdx_delete_lookup (now : Z) (record : Record_) (countFlag : bool)
    (s : St) :
  db (st_tx s) <> None ->
  EntryIdxMode (opt (st_db s)) <> HintBPTSparseIdxMode ->
  Flag (HMeta (H record)) = DataDeleteFlag ->
  exists s',
    buildTreeIdx now record countFlag s = (Ok tt, s') /\
    st_tx s' = st_tx s /\ st_log s' = st_log s /\
    treeLookup (st_db s') (RBucket record) (str (HKey (H record))) = None /\
    (forall bucket key,
       (bucket, key) <> (RBucket record, str (HKey (H record))) ->
       treeLookup (st_db s') bucket key = treeLookup (st_db s) bucket key) /\
    tm (st_db s') = delete (RBucket record, str (HKey (H record))) (tm (st_db s)).
Proof.
  intros Hdb Hmode Hflag.
  destruct s as [t d log]. simpl in *.
  unfold buildTreeIdx. unfold_prims. simpl.
  destruct (db t) eqn:Hd; [|congruence]. simpl.
  destruct (decide (EntryIdxMode (opt d) = HintBPTSparseIdxMode)); [congruence|].
  assert (Hdel : forall (bt : BTree) (key : string), delete key bt !! key = None).
  { intros bt key. unfold BTree in bt. apply lookup_delete_eq. }
  assert (Hlookup : forall (idx : gmap string BTree) bucket key,
            (bucket, key) <> (RBucket record, str (HKey (H record))) ->
            (<[RBucket record :=
                 delete (str (HKey (H record))) (default NewBTree (idx !! RBucket record))]>
               idx !! bucket) ≫= (fun x => x !! key) =
            (idx !! bucket) ≫= (fun x => x !! key)).
  { intros idx bucket key Hne.
    destruct (decide (bucket = RBucket record)) as [->|Hb].
    - rewrite lookup_insert_eq. unfold mbind, option_bind; cbv beta iota.
      transitivity (default NewBTree (idx !! RBucket record) !! key).
      + generalize (default NewBTree (idx !! RBucket record)). unfold BTree.
        intros bt. apply lookup_delete_ne. congruence.
      + destruct (idx !! RBucket record); [reflexivity|apply lookup_empty].
    - rewrite lookup_insert_ne by congruence. reflexivity. }
  rewrite Hflag.
  destruct (decide (DataDeleteFlag = DataSetFlag)); [discriminate|].
  destruct (decide (DataDeleteFlag = DataDeleteFlag)); [|congruence].
  destruct (BTreeIdx d !! RBucket record) as [bt|] eqn:Hb; simpl;
    rewrite ?Hd; simpl;
    (eexists; split; [reflexivity|]); simpl;
    (split; [reflexivity|]); (split; [reflexivity|]); unfold treeLookup; simpl.
  - split; [rewrite lookup_insert_eq; unfold mbind, option_bind; cbv beta iota;
            apply Hdel|].
    split; [|reflexivity]. intros bucket key Hne. apply Hlookup, Hne.
  - split; [rewrite lookup_insert_eq; unfold mbind, option_bind; cbv beta iota;
            apply Hdel|].
    split; [|reflexivity]. intros bucket key Hne.
    rewrite Hlookup by exact Hne.
    destruct (decide (bucket = RBucket record)) as [->|Hbk].
    + rewrite lookup_insert_eq, Hb. reflexivity.
    + rewrite lookup_insert_ne by congruence. reflexivity.
Qed.

(** X20.  In sparse mode [buildTreeIdx] looks at neither the flag, nor the
    TTL, nor the clock: the record goes into the active B+ tree under the
    key [getNewKey] makes of bucket and key, so also when it has expired or
    is a deletion.  The error of [Insert] is dropped: the call returns
    normally in any case.  The ordered indexes and the TTL manager are
    left alone. *)
Theorem buildTreeIdx_sparse (now : Z) (record : Record_) (countFlag : bool)
    (s : St) (f : DataFile) :
  db (st_tx s) <> None ->
  ActiveFile (st_db s) = Some f ->
  EntryIdxMode (opt (st_db s)) = HintBPTSparseIdxMode ->
  exists s',
    buildTreeIdx now record countFlag s = (Ok tt, s') /\
    st_tx s' = st_tx s /\ st_log s' = st_log s /\
    BTreeIdx (st_db s') = BTreeIdx (st_db s) /\
    tm (st_db s') = tm (st_db s) /\
    nodes (ActiveBPTreeIdx (st_db s')) =
      snd (nodesInsert (getNewKey (RBucket record) (HKey (H record)))
             (mkHint (getNewKey (RBucket record) (HKey (H record))) (fileID f)
                     (HMeta (H record)) (DataPos (H record)))
             countFlag (nodes (ActiveBPTreeIdx (st_db s)))).
Proof.
  intros Hdb Hf Hmode. destruct s as [t d log]. simpl in *.
  unfold buildTreeIdx. unfold_prims. simpl.
  destruct (db t) eqn:Hd; [|congruence]. simpl.
  destruct (decide (EntryIdxMode (opt d) = HintBPTSparseIdxMode)); [|congruence].
  simpl. rewrite Hd. simpl. rewrite Hf. simpl.
  eexists. split; [reflexivity|]. simpl. auto 10.
Qed.

(** X21.  [buildSortedSetIdx] indexes the two pieces of [strings.Split]
    without looking at their number.  For a ZAdd entry whose key, or a
    ZRemRangeByRank entry whose value, does not split in two at the
    separator, the call panics (index out of range), after the sorted set
    of the bucket has been created when there was none. *)
Theorem buildSortedSetIdx_short_split (record : Record_) (s : St) :
  db (st_tx s) <> None ->
  (Flag (HMeta (H record)) = DataZAddFlag /\
   (length (Split (str (HKey (H record))) SeparatorForZSetKey) < 2)%nat) \/
  (Flag (HMeta (H record)) = DataZRemRangeByRankFlag /\
   (length (Split (str (V record)) SeparatorForZSetKey) < 2)%nat) ->
  fst (buildSortedSetIdx record s) = Panic /\
  st_log (snd (buildSortedSetIdx record s)) = st_log s /\
  SortedSetIdx (st_db (snd (buildSortedSetIdx record s))) =
    match SortedSetIdx (st_db s) !! RBucket record with
    | Some _ => SortedSetIdx (st_db s)
    | None => <[RBucket record := NewSortedSet]> (SortedSetIdx (st_db s))
    end.
Proof.
  intros Hdb Hcase. destruct s as [t d log]. simpl in *.
  unfold buildSortedSetIdx. unfold_prims. simpl.
  destruct (db t) eqn:Hd; [|congruence]. simpl.
  destruct Hcase as [[-> Hlen]|[-> Hlen]].
  - destruct (Split (str (HKey (H record))) SeparatorForZSetKey) as [|a [|b l]];
      simpl in Hlen; try lia;
      destruct (SortedSetIdx d !! RBucket record); simpl; auto.
  - destruct (Split (str (V record)) SeparatorForZSetKey) as [|a [|b l]];
      simpl in Hlen; try lia;
      destruct (SortedSetIdx d !! RBucket record); simpl; auto.
Qed.

(** X22.  [buildListIdx] first asks [db.Index] for the list of the bucket.
    For an entry that [IsExpired] reports as expired it does nothing more,
    whatever the flag.  For a live LRem entry whose value, or a live LSet
    or LTrim entry whose key, does not split in two at the separator, it
    panics (index out of range). *)
Theorem buildListIdx_expired_or_short (now : Z) (record : Record_) (s : St) :
  db (st_tx s) <> None ->
  (IsExpired (TTL (HMeta (H record))) (Timestamp (HMeta (H record))) now = true ->
   buildListIdx now record s =
     (Ok tt, mkSt (st_tx s)
                  (set_Index (getList (RBucket record) (Index (st_db s))) (st_db s))
                  (st_log s))) /\
  (IsExpired (TTL (HMeta (H record))) (Timestamp (HMeta (H record))) now = false ->
   (Flag (HMeta (H record)) = DataLRemFlag /\
    (length (Split (str (V record)) SeparatorForListKey) < 2)%nat) \/
   ((Flag (HMeta (H record)) = DataLSetFlag \/ Flag (HMeta (H record)) = DataLTrimFlag) /\
    (length (Split (str (HKey (H record))) SeparatorForListKey) < 2)%nat) ->
   fst (buildListIdx now record s) = Panic).
Proof.
  intros Hdb. destruct s as [t d log]. simpl in *.
  unfold buildListIdx, onList. unfold_prims. simpl.
  destruct (db t) eqn:Hd; [|congruence]. simpl.
  split.
  - intros ->. reflexivity.
  - intros -> [[-> Hlen]|[[->| ->] Hlen]].
    + destruct (Split (str (V record)) SeparatorForListKey) as [|a [|b l]];
        simpl in Hlen; try lia; reflexivity.
    + destruct (Split (str (HKey (H record))) SeparatorForListKey) as [|a [|b l]];
        simpl in Hlen; try lia; reflexivity.
    + destruct (Split (str (HKey (H record))) SeparatorForListKey) as [|a [|b l]];
        simpl in Hlen; try lia; reflexivity.
Qed.


(** ** What Commit writes *)

Lemma bind_ok {A B} (m : M A) (f : A -> M B) (s s' : St) (y : B) :
  bind m f s = (Ok y, s') ->
  exists a s1, m s = (Ok a, s1) /\ f a s1 = (Ok y, s').
Proof.
  unfold bind. destruct (m s) as [[a| |] s1]; try discriminate. eauto.
Qed.

Lemma writtenBytes_app (a b : list Event) :
  writtenBytes (a ++ b) = writtenBytes a ++ writtenBytes b.
Proof. apply flat_map_app. Qed.

Lemma writtenBytes_meta (evs : list Event) :
  Forall meta_event evs -> writtenBytes evs = [].
Proof.
  induction 1 as [|ev evs Hev _ IH]; [reflexivity|].
  destruct ev; simpl in Hev; try tauto; exact IH.
Qed.

Lemma writtenBytes_release (evs : list Event) :
  Forall release_event evs -> writtenBytes evs = [].
Proof.
  induction 1 as [|ev evs Hev _ IH]; [reflexivity|].
  destruct ev; simpl in Hev; try tauto; exact IH.
Qed.

Lemma writeData_bytes (data : list byte) (s s' : St) :
  writeData data s = (Ok tt, s') ->
  exists evs, st_log s' = st_log s ++ evs /\ writtenBytes evs = data.
Proof.
  destruct (decide (length data = 0%nat)) as [Hz|Hnz].
  - unfold writeData. destruct (decide (length data = 0%nat)); [|congruence].
    intros [= <-]. exists []. rewrite app_nil_r. split; [reflexivity|].
    destruct data; [reflexivity|discriminate].
  - destruct (db (st_tx s)) eqn:Hdb.
    2:{ unfold writeData. destruct (decide (length data = 0%nat)); [congruence|].
        unfold bind, theDB. rewrite Hdb. discriminate. }
    destruct (ActiveFile (st_db s)) as [f|] eqn:Hf.
    2:{ unfold writeData. destruct (decide (length data = 0%nat)); [congruence|].
        unfold theActiveFile, bind, theDB. rewrite Hdb. simpl. rewrite ?Hdb. simpl.
        rewrite Hf. discriminate. }
    rewrite (writeData_eq data s f) by congruence.
    destruct (_ >? _); [discriminate|]. cbv zeta.
    destruct (io_WriteAt _ _ _); [discriminate|].
    destruct (SyncEnable _).
    + destruct (io_Sync _); [discriminate|]. intros [= <-]. simpl.
      eexists. split; [rewrite <- app_assoc; reflexivity|]. simpl. apply app_nil_r.
    + intros [= <-]. simpl. eexists. split; [reflexivity|]. simpl. apply app_nil_r.
Qed.

Lemma commit_place_bytes (e : Entry) (buff b1 : list byte) (s s1 : St) :
  commit_place e buff s = (Ok b1, s1) ->
  exists evs, st_log s1 = st_log s ++ evs /\ writtenBytes evs ++ b1 = buff.
Proof.
  unfold commit_place. intros Hrun.
  apply bind_ok in Hrun as (d & s0 & Hd & Hrun).
  assert (s0 = s) as ->.
  { revert Hd. unfold theDB. destruct (db (st_tx s)); congruence. }
  destruct (Size e >? SegmentSize (opt d)); [discriminate|].
  apply bind_ok in Hrun as (f & s0 & Hf & Hrun).
  assert (s0 = s) as ->.
  { pose proof (keeps_theActiveFile eq s) as Hk. rewrite Hf in Hk. simpl in Hk. auto. }
  destruct (_ >? _).
  - apply bind_ok in Hrun as ([] & s2 & Hw & Hrun).
    apply bind_ok in Hrun as ([] & s3 & Hr & Hrun).
    injection Hrun as <- <-.
    apply writeData_bytes in Hw as (evs1 & Hl1 & Hw1).
    pose proof (rotateActiveFile_keeps_rot s2) as Hk. rewrite Hr in Hk. simpl in Hk.
    destruct Hk as (_ & _ & evs2 & Hl2 & Hev2).
    exists (evs1 ++ evs2). split; [rewrite Hl2, Hl1, <- app_assoc; reflexivity|].
    rewrite writtenBytes_app, (writtenBytes_meta evs2 Hev2), !app_nil_r. exact Hw1.
  - injection Hrun as <- <-. exists []. rewrite app_nil_r. auto.
Qed.

Lemma commit_encode_bytes (lastIndex i : nat) (e : Entry) (buff : list byte)
    (s s' : St) (enc : Entry * list byte * Z) :
  commit_encode lastIndex i e buff s = (Ok enc, s') ->
  enc.1.2 = buff ++ Encode (encoded_entry lastIndex i e) /\
  exists evs,
    st_log s' = st_log s ++ evs /\
    writtenBytes evs = if decide (i = lastIndex) then enc.1.2 else [].
Proof.
  destruct (db (st_tx s)) as [dref|] eqn:Hdb.
  2:{ rewrite commit_encode_nil by auto. discriminate. }
  destruct (ActiveFile (st_db s)) as [f|] eqn:Hf.
  2:{ rewrite commit_encode_nil by auto. discriminate. }
  rewrite (commit_encode_eq lastIndex i e buff s f) by congruence. cbv zeta.
  destruct (decide (i = lastIndex)) as [Hi|Hi].
  - intros Hrun. apply bind_ok in Hrun as ([] & s2 & Hw & Hrun).
    injection Hrun as <- <-. simpl. split; [reflexivity|].
    apply writeData_bytes in Hw as (evs & Hl & Hw).
    eexists. split; [rewrite Hl; simpl; rewrite <- app_assoc; reflexivity|].
    simpl. exact Hw.
  - intros [= <- <-]. simpl. split; [reflexivity|].
    eexists. split; [reflexivity|]. reflexivity.
Qed.

Lemma commit_entry_bytes (lastIndex : nat) (countFlag : bool) (i : nat) (e : Entry)
    (buff : list byte) (bmt : BucketMeta) (s s' : St) (x : list byte * BucketMeta) :
  commit_entry lastIndex countFlag i e buff bmt s = (Ok x, s') ->
  exists evs,
    st_log s' = st_log s ++ evs /\
    (i <> lastIndex ->
     writtenBytes evs ++ x.1 = buff ++ Encode (encoded_entry lastIndex i e)) /\
    (i = lastIndex -> writtenBytes evs = buff ++ Encode (encoded_entry lastIndex i e)).
Proof.
  unfold commit_entry. intros Hrun.
  apply bind_ok in Hrun as (b1 & s1 & Hp & Hrun).
  apply bind_ok in Hrun as (enc & s2 & He & Hrun).
  apply bind_ok in Hrun as (bmt' & s3 & Hi & Hrun).
  injection Hrun as <- <-. simpl.
  apply commit_place_bytes in Hp as (evs1 & Hl1 & Hw1).
  apply commit_encode_bytes in He as (Hbuf & evs2 & Hl2 & Hw2).
  pose proof (commit_index_keeps lastIndex countFlag i enc.1.1 enc.2 bmt s2) as Hk.
  rewrite Hi in Hk. simpl in Hk. destruct Hk as (_ & _ & evs3 & Hl3 & Hev3).
  exists (evs1 ++ evs2 ++ evs3).
  split; [rewrite Hl3, Hl2, Hl1, <- !app_assoc; reflexivity|].
  rewrite !writtenBytes_app, (writtenBytes_meta evs3 Hev3), app_nil_r, Hw2.
  destruct (decide (i = lastIndex)) as [Hlast|Hlast].
  - split; [congruence|]. intros _. rewrite Hbuf, <- Hw1 at 1.
    rewrite <- !app_assoc. reflexivity.
  - split; [|congruence]. intros _. rewrite app_nil_r, Hbuf, app_assoc, Hw1.
    reflexivity.
Qed.

Lemma take_drop_S {A} (l : list A) (i n : nat) (a : A) :
  l !! i = Some a -> take (S n) (drop i l) = a :: take n (drop (S i) l).
Proof.
  intros Hi. rewrite (drop_S l a i Hi). reflexivity.
Qed.

Lemma commit_loop_bytes (countFlag : bool) (pw : list Entry) (n : nat) :
  forall (i : nat) (buff : list byte) (bmt : BucketMeta) (s s' : St)
         (x : list byte * BucketMeta),
    commit_loop n (length pw - 1) countFlag i buff bmt s = (Ok x, s') ->
    pendingWrites (st_tx s) = pw ->
    (i + n <= length pw)%nat ->
    exists evs,
      st_log s' = st_log s ++ evs /\
      ((i + n < length pw)%nat ->
       writtenBytes evs ++ x.1 =
         buff ++ flat_map Encode (take n (drop i (stampLast pw)))) /\
      ((i + n = length pw)%nat -> (0 < n)%nat ->
       writtenBytes evs = buff ++ flat_map Encode (take n (drop i (stampLast pw)))).
Proof.
  induction n as [|n IH]; intros i buff bmt s s' x Hrun Hpw Hlen.
  - simpl in Hrun. injection Hrun as <- <-. exists [].
    rewrite app_nil_r. simpl. rewrite app_nil_r.
    split; [reflexivity|]. split; [reflexivity|lia].
  - simpl in Hrun. unfold bind at 1, gets in Hrun. rewrite Hpw in Hrun.
    destruct (pw !! i) as [e|] eqn:Hi; [|discriminate].
    apply bind_ok in Hrun as (x1 & s1 & He & Hrun).
    pose proof (commit_entry_writes _ _ _ _ _ _ _ _ _ He) as (_ & _ & _ & _ & Hkeep).
    apply commit_entry_bytes in He as (evs1 & Hl1 & Hmid & Hend).
    pose proof (stampLast_lookup pw i e Hi) as Hs.
    rewrite (take_drop_S _ _ _ _ Hs). simpl.
    destruct (decide (i = (length pw - 1)%nat)) as [Hlast|Hlast].
    + assert (n = 0%nat) as -> by lia. simpl in Hrun. injection Hrun as <- <-.
      exists evs1. split; [exact Hl1|]. simpl. rewrite app_nil_r.
      split; [lia|]. intros _ _. apply Hend, Hlast.
    + apply IH in Hrun as (evs2 & Hl2 & Hmid2 & Hend2);
        [|rewrite Hkeep by exact Hlast; exact Hpw|lia].
      exists (evs1 ++ evs2).
      split; [rewrite Hl2, Hl1, <- app_assoc; reflexivity|].
      rewrite writtenBytes_app. specialize (Hmid Hlast).
      split.
      * intros Hlt. rewrite <- app_assoc, Hmid2 by lia.
        rewrite !app_assoc, Hmid. reflexivity.
      * intros Heq _. rewrite Hend2 by lia.
        rewrite !app_assoc, Hmid. reflexivity.
Qed.


Lemma Commit_body_bytes (s s1 : St) (k : nat) :
  commitBuffer (st_db s) = [] ->
  Commit_body s = (Ok tt, s1, k) ->
  (exists evs,
     st_log s1 = st_log s ++ evs /\
     writtenBytes evs = flat_map Encode (stampLast (pendingWrites (st_tx s)))) /\
  ((k = 1%nat /\ st_db s1 = st_db s) \/ k = 2%nat).
Proof.
  intros Hbuf.
  unfold Commit_body, isClosed, loadStatus, allocCommitBuffer. unfold_prims.
  destruct (status (st_tx s)) as [v|] eqn:Hst; simpl; [|discriminate].
  case_bool_decide; simpl; [discriminate|].
  destruct (db (st_tx s)) eqn:Hdb; simpl; [|discriminate].
  case_decide.
  { intros [= <- <-]. simpl. split; [|left; auto].
    exists []. rewrite app_nil_r. split; [reflexivity|].
    destruct (pendingWrites (st_tx s)); [reflexivity|discriminate]. }
  set (s0 := mkSt (set_status (Some txStatusCommitting) (st_tx s)) (st_db s) (st_log s)).
  assert (Hrun : forall buff,
            buff = [] ->
            let m := bind (commit_loop (length (pendingWrites (st_tx s)))
                                       (length (pendingWrites (st_tx s)) - 1)
                                       (negb (isMerging (st_db s))) 0 buff BucketMeta_zero)
                          (fun _ => buildNotDSIdxes) in
            (fst (m s0), snd (m s0), 2%nat) = (Ok tt, s1, k) ->
            (exists evs,
               st_log s1 = st_log s ++ evs /\
               writtenBytes evs = flat_map Encode (stampLast (pendingWrites (st_tx s)))) /\
            ((k = 1%nat /\ st_db s1 = st_db s) \/ k = 2%nat)).
  { intros buff -> m Heq. subst m.
    assert (Hk : k = 2%nat) by congruence.
    split; [|right; exact Hk].
    destruct (bind _ _ s0) as [r sm] eqn:Hm. simpl in Heq.
    assert (r = Ok tt /\ sm = s1) as [-> ->] by (split; congruence).
    apply bind_ok in Hm as (x & sl & Hloop & Hbuild).
    apply (commit_loop_bytes _ (pendingWrites (st_tx s))) in Hloop
      as (evs & Hl & _ & Hw); [|reflexivity|lia].
    rewrite drop_0, take_ge in Hw by (rewrite stampLast_length; lia).
    pose proof (buildNotDSIdxes_keeps sl) as Hb. rewrite Hbuild in Hb. simpl in Hb.
    destruct Hb as (_ & _ & evs2 & Hl2 & Hev2).
    exists (evs ++ evs2). split; [rewrite Hl2, Hl, <- app_assoc; reflexivity|].
    rewrite writtenBytes_app, (writtenBytes_meta evs2 Hev2), app_nil_r.
    apply Hw; lia. }
  destruct (_ <? CommitBufferSize _); [apply Hrun, Hbuf|].
  destruct (_ <? 0); [discriminate|apply Hrun; reflexivity].
Qed.

(** X23.  Let the commit buffer be empty when [Commit] starts.  When
    [Commit] returns nil, the data it handed to [WriteAt], taken together
    in the order of the writes, is the encodings of the pending entries,
    in their order, the last one with the status Committed: nothing is
    written twice, nothing is left in the buffer, and nothing else is
    written to a segment.  The commit buffer is empty again. *)
Theorem Commit_writes_encodings (s s' : St) :
  commitBuffer (st_db s) = [] ->
  Commit s = (Returned None, s') ->
  (exists evs,
     st_log s' = st_log s ++ evs /\
     writtenBytes evs = flat_map Encode (stampLast (pendingWrites (st_tx s)))) /\
  commitBuffer (st_db s') = [].
Proof.
  intros Hbuf. unfold Commit.
  destruct (Commit_body s) as [[r s1] k] eqn:Hb.
  set (s2 := if (2 <=? k)%nat then _ else _).
  set (s3 := if (1 <=? k)%nat then _ else _).
  destruct (Commit_deferred (namedResult r) s3) as [[[]| |] s4] eqn:Hd;
    try discriminate.
  intros Hc.
  assert (r = Ok tt /\ s' = s4) as [-> ->].
  { destruct r as [[]| |]; simpl in Hc; split; congruence. }
  apply Commit_body_bytes in Hb as ((evs & Hl & Hw) & Hk); [|exact Hbuf].
  apply Commit_deferred_ok in Hd as (_ & _ & _ & _ & Hdb4 & _ & Hl4).
  assert (Hl3 : st_log s3 = st_log s1).
  { subst s3 s2. destruct (2 <=? k)%nat, (1 <=? k)%nat; reflexivity. }
  split.
  - eexists. split; [rewrite Hl4, Hl3, Hl, <- app_assoc; reflexivity|].
    rewrite writtenBytes_app, Hw. simpl.
    destruct (writable (st_tx s3)); simpl; apply app_nil_r.
  - rewrite Hdb4. subst s3 s2.
    destruct Hk as [[-> Hdb1]| ->]; simpl; [rewrite Hdb1; exact Hbuf|reflexivity].
Qed.


Lemma writeData_fileID (data : list byte) (s s' : St) (r : Res unit) (f : DataFile) :
  writeData data s = (r, s') ->
  ActiveFile (st_db s) = Some f ->
  exists f', ActiveFile (st_db s') = Some f' /\ fileID f' = fileID f.
Proof.
  intros Hrun Hf.
  pose proof (writeData_keeps data s) as Hk. rewrite Hrun in Hk. simpl in Hk.
  destruct (decide (length data = 0%nat)) as [Hz|Hnz].
  { revert Hrun. unfold writeData.
    destruct (decide (length data = 0%nat)); [|congruence].
    intros [= <- <-]. eauto. }
  destruct (db (st_tx s)) eqn:Hdb.
  2:{ revert Hrun. unfold writeData.
      destruct (decide (length data = 0%nat)); [congruence|].
      unfold bind, theDB. rewrite Hdb. intros [= <- <-]. eauto. }
  revert Hrun. rewrite (writeData_eq data s f) by congruence.
  destruct (_ >? _); [intros [= <- <-]; eauto|]. cbv zeta.
  destruct (io_WriteAt _ _ _); [intros [= <- <-]; eauto|].
  destruct (SyncEnable _); intros [= <- <-]; simpl;
    unfold bumpActiveFile; rewrite Hf; simpl; eauto.
Qed.

Lemma commit_encode_at (lastIndex i : nat) (e : Entry) (buff : list byte) (s s' : St)
    (enc : Entry * list byte * Z) :
  commit_encode lastIndex i e buff s = (Ok enc, s') ->
  exists f f',
    ActiveFile (st_db s) = Some f /\ ActiveFile (st_db s') = Some f' /\
    fileID f' = fileID f /\
    enc.2 = add64 (writeOff f) (blen buff) /\
    exists evs,
      st_log s' =
        st_log s ++ EvBufferWrite (encoded_entry lastIndex i e) (fileID f) enc.2 :: evs /\
      Forall aux_event evs.
Proof.
  intros Hrun.
  destruct (db (st_tx s)) eqn:Hdb.
  2:{ rewrite commit_encode_nil in Hrun by auto. discriminate. }
  destruct (ActiveFile (st_db s)) as [f|] eqn:Hf.
  2:{ rewrite commit_encode_nil in Hrun by auto. discriminate. }
  pose proof (commit_encode_log lastIndex i e buff s s' f (Ok enc)) as Hlog.
  destruct Hlog as (_ & evs & Hl & Hev); [congruence|exact Hf|exact Hrun|].
  revert Hrun. rewrite (commit_encode_eq _ _ _ _ _ f) by congruence. cbv zeta.
  destruct (encode_state_frame lastIndex i e buff f s) as (_ & _ & Hf1 & _).
  rewrite Hf in Hf1.
  destruct (decide (i = lastIndex)).
  - intros Hrun. apply bind_ok in Hrun as ([] & s2 & Hw & Hrun).
    injection Hrun as <- <-.
    destruct (writeData_fileID _ _ _ _ f Hw Hf1) as (f' & Hf' & Hid).
    exists f, f'. simpl. repeat split; eauto.
  - intros [= <- <-]. exists f, f. simpl. repeat split; eauto.
Qed.

Lemma encoded_entry_fields (lastIndex i : nat) (e : Entry) :
  Key (encoded_entry lastIndex i e) = Key e /\
  Value (encoded_entry lastIndex i e) = Value e /\
  Bucket (encoded_entry lastIndex i e) = Bucket e.
Proof. unfold encoded_entry. destruct (decide (i = lastIndex)); simpl; auto. Qed.

Lemma commit_entry_hint (lastIndex : nat) (countFlag : bool) (i : nat)
    (e : Entry) (buff : list byte) (bmt : BucketMeta) (s s' : St)
    (x : list byte * BucketMeta) :
  EntryIdxMode (opt (st_db s)) <> HintBPTSparseIdxMode ->
  Ds (Meta e) = DataStructureTree ->
  Flag (Meta e) = DataSetFlag ->
  TTL (Meta e) = Persistent \/ time_Now i <= expireTimeOf (Meta e) ->
  commit_entry lastIndex countFlag i e buff bmt s = (Ok x, s') ->
  exists (f : DataFile) (off : Z) (before after : list Event),
    st_log s' =
      st_log s ++ before ++
      EvBufferWrite (encoded_entry lastIndex i e) (fileID f) off :: after /\
    Forall aux_event before /\ Forall aux_event after /\
    ActiveFile (st_db s') = Some f /\
    treeLookup (st_db s') (Bucket e) (str (Key e)) =
      Some (if decide (EntryIdxMode (opt (st_db s)) = HintKeyValAndRAMIdxMode)
            then Value e else None,
            mkHint (Key e) (fileID f) (Meta (encoded_entry lastIndex i e))
                   (to_uint64 off)).
Proof.
  intros Hmode Hds Hflag Hlive Hrun.
  unfold commit_entry in Hrun.
  apply bind_ok in Hrun as (b1 & s1 & Hp & Hrun).
  apply bind_ok in Hrun as (enc & s2 & He & Hrun).
  apply bind_ok in Hrun as (bmt' & s3 & Hi & Hrun).
  injection Hrun as <- <-.
  pose proof (commit_place_keeps_idx e buff s) as Hkp.
  rewrite Hp in Hkp. simpl in Hkp.
  destruct Hkp as (_ & ((Ho1 & _) & _) & before & Hl1 & Hev1).
  pose proof (commit_encode_keeps_idx lastIndex i e b1 s1) as Hke.
  rewrite He in Hke. simpl in Hke.
  destruct Hke as ((_ & Hdb2 & _) & ((Ho2 & _) & _) & _).
  pose proof (commit_encode_ok _ _ _ _ _ _ _ He) as Hx.
  apply commit_encode_at in He as (f1 & f2 & Hf1 & Hf2 & Hid & Hoff & evs2 & Hl2 & Hev2).
  destruct (encoded_entry_meta lastIndex i e) as (Hds' & Hflag' & Httl' & Hexp').
  destruct (encoded_entry_fields lastIndex i e) as (Hkey & Hval & Hbk).
  rewrite commit_index_tree in Hi by (rewrite ?Hx; congruence).
  destruct (db (st_tx s2)) eqn:Hd2; [|discriminate].
  rewrite Hf2, Hx in Hi.
  apply bind_ok in Hi as ([] & s4 & Hbt & Hret). injection Hret as <- <-.
  destruct (buildTreeIdx_set_spec (time_Now i)
              (mkRecord (mkHint (Key (encoded_entry lastIndex i e)) (fileID f2)
                                (Meta (encoded_entry lastIndex i e)) (to_uint64 enc.2))
                        (Value (encoded_entry lastIndex i e))
                        (Bucket (encoded_entry lastIndex i e)))
              countFlag s2 f2)
    as (s4' & Hbt' & Hl4 & Hlook).
  { congruence. }
  { exact Hf2. }
  { congruence. }
  { simpl. congruence. }
  { simpl. rewrite Httl', Hexp'. exact Hlive. }
  rewrite Hbt in Hbt'. injection Hbt' as <-.
  simpl in Hlook. rewrite Hkey, Hval, Hbk in Hlook.
  assert (Hf4 : ActiveFile (st_db s4) = Some f2).
  { pose proof (buildTreeIdx_keeps (time_Now i)
                  (mkRecord (mkHint (Key (encoded_entry lastIndex i e)) (fileID f2)
                                    (Meta (encoded_entry lastIndex i e)) (to_uint64 enc.2))
                            (Value (encoded_entry lastIndex i e))
                            (Bucket (encoded_entry lastIndex i e)))
                  countFlag s2) as Hk.
    rewrite Hbt in Hk. simpl in Hk. destruct Hk as (_ & (_ & Hfk & _) & _).
    congruence. }
  exists f2, enc.2, before, evs2.
  split; [rewrite Hl4, Hl2, Hl1, Hid, <- app_assoc; reflexivity|].
  split; [exact Hev1|]. split; [exact Hev2|].
  split; [exact Hf4|].
  rewrite Hlook. rewrite Ho2, Ho1. reflexivity.
Qed.

(** X24.  Outside sparse mode, let an iteration of [Commit] go through for
    a set entry of the ordered index that is persistent or not yet past
    its expiry.  Then the hint the index holds for the key afterwards
    names the file and the offset at which this very entry was encoded
    into the buffer, and carries the meta of the entry as it was encoded;
    that file is still the active one.  The value is kept in key-value
    mode only. *)
Theorem commit_entry_hint_position (lastIndex : nat) (countFlag : bool) (i : nat)
    (e : Entry) (buff : list byte) (bmt : BucketMeta) (s s' : St)
    (x : list byte * BucketMeta) :
  EntryIdxMode (opt (st_db s)) <> HintBPTSparseIdxMode ->
  Ds (Meta e) = DataStructureTree ->
  Flag (Meta e) = DataSetFlag ->
  TTL (Meta e) = Persistent \/ time_Now i <= expireTimeOf (Meta e) ->
  commit_entry lastIndex countFlag i e buff bmt s = (Ok x, s') ->
  exists (f : DataFile) (off : Z) (before after : list Event),
    st_log s' =
      st_log s ++ before ++
      EvBufferWrite (encoded_entry lastIndex i e) (fileID f) off :: after /\
    ActiveFile (st_db s') = Some f /\
    treeLookup (st_db s') (Bucket e) (str (Key e)) =
      Some (if decide (EntryIdxMode (opt (st_db s)) = HintKeyValAndRAMIdxMode)
            then Value e else None,
            mkHint (Key e) (fileID f) (Meta (encoded_entry lastIndex i e))
                   (to_uint64 off)).
Proof.
  intros Hmode Hds Hflag Hlive Hrun.
  destruct (commit_entry_hint lastIndex countFlag i e buff bmt s s' x
              Hmode Hds Hflag Hlive Hrun)
    as (f & off & before & after & Hl & _ & _ & Hf & Hlook).
  exists f, off, before, after. split; [exact Hl|]. split; [exact Hf|exact Hlook].
Qed.




(** ** The bucket meta along the loop of Commit *)

Lemma theDB_ok (s s' : St) (d : DB) : theDB s = (Ok d, s') -> s' = s /\ d = st_db s.
Proof. unfold theDB. destruct (db (st_tx s)); intros [= <- <-]; auto. Qed.

Lemma commit_index_temp (lastIndex : nat) (countFlag : bool) (i : nat) (e : Entry)
    (offset : Z) (bmt y : BucketMeta) (s s' : St) :
  commit_index lastIndex countFlag i e offset bmt s = (Ok y, s') ->
  y = if decide (EntryIdxMode (opt (st_db s)) = HintBPTSparseIdxMode)
      then buildTempBucketMetaIdx (Bucket e) (Key e) bmt
      else bmt.
Proof.
  unfold commit_index. intros Hrun.
  apply bind_ok in Hrun as (d & s0 & Hd & Hrun).
  apply theDB_ok in Hd as [-> ->]. cbv zeta in Hrun.
  do 6 (apply bind_ok in Hrun as (? & ? & _ & Hrun)).
  injection Hrun as <- _. reflexivity.
Qed.

Lemma commit_entry_temp (lastIndex : nat) (countFlag : bool) (i : nat) (e : Entry)
    (buff : list byte) (bmt : BucketMeta) (s s' : St) (x : list byte * BucketMeta) :
  commit_entry lastIndex countFlag i e buff bmt s = (Ok x, s') ->
  x.2 = if decide (EntryIdxMode (opt (st_db s)) = HintBPTSparseIdxMode)
        then buildTempBucketMetaIdx (Bucket e) (Key e) bmt
        else bmt.
Proof.
  unfold commit_entry. intros Hrun.
  apply bind_ok in Hrun as (b1 & s1 & Hp & Hrun).
  apply bind_ok in Hrun as (enc & s2 & He & Hrun).
  apply bind_ok in Hrun as (bmt' & s3 & Hi & Hrun).
  injection Hrun as <- <-. simpl.
  pose proof (commit_place_keeps e buff s) as Hkp. rewrite Hp in Hkp. simpl in Hkp.
  destruct Hkp as (_ & (Ho1 & _) & _).
  pose proof (commit_encode_keeps lastIndex i e b1 s1) as Hke.
  rewrite He in Hke. simpl in Hke. destruct Hke as (_ & (Ho2 & _) & _).
  apply commit_encode_ok in He.
  apply commit_index_temp in Hi. rewrite Hi, He, Ho2, Ho1.
  destruct (encoded_entry_fields lastIndex i e) as (-> & _ & ->). reflexivity.
Qed.

Lemma commit_loop_temp (countFlag : bool) (pw : list Entry) (n : nat) :
  forall (i : nat) (buff : list byte) (bmt : BucketMeta) (s s' : St)
         (x : list byte * BucketMeta),
    commit_loop n (length pw - 1) countFlag i buff bmt s = (Ok x, s') ->
    pendingWrites (st_tx s) = pw ->
    (i + n <= length pw)%nat ->
    x.2 = if decide (EntryIdxMode (opt (st_db s)) = HintBPTSparseIdxMode)
          then tempMeta (take n (drop i pw)) bmt
          else bmt.
Proof.
  induction n as [|n IH]; intros i buff bmt s s' x Hrun Hpw Hlen.
  - simpl in Hrun. injection Hrun as <- <-. simpl.
    destruct (decide _); reflexivity.
  - simpl in Hrun. unfold bind at 1, gets in Hrun. rewrite Hpw in Hrun.
    destruct (pw !! i) as [e|] eqn:Hi; [|discriminate].
    apply bind_ok in Hrun as (x1 & s1 & He & Hrun).
    pose proof (commit_entry_writes _ _ _ _ _ _ _ _ _ He) as (_ & _ & _ & _ & Hkeep).
    pose proof (commit_entry_keeps (length pw - 1) countFlag i e buff bmt s) as Hk.
    rewrite He in Hk. simpl in Hk. destruct Hk as (_ & (Ho1 & _) & _).
    apply commit_entry_temp in He.
    rewrite (take_drop_S _ _ _ _ Hi). simpl.
    destruct (decide (i = (length pw - 1)%nat)) as [Hlast|Hlast].
    + assert (n = 0%nat) as -> by lia. simpl in Hrun. injection Hrun as <- <-.
      simpl. rewrite He. destruct (decide _); reflexivity.
    + apply IH in Hrun; [|rewrite Hkeep by exact Hlast; exact Hpw|lia].
      rewrite Hrun, He, Ho1. destruct (decide _); reflexivity.
Qed.

(** X26.  In sparse mode the local [bucketMetaTemp] of [Commit], after the
    first [k] iterations have gone through, is what
    [buildTempBucketMetaIdx] makes of the keys of the first [k] pending
    entries, taken one after the other from the zero value, whatever the
    buckets of these entries are.  Outside sparse mode it stays the zero
    value. *)
Theorem commit_prefix_tempMeta (k : nat) (s sk : St) (buff : list byte)
    (bmt : BucketMeta) :
  (k <= length (pendingWrites (st_tx s)))%nat ->
  commit_prefix k s = (Ok (buff, bmt), sk) ->
  bmt = if decide (EntryIdxMode (opt (st_db s)) = HintBPTSparseIdxMode)
        then tempMeta (take k (pendingWrites (st_tx s))) BucketMeta_zero
        else BucketMeta_zero.
Proof.
  intros Hk. unfold commit_prefix. simpl.
  set (s0 := mkSt (set_status (Some txStatusCommitting) (st_tx s)) (st_db s) (st_log s)).
  destruct (allocCommitBuffer s0) as [[buff0| |] s0'] eqn:Halloc; try discriminate.
  assert (s0' = s0) as ->.
  { revert Halloc. unfold allocCommitBuffer. unfold_prims.
    destruct (db (st_tx s0)); simpl; [|discriminate].
    repeat case_match; congruence. }
  intros Hloop.
  apply (commit_loop_temp _ (pendingWrites (st_tx s))) in Hloop; [|reflexivity|simpl; lia].
  simpl in Hloop. rewrite drop_0 in Hloop. exact Hloop.
Qed.


(** ** A transaction that fits the active file *)

Lemma segmentWrites_app (a b : list Event) :
  segmentWrites (a ++ b) = segmentWrites a ++ segmentWrites b.
Proof. apply omap_app. Qed.

Lemma placements_app (a b : list Event) :
  placements (a ++ b) = placements a ++ placements b.
Proof. apply omap_app. Qed.

Lemma segmentWrites_meta (evs : list Event) :
  Forall meta_event evs -> segmentWrites evs = [].
Proof.
  induction 1 as [|ev evs Hev _ IH]; [reflexivity|].
  destruct ev; simpl in Hev; try tauto; exact IH.
Qed.

Lemma placements_aux (evs : list Event) :
  Forall aux_event evs -> placements evs = [].
Proof.
  induction 1 as [|ev evs Hev _ IH]; [reflexivity|].
  destruct ev; simpl in Hev; try tauto; exact IH.
Qed.

Lemma placements_meta (evs : list Event) :
  Forall meta_event evs -> placements evs = [].
Proof.
  intros H. apply placements_aux. eapply Forall_impl; [exact H|]. apply meta_aux_event.
Qed.

Lemma segmentWrites_release (evs : list Event) :
  Forall release_event evs -> segmentWrites evs = [].
Proof.
  induction 1 as [|ev evs Hev _ IH]; [reflexivity|].
  destruct ev; simpl in Hev; try tauto; exact IH.
Qed.

Lemma placements_release (evs : list Event) :
  Forall release_event evs -> placements evs = [].
Proof.
  induction 1 as [|ev evs Hev _ IH]; [reflexivity|].
  destruct ev; simpl in Hev; try tauto; exact IH.
Qed.

Lemma encoded_entry_size (lastIndex i : nat) (e : Entry) :
  codec_ok -> Size (encoded_entry lastIndex i e) = Size e.
Proof.
  intros [_ Hs]. unfold encoded_entry. destruct (decide (i = lastIndex)); [apply Hs|reflexivity].
Qed.

Lemma commit_entry_single (seg : Z) (lastIndex : nat) (countFlag : bool) (i : nat)
    (e : Entry) (buff : list byte) (bmt : BucketMeta) (s s' : St) (f : DataFile)
    (x : list byte * BucketMeta) :
  codec_ok ->
  seg < 2 ^ 62 ->
  SegmentSize (opt (st_db s)) = seg ->
  db (st_tx s) <> None ->
  ActiveFile (st_db s) = Some f ->
  0 <= ActualSize f ->
  writeOff f = ActualSize f ->
  ActualSize f + blen buff + Size e <= seg ->
  commit_entry lastIndex countFlag i e buff bmt s = (Ok x, s') ->
  x.1 = buff ++ Encode (encoded_entry lastIndex i e) /\
  exists evs,
    st_log s' = st_log s ++ evs /\
    placements evs = [(encoded_entry lastIndex i e, fileID f, ActualSize f + blen buff)] /\
    (i <> lastIndex ->
     segmentWrites evs = [] /\ ActiveFile (st_db s') = Some f /\
     opt (st_db s') = opt (st_db s) /\ db (st_tx s') = db (st_tx s)) /\
    (i = lastIndex -> x.1 <> [] ->
     segmentWrites evs = [(fileID f, ActualSize f, x.1)]).
Proof.
  intros Hcodec Hseg Hsz Hdb Hf H0 Hoff Hfit Hrun.
  pose proof (blen_nonneg buff) as Hlen.
  pose proof (Size_nonneg e Hcodec) as Hsize.
  unfold commit_entry in Hrun.
  apply bind_ok in Hrun as (b1 & s1 & Hp & Hrun).
  apply bind_ok in Hrun as (enc & s2 & He & Hrun).
  apply bind_ok in Hrun as (bmt' & s3 & Hi & Hrun).
  injection Hrun as <- <-. simpl.
  (* the entry fits: nothing is flushed *)
  rewrite (commit_place_eq e buff s f Hdb Hf) in Hp.
  destruct (Z.gtb_spec (Size e) (SegmentSize (opt (st_db s)))); [lia|].
  unfold overflows in Hp.
  rewrite (add64_small (ActualSize f) (blen buff)), add64_small in Hp
    by (unfold minInt64, maxInt64; lia).
  destruct (Z.gtb_spec (ActualSize f + blen buff + Size e) (SegmentSize (opt (st_db s))));
    [lia|].
  injection Hp as <- <-.
  (* the encoding *)
  rewrite (commit_encode_eq lastIndex i e buff s f Hdb Hf) in He. cbv zeta in He.
  set (e' := encoded_entry lastIndex i e) in *.
  assert (Hoffset : add64 (writeOff f) (blen buff) = ActualSize f + blen buff).
  { rewrite Hoff. apply add64_small. unfold minInt64, maxInt64. lia. }
  rewrite Hoffset in He.
  destruct (encode_state_frame lastIndex i e buff f s) as (Hdb1 & Ho1 & Hf1 & _).
  set (s1 := encode_state lastIndex i e buff f s) in *.
  assert (Hl1 : st_log s1 =
                st_log s ++ [EvBufferWrite e' (fileID f) (ActualSize f + blen buff)]).
  { subst s1. unfold encode_state. simpl. rewrite Hoffset. reflexivity. }
  clearbody s1.
  (* the indexes *)
  pose proof (commit_index_keeps lastIndex countFlag i enc.1.1 enc.2 bmt s2) as Hk.
  rewrite Hi in Hk. simpl in Hk.
  destruct Hk as ((_ & Hdb3 & _) & ((Ho3 & _) & Hf3 & _) & evs3 & Hl3 & Hev3).
  destruct (decide (i = lastIndex)) as [Hlast|Hlast].
  - apply bind_ok in He as ([] & s2' & Hw & Hret). injection Hret as <- <-. simpl.
    split; [reflexivity|].
    destruct (decide (length (buff ++ Encode e') = 0%nat)) as [Hz|Hnz].
    + (* nothing to write *)
      unfold writeData in Hw.
      destruct (decide (length (buff ++ Encode e') = 0%nat)); [|congruence].
      injection Hw as <-.
      exists (EvBufferWrite e' (fileID f) (ActualSize f + blen buff) :: evs3).
      split; [rewrite Hl3, Hl1, <- app_assoc; reflexivity|].
      split; [simpl; rewrite (placements_meta evs3 Hev3); reflexivity|].
      split; [congruence|]. intros _ Hne. destruct (buff ++ Encode e'); [congruence|discriminate].
    + rewrite (writeData_eq _ s1 f) in Hw by congruence.
      destruct (_ >? _); [discriminate|]. cbv zeta in Hw.
      destruct (io_WriteAt _ _ _); [discriminate|].
      assert (exists evsW,
                st_log s2' = st_log s1 ++
                  EvWriteAt (fileID f) (ActualSize f) (buff ++ Encode e') :: evsW /\
                Forall meta_event evsW) as (evsW & HlW & HevW).
      { destruct (SyncEnable _).
        - destruct (io_Sync _); [discriminate|]. injection Hw as <-. simpl.
          exists [EvSync (fileID f)]. split; [rewrite <- app_assoc; reflexivity|].
          repeat constructor.
        - injection Hw as <-. simpl. exists []. split; [reflexivity|constructor]. }
      exists (EvBufferWrite e' (fileID f) (ActualSize f + blen buff) ::
              EvWriteAt (fileID f) (ActualSize f) (buff ++ Encode e') :: evsW ++ evs3).
      split; [rewrite Hl3, HlW, Hl1, <- !app_assoc; reflexivity|].
      split.
      { simpl. rewrite placements_app, (placements_meta evsW HevW),
          (placements_meta evs3 Hev3). reflexivity. }
      split; [congruence|]. intros _ _. simpl.
      rewrite segmentWrites_app, (segmentWrites_meta evsW HevW),
        (segmentWrites_meta evs3 Hev3). reflexivity.
  - injection He as <- <-. simpl. split; [reflexivity|].
    exists (EvBufferWrite e' (fileID f) (ActualSize f + blen buff) :: evs3).
    split; [rewrite Hl3, Hl1, <- app_assoc; reflexivity|].
    split; [simpl; rewrite (placements_meta evs3 Hev3); reflexivity|].
    split; [|congruence]. intros _.
    split; [simpl; apply segmentWrites_meta, Hev3|].
    split; [congruence|]. split; congruence.
Qed.


Lemma commit_loop_single (seg : Z) (countFlag : bool) (pw : list Entry) (f : DataFile)
    (n : nat) :
  forall (i : nat) (buff : list byte) (bmt : BucketMeta) (s s' : St)
         (x : list byte * BucketMeta),
    codec_ok ->
    seg < 2 ^ 62 ->
    SegmentSize (opt (st_db s)) = seg ->
    db (st_tx s) <> None ->
    ActiveFile (st_db s) = Some f ->
    0 <= ActualSize f ->
    writeOff f = ActualSize f ->
    pendingWrites (st_tx s) = pw ->
    (i + n <= length pw)%nat ->
    ActualSize f + blen buff +
      blen (flat_map Encode (take n (drop i (stampLast pw)))) <= seg ->
    commit_loop n (length pw - 1) countFlag i buff bmt s = (Ok x, s') ->
    exists evs,
      st_log s' = st_log s ++ evs /\
      placements evs =
        layout (fileID f) (ActualSize f + blen buff) (take n (drop i (stampLast pw))) /\
      ((i + n < length pw)%nat -> segmentWrites evs = []) /\
      ((i + n = length pw)%nat -> (0 < n)%nat ->
       buff ++ flat_map Encode (take n (drop i (stampLast pw))) <> [] ->
       segmentWrites evs =
         [(fileID f, ActualSize f,
           buff ++ flat_map Encode (take n (drop i (stampLast pw))))]).
Proof.
  induction n as [|n IH];
    intros i buff bmt s s' x Hcodec Hseg Hsz Hdb Hf H0 Hoff Hpw Hlen Hfit Hrun.
  - simpl in Hrun. injection Hrun as <- <-. exists [].
    rewrite app_nil_r. simpl. repeat split; auto. lia.
  - simpl in Hrun. unfold bind at 1, gets in Hrun. rewrite Hpw in Hrun.
    destruct (pw !! i) as [e|] eqn:Hi; [|discriminate].
    apply bind_ok in Hrun as (x1 & s1 & He & Hrun).
    pose proof (commit_entry_writes _ _ _ _ _ _ _ _ _ He) as (_ & _ & _ & _ & Hkeep).
    pose proof (stampLast_lookup pw i e Hi) as Hs.
    rewrite (take_drop_S _ _ _ _ Hs) in Hfit |- *. simpl in Hfit |- *.
    set (e' := encoded_entry (length pw - 1) i e) in *.
    set (rest := take n (drop (S i) (stampLast pw))) in *.
    assert (Hsize : Size e' = Size e) by (apply encoded_entry_size, Hcodec).
    assert (Henc : blen (Encode e') = Size e).
    { destruct Hcodec as [Hc _]. rewrite Hc. exact Hsize. }
    rewrite blen_app, Henc in Hfit.
    pose proof (blen_nonneg (flat_map Encode rest)) as Hrest.
    pose proof (blen_nonneg buff) as Hbuff.
    apply (commit_entry_single seg _ _ _ _ _ _ _ _ f) in He
      as (Hx1 & evs1 & Hl1 & Hpl1 & Hmid & Hend);
      try assumption; [|lia].
    fold e' in Hx1, Hpl1.
    destruct (decide (i = (length pw - 1)%nat)) as [Hlast|Hlast].
    + assert (n = 0%nat) as -> by lia. simpl in Hrun. injection Hrun as <- <-.
      subst rest. simpl. exists evs1. split; [exact Hl1|].
      split; [exact Hpl1|]. split; [lia|].
      intros _ _ Hne. rewrite app_nil_r in Hne |- *. rewrite <- Hx1.
      apply Hend; [exact Hlast|]. rewrite Hx1. exact Hne.
    + destruct (Hmid Hlast) as (Hw1 & Hf1 & Ho1 & Hdb1).
      assert (Hblen1 : blen x1.1 = blen buff + Size e).
      { rewrite Hx1, blen_app, Henc. reflexivity. }
      apply IH in Hrun as (evs2 & Hl2 & Hpl2 & Hmid2 & Hend2);
        try assumption; try congruence; try lia.
      2:{ rewrite Hkeep by exact Hlast. exact Hpw. }
      2:{ fold rest. lia. }
      fold rest in Hpl2, Hend2.
      exists (evs1 ++ evs2).
      split; [rewrite Hl2, Hl1, <- app_assoc; reflexivity|].
      split.
      { rewrite placements_app, Hpl1, Hpl2. simpl.
        rewrite Hblen1, Hsize.
        replace (ActualSize f + (blen buff + Size e))
          with (ActualSize f + blen buff + Size e) by lia.
        reflexivity. }
      split.
      * intros Hlt. rewrite segmentWrites_app, Hw1, Hmid2 by lia. reflexivity.
      * intros Heq _ Hne. rewrite segmentWrites_app, Hw1. simpl.
        rewrite Hx1, <- app_assoc in Hend2. apply Hend2; [lia|lia|exact Hne].
Qed.

Lemma Commit_body_single (s s1 : St) (k : nat) (f : DataFile) :
  codec_ok ->
  SegmentSize (opt (st_db s)) < 2 ^ 62 ->
  ActiveFile (st_db s) = Some f ->
  0 <= ActualSize f ->
  writeOff f = ActualSize f ->
  commitBuffer (st_db s) = [] ->
  flat_map Encode (stampLast (pendingWrites (st_tx s))) <> [] ->
  ActualSize f + blen (flat_map Encode (stampLast (pendingWrites (st_tx s))))
    <= SegmentSize (opt (st_db s)) ->
  Commit_body s = (Ok tt, s1, k) ->
  exists evs,
    st_log s1 = st_log s ++ evs /\
    segmentWrites evs =
      [(fileID f, ActualSize f, flat_map Encode (stampLast (pendingWrites (st_tx s))))] /\
    placements evs =
      layout (fileID f) (ActualSize f) (stampLast (pendingWrites (st_tx s))).
Proof.
  intros Hcodec Hseg Hf H0 Hoff Hbuf Hdata Hfit.
  unfold Commit_body, isClosed, loadStatus, allocCommitBuffer. unfold_prims.
  destruct (status (st_tx s)) as [v|] eqn:Hst; simpl; [|discriminate].
  case_bool_decide; simpl; [discriminate|].
  destruct (db (st_tx s)) eqn:Hdb; simpl; [|discriminate].
  case_decide.
  { destruct (pendingWrites (st_tx s)); [|discriminate]. simpl in Hdata. congruence. }
  set (s0 := mkSt (set_status (Some txStatusCommitting) (st_tx s)) (st_db s) (st_log s)).
  assert (Hrun : forall buff,
            buff = [] ->
            let m := bind (commit_loop (length (pendingWrites (st_tx s)))
                                       (length (pendingWrites (st_tx s)) - 1)
                                       (negb (isMerging (st_db s))) 0 buff BucketMeta_zero)
                          (fun _ => buildNotDSIdxes) in
            (fst (m s0), snd (m s0), 2%nat) = (Ok tt, s1, k) ->
            exists evs,
              st_log s1 = st_log s ++ evs /\
              segmentWrites evs =
                [(fileID f, ActualSize f,
                  flat_map Encode (stampLast (pendingWrites (st_tx s))))] /\
              placements evs =
                layout (fileID f) (ActualSize f) (stampLast (pendingWrites (st_tx s)))).
  { intros buff -> m Heq. subst m.
    destruct (bind _ _ s0) as [r sm] eqn:Hm. simpl in Heq.
    assert (r = Ok tt /\ sm = s1) as [-> ->] by (split; congruence).
    apply bind_ok in Hm as (x & sl & Hloop & Hbuild).
    assert (Htake : take (length (pendingWrites (st_tx s)))
                         (drop 0 (stampLast (pendingWrites (st_tx s)))) =
                    stampLast (pendingWrites (st_tx s))).
    { rewrite drop_0. apply take_ge. rewrite stampLast_length. lia. }
    assert (Hb : blen [] = 0) by reflexivity.
    apply (commit_loop_single (SegmentSize (opt (st_db s))) _
             (pendingWrites (st_tx s)) f) in Hloop
      as (evs & Hl & Hpl & _ & Hw);
      try assumption; try reflexivity; try (simpl; congruence); try (simpl; lia).
    2:{ rewrite Htake, Hb. lia. }
    rewrite Htake, Hb, Z.add_0_r in Hpl. rewrite Htake in Hw. simpl in Hw.
    pose proof (buildNotDSIdxes_keeps sl) as Hk. rewrite Hbuild in Hk. simpl in Hk.
    destruct Hk as (_ & _ & evs2 & Hl2 & Hev2).
    exists (evs ++ evs2). split; [rewrite Hl2, Hl, <- app_assoc; reflexivity|].
    rewrite segmentWrites_app, placements_app, (segmentWrites_meta evs2 Hev2),
      (placements_meta evs2 Hev2), !app_nil_r.
    split; [|exact Hpl]. apply Hw; [simpl; lia|lia|exact Hdata]. }
  destruct (_ <? CommitBufferSize _); [apply Hrun, Hbuf|].
  destruct (_ <? 0); [discriminate|apply Hrun; reflexivity].
Qed.

(** X27.  Let the encodings of all pending entries fit behind what the
    active file holds, with a length-true codec, the segment size below
    2^62, the write offset of the active file at its size, and the commit
    buffer empty on entry.  When [Commit] returns nil it has made exactly
    one write to a segment: the encodings of all entries, in order, the
    last one stamped, at the offset where the active file ended.  And the
    entries were placed, in order, one directly behind the other from that
    offset, all in the active file: the offset recorded for an entry is
    where its bytes lie in that one write. *)
Theorem Commit_single_write (s s' : St) (f : DataFile) :
  codec_ok ->
  SegmentSize (opt (st_db s)) < 2 ^ 62 ->
  ActiveFile (st_db s) = Some f ->
  0 <= ActualSize f ->
  writeOff f = ActualSize f ->
  commitBuffer (st_db s) = [] ->
  flat_map Encode (stampLast (pendingWrites (st_tx s))) <> [] ->
  ActualSize f + blen (flat_map Encode (stampLast (pendingWrites (st_tx s))))
    <= SegmentSize (opt (st_db s)) ->
  Commit s = (Returned None, s') ->
  exists evs,
    st_log s' = st_log s ++ evs /\
    segmentWrites evs =
      [(fileID f, ActualSize f, flat_map Encode (stampLast (pendingWrites (st_tx s))))] /\
    placements evs =
      layout (fileID f) (ActualSize f) (stampLast (pendingWrites (st_tx s))).
Proof.
  intros Hcodec Hseg Hf H0 Hoff Hbuf Hdata Hfit. unfold Commit.
  destruct (Commit_body s) as [[r s1] k] eqn:Hb.
  set (s2 := if (2 <=? k)%nat then _ else _).
  set (s3 := if (1 <=? k)%nat then _ else _).
  destruct (Commit_deferred (namedResult r) s3) as [[[]| |] s4] eqn:Hd;
    try discriminate.
  intros Hc.
  assert (r = Ok tt /\ s' = s4) as [-> ->].
  { destruct r as [[]| |]; simpl in Hc; split; congruence. }
  apply (Commit_body_single s s1 k f) in Hb as (evs & Hl & Hw & Hpl); try assumption.
  assert (Hl3 : st_log s3 = st_log s1).
  { subst s3 s2. destruct (2 <=? k)%nat, (1 <=? k)%nat; reflexivity. }
  destruct (Commit_deferred_log (namedResult (Ok tt)) s3) as (evs4 & Hl4 & Hrel).
  rewrite Hd in Hl4. simpl in Hl4.
  exists (evs ++ evs4). split; [rewrite Hl4, Hl3, Hl, <- app_assoc; reflexivity|].
  rewrite segmentWrites_app, placements_app, (segmentWrites_release evs4 Hrel),
    (placements_release evs4 Hrel), !app_nil_r.
  split; assumption.
Qed.


(** ** From Put to the index *)

Lemma put_ok_inv (s s1 : St) (bucket : string) (key value : slice) (ttl : Z)
    (flag : DataFlag) (timestamp : Z) (ds : DataStructure) :
  put bucket key value ttl flag timestamp ds s = (Ok tt, s1) ->
  s1 = mkSt (appendEntry (newEntry (st_tx s) bucket key value ttl flag timestamp ds)
                         (st_tx s))
            (st_db s) (st_log s).
Proof.
  unfold put, checkTxIsClosed. unfold_prims.
  destruct (db (st_tx s)); simpl; [|discriminate].
  destruct (writable (st_tx s)); simpl; [|discriminate].
  destruct (valid _); simpl; [discriminate|]. intros [= <-]. reflexivity.
Qed.

Lemma commit_entry_pending (lastIndex : nat) (countFlag : bool) (i : nat) (e : Entry)
    (buff : list byte) (bmt : BucketMeta) (s s' : St) (x : list byte * BucketMeta) :
  commit_entry lastIndex countFlag i e buff bmt s = (Ok x, s') ->
  pendingWrites (st_tx s') =
    if decide (i = lastIndex) then pendingWrites (stampCommitted i (st_tx s))
    else pendingWrites (st_tx s).
Proof.
  unfold commit_entry. intros Hrun.
  apply bind_ok in Hrun as (b1 & s1 & Hp & Hrun).
  apply bind_ok in Hrun as (enc & s2 & He & Hrun).
  apply bind_ok in Hrun as (bmt' & s3 & Hi & Hrun).
  injection Hrun as <- <-.
  pose proof (commit_place_keeps e buff s) as Hkp. rewrite Hp in Hkp. simpl in Hkp.
  destruct Hkp as (Ht1 & _).
  pose proof (commit_index_keeps lastIndex countFlag i enc.1.1 enc.2 bmt s2) as Hki.
  rewrite Hi in Hki. simpl in Hki. destruct Hki as ((_ & _ & _ & _ & _ & Hpw3) & _).
  rewrite Hpw3.
  destruct (db (st_tx s1)) eqn:Hdb.
  2:{ rewrite commit_encode_nil in He by auto. discriminate. }
  destruct (ActiveFile (st_db s1)) as [f|] eqn:Hf.
  2:{ rewrite commit_encode_nil in He by auto. discriminate. }
  rewrite (commit_encode_eq _ _ _ _ _ f) in He by congruence. cbv zeta in He.
  destruct Ht1 as (Hid & Hd & Hw & Hs & Hz & Hpw1).
  assert (Hstamp : pendingWrites (stampCommitted i (st_tx s1)) =
                   pendingWrites (stampCommitted i (st_tx s))).
  { unfold stampCommitted. rewrite Hpw1.
    destruct (pendingWrites (st_tx s) !! i); simpl; [reflexivity|exact Hpw1]. }
  destruct (decide (i = lastIndex)).
  - apply bind_ok in He as ([] & s2' & Hwd & Hret). injection Hret as _ <-.
    pose proof (writeData_keeps (b1 ++ Encode (encoded_entry lastIndex i e))
                  (encode_state lastIndex i e b1 f s1)) as Hk.
    rewrite Hwd in Hk. simpl in Hk. destruct Hk as ((_ & _ & _ & _ & _ & Hpw2) & _).
    rewrite Hpw2. unfold encode_state. simpl.
    destruct (decide (i = lastIndex)); [exact Hstamp|congruence].
  - injection He as _ <-. unfold encode_state. simpl.
    destruct (decide (i = lastIndex)); [congruence|exact Hpw1].
Qed.

Lemma buildNotDSIdxes_range_plain (l : list Entry) :
  forall (s s' : St),
    Forall (fun e => Ds (Meta e) <> DataStructureNone) l ->
    buildNotDSIdxes_range l s = (Ok tt, s') ->
    st_tx s' = st_tx s /\ st_log s' = st_log s /\ BTreeIdx (st_db s') = BTreeIdx (st_db s).
Proof.
  induction l as [|e l IH]; intros s s' Hl Hrun.
  - injection Hrun as <-. auto.
  - apply Forall_cons_1 in Hl as [He Hl]. simpl in Hrun.
    destruct (decide (Ds (Meta e) = DataStructureNone)); [congruence|].
    apply bind_ok in Hrun as ([] & s0 & Hret & Hrun). injection Hret as <-.
    apply bind_ok in Hrun as (d & s0 & Hd & Hrun). apply theDB_ok in Hd as [-> ->].
    apply bind_ok in Hrun as ([] & s1 & Hm & Hrun). injection Hm as <-.
    apply IH in Hrun as (Ht & Hlg & Hb); [|exact Hl]. simpl in *. auto.
Qed.


(** X28.  Outside sparse mode, let [Put] add a key to a transaction with
    no pending write, with a TTL that is persistent or not yet over when
    the entry is indexed, and let [Commit] then return nil.  Then exactly
    one entry was encoded, the one [Put] made, stamped Committed, and the
    ordered index of the bucket holds for the key a hint with that entry's
    meta, the file and the offset at which it was encoded, together with
    the value in key-value mode and a nil value otherwise. *)
Theorem Put_Commit_lookup (now : Z) (bucket : string) (key value : slice) (ttl : Z)
    (s s1 s2 : St) :
  pendingWrites (st_tx s) = [] ->
  EntryIdxMode (opt (st_db s)) <> HintBPTSparseIdxMode ->
  ttl = Persistent \/ time_Now 0 <= wrap64 (to_uint64 now) + ttl * 1000 ->
  Put now bucket key value ttl s = (Ok tt, s1) ->
  Commit s1 = (Returned None, s2) ->
  exists (f : DataFile) (off : Z) (evs : list Event),
    st_log s2 = st_log s ++ evs /\
    placements evs =
      [(setStatus Committed
          (newEntry (st_tx s) bucket key value ttl DataSetFlag (to_uint64 now)
                    DataStructureTree),
        fileID f, off)] /\
    treeLookup (st_db s2) bucket (str key) =
      Some (if decide (EntryIdxMode (opt (st_db s)) = HintKeyValAndRAMIdxMode)
            then value else None,
            mkHint key (fileID f)
              (Meta (setStatus Committed
                       (newEntry (st_tx s) bucket key value ttl DataSetFlag
                                 (to_uint64 now) DataStructureTree)))
              (to_uint64 off)).
Proof.
  intros Hempty Hmode Hlive Hput Hcommit.
  unfold Put in Hput. apply put_ok_inv in Hput.
  set (e := newEntry (st_tx s) bucket key value ttl DataSetFlag (to_uint64 now)
                     DataStructureTree) in *.
  assert (Hpw1 : pendingWrites (st_tx s1) = [e]).
  { subst s1. simpl. rewrite Hempty. reflexivity. }
  assert (Hdb1 : st_db s1 = st_db s) by (subst s1; reflexivity).
  assert (Hlog1 : st_log s1 = st_log s) by (subst s1; reflexivity).
  clear Hput.
  (* Commit *)
  revert Hcommit. unfold Commit.
  destruct (Commit_body s1) as [[r sb] k] eqn:Hb.
  set (s3a := if (2 <=? k)%nat then _ else _).
  set (s3 := if (1 <=? k)%nat then _ else _).
  destruct (Commit_deferred (namedResult r) s3) as [[[]| |] s4] eqn:Hd;
    try discriminate.
  intros Hc.
  assert (r = Ok tt /\ s2 = s4) as [-> ->].
  { destruct r as [[]| |]; simpl in Hc; split; congruence. }
  apply Commit_deferred_ok in Hd as (_ & _ & _ & _ & Hdb4 & _ & Hl4).
  assert (Hbody : exists (f : DataFile) (off : Z) (evs : list Event),
             st_log sb = st_log s ++ evs /\
             placements evs = [(setStatus Committed e, fileID f, off)] /\
             treeLookup (st_db sb) bucket (str key) =
               Some (if decide (EntryIdxMode (opt (st_db s)) = HintKeyValAndRAMIdxMode)
                     then value else None,
                     mkHint key (fileID f) (Meta (setStatus Committed e))
                            (to_uint64 off)) /\
             k = 2%nat).
  { revert Hb. unfold Commit_body, isClosed, loadStatus, allocCommitBuffer. unfold_prims.
    destruct (status (st_tx s1)) as [v|] eqn:Hst; simpl; [|discriminate].
    case_bool_decide; simpl; [discriminate|].
    destruct (db (st_tx s1)) eqn:Hdbs; simpl; [|discriminate].
    rewrite Hpw1. simpl.
    set (s0 := mkSt (set_status (Some txStatusCommitting) (st_tx s1)) (st_db s1)
                    (st_log s1)).
    assert (Hrun : forall buff,
              let m := bind (commit_loop 1 0 (negb (isMerging (st_db s1))) 0 buff
                                         BucketMeta_zero)
                            (fun _ => buildNotDSIdxes) in
              (fst (m s0), snd (m s0), 2%nat) = (Ok tt, sb, k) ->
              exists (f : DataFile) (off : Z) (evs : list Event),
                st_log sb = st_log s ++ evs /\
                placements evs = [(setStatus Committed e, fileID f, off)] /\
                treeLookup (st_db sb) bucket (str key) =
                  Some (if decide (EntryIdxMode (opt (st_db s)) =
                                   HintKeyValAndRAMIdxMode)
                        then value else None,
                        mkHint key (fileID f) (Meta (setStatus Committed e))
                               (to_uint64 off)) /\
                k = 2%nat).
    { intros buff m Heq. subst m.
      destruct (bind _ _ s0) as [r sm] eqn:Hm. simpl in Heq.
      assert (r = Ok tt /\ sm = sb /\ k = 2%nat) as (-> & -> & Hk)
        by (repeat split; congruence).
      apply bind_ok in Hm as (x & sl & Hloop & Hbuild).
      assert (Hpw0 : pendingWrites (st_tx s0) = [e]) by exact Hpw1.
      simpl in Hloop. unfold bind at 1, gets in Hloop.
      rewrite Hpw0 in Hloop. simpl in Hloop.
      apply bind_ok in Hloop as (x1 & sl' & He & Hret). injection Hret as _ <-.
      pose proof (commit_entry_pending _ _ _ _ _ _ _ _ _ He) as Hpwl.
      unfold stampCommitted in Hpwl. rewrite Hpw0 in Hpwl. simpl in Hpwl.
      apply commit_entry_hint in He
        as (f & off & before & after & Hl & Hev1 & Hev2 & Hf & Hlook);
        [|simpl; rewrite Hdb1; exact Hmode|reflexivity|reflexivity|exact Hlive].
      unfold buildNotDSIdxes in Hbuild. unfold bind, gets in Hbuild.
      rewrite Hpwl in Hbuild.
      apply buildNotDSIdxes_range_plain in Hbuild as (_ & Hlb & Hbb);
        [|repeat constructor; simpl; discriminate].
      assert (Henc : encoded_entry 0 0 e = setStatus Committed e) by reflexivity.
      rewrite Henc in Hl, Hlook.
      exists f, off,
        (before ++ EvBufferWrite (setStatus Committed e) (fileID f) off :: after).
      split; [rewrite Hlb, Hl; simpl; rewrite Hlog1; reflexivity|].
      split.
      { rewrite placements_app, (placements_aux before Hev1). simpl.
        rewrite (placements_aux after Hev2). reflexivity. }
      split; [|exact Hk].
      unfold treeLookup in *. rewrite Hbb. simpl in Hlook. rewrite Hdb1 in Hlook.
      exact Hlook. }
    destruct (_ <? CommitBufferSize _); [intros Hb; exact (Hrun _ Hb)|].
    destruct (_ <? 0); [discriminate|intros Hb; exact (Hrun _ Hb)]. }
  destruct Hbody as (f & off & evs & Hl & Hpl & Hlook & ->).
  exists f, off, (evs ++ [if writable (st_tx s3) then EvUnlock else EvRUnlock]).
  split.
  { rewrite Hl4. subst s3 s3a. simpl. rewrite Hl, <- app_assoc. reflexivity. }
  split.
  { rewrite placements_app, Hpl. destruct (writable (st_tx s3)); reflexivity. }
  rewrite Hdb4. subst s3 s3a. simpl. exact Hlook.
Qed.

End Properties.

(** * The statements at the concrete instance *)

Lemma closed_tx_Rollback_Commit_witness :
  let s := Demo.st0 HintKeyValAndRAMIdxMode [] in
  let s1 := snd (Rollback s) in
  closed_tx (st_tx s1) /\
  Rollback s1 = (Fail ErrDBClosed, s1) /\
  Commit (E := Demo.env 0) s1 = (Panicked, s1).
Proof.
  intros s s1.
  apply (closed_tx_Rollback_Commit (E := Demo.env 0) s s1 None).
  right. reflexivity.
Defined.

Lemma Commit_empty_pendingWrites_witness :
  let s := Demo.st0 HintKeyValAndRAMIdxMode [] in
  fst (Commit (E := Demo.env 0) s) = Returned None /\
  st_db (snd (Commit (E := Demo.env 0) s)) = st_db s /\
  st_log (snd (Commit (E := Demo.env 0) s)) = [EvUnlock].
Proof.
  intros s.
  destruct (Commit_empty_pendingWrites (E := Demo.env 0) s eq_refl)
    as ((Hdb & _) & Hrun & _).
  destruct Hrun as (Hr & Hl); [discriminate|reflexivity|].
  split; [exact Hr|]. split; [exact Hdb|exact Hl].
Defined.

Lemma checkSize_reports_put_appends_witness :
  let s := Demo.st0 HintKeyValAndRAMIdxMode
             [Demo.entry "b" "k1" "v" 0 0; Demo.entry "b" "k2" "v" 0 0] in
  checkSize s = (Fail ErrTxnTooBig, s) /\
  fst (put "b" (Some "k3") (Some "v") 0 DataSetFlag 0
           DataStructureTree s) = Ok tt.
Proof.
  intros s.
  destruct (checkSize_reports_put_appends s "b" (Some "k3")
              (Some "v") 0 DataSetFlag 0 DataStructureTree)
    as (Hfull & _ & Hput); [discriminate|].
  split.
  - apply Hfull. left. vm_compute. discriminate.
  - rewrite Hput; reflexivity.
Defined.

(** C4 as stated fails: with two pending writes and [MaxBatchCount = 2] the
    bound is reached ([checkSize] says so), yet the next [Put] returns nil
    and the transaction holds three entries. *)
Lemma put_beyond_MaxBatchCount :
  let s := Demo.st0 HintKeyValAndRAMIdxMode
             [Demo.entry "b" "k1" "v" 0 0; Demo.entry "b" "k2" "v" 0 0] in
  let r := Put 0 "b" (Some "k3") (Some "v") 0 s in
  MaxBatchCount (opt (st_db s)) = 2 /\
  fst (checkSize s) = Fail ErrTxnTooBig /\
  fst r = Ok tt /\
  length (pendingWrites (st_tx (snd r))) = 3%nat.
Proof. repeat split; vm_compute; reflexivity. Qed.


Lemma rotateActiveFile_increments_witness :
  let s := Demo.st0 HintKeyValAndRAMIdxMode [] in
  let s1 := snd (rotateActiveFile (E := Demo.env 0) s) in
  MaxFileID (st_db s1) = MaxFileID (st_db s) + 1 /\
  ActiveFile (st_db s1) = Some (mkDataFile (MaxFileID (st_db s1)) 0 0).
Proof.
  intros s s1.
  destruct (rotateActiveFile_increments (E := Demo.env 0) s s []) as [Hone _].
  - vm_compute. discriminate.
  - apply Hone; [reflexivity|reflexivity].
Defined.

(** C8 as stated fails at the largest file id: [MaxFileID++] wraps to the
    smallest [int64], so the rotation succeeds, [MaxFileID] has not grown by
    one, and the new active segment has a smaller file id than the previous
    one. *)
Lemma rotateActiveFile_wraps :
  let d := set_ActiveFile (Some (mkDataFile maxInt64 0 0))
             (set_MaxFileID maxInt64 (Demo.db0 HintKeyValAndRAMIdxMode)) in
  let s := mkSt (Demo.tx0 []) d [] in
  let r := rotateActiveFile (E := Demo.env 0) s in
  fst r = Ok tt /\
  MaxFileID (st_db (snd r)) <> MaxFileID (st_db s) + 1 /\
  ActiveFile (st_db s) = Some (mkDataFile 9223372036854775807 0 0) /\
  ActiveFile (st_db (snd r)) = Some (mkDataFile (-9223372036854775808) 0 0).
Proof.
  split; [vm_compute; reflexivity|].
  split; [vm_compute; discriminate|].
  split; vm_compute; reflexivity.
Qed.

Lemma Commit_stamps_last_witness :
  let e1 := Demo.entry "b" "k1" "v" 0 0 in
  let e2 := Demo.entry "b" "k2" "v" 0 0 in
  let s := Demo.st0 HintKeyValAndRAMIdxMode [e1; e2] in
  let r := Commit (E := Demo.env 0) s in
  fst r = Returned None /\
  exists evs, st_log (snd r) = st_log s ++ evs /\
              bufferWrites evs = [e1; setStatus Committed e2].
Proof.
  intros e1 e2 s r.
  assert (Hr : fst r = Returned None) by (vm_compute; reflexivity).
  split; [exact Hr|].
  destruct (Commit_stamps_last (E := Demo.env 0) s (snd r) (fst r))
    as ((evs & m & Hl & _ & Hall) & _).
  - repeat constructor.
  - apply surjective_pairing.
  - exists evs. split; [exact Hl|]. rewrite (Hall Hr). reflexivity.
Defined.

Lemma Commit_oversized_witness :
  let e1 := Demo.entry "b" "k1" "v" 0 0 in
  let e2 := Demo.entry "b" "k2" (String.concat "" (repeat "0123456789" 10)) 0 0 in
  let s := Demo.st0 HintKeyValAndRAMIdxMode [e1; e2] in
  let sk := snd (commit_prefix (E := Demo.env 0) 1 s) in
  Demo.entrySize e2 = 145 /\
  fst (Commit (E := Demo.env 0) s) = Returned (Some ErrDataSizeExceed) /\
  st_db (snd (Commit (E := Demo.env 0) s)) = set_commitBuffer [] (st_db sk) /\
  exists evs, st_log sk = st_log s ++ evs /\ bufferWrites evs = [e1].
Proof.
  intros e1 e2 s sk.
  split; [reflexivity|].
  destruct (Commit_oversized (E := Demo.env 0) s sk [e1] [] e2 (Demo.encode e1, BucketMeta_zero))
    as (Hr & Hdb & _ & Hev).
  - reflexivity.
  - reflexivity.
  - discriminate.
  - vm_compute. reflexivity.
  - vm_compute. reflexivity.
  - split; [exact Hr|]. split; [exact Hdb|exact Hev].
Defined.



(** C9: what the code does with two buckets in one transaction.  In sparse
    mode, committing a Put of key "a" into bucket "b1" and a Put of key "z"
    into bucket "b2" leaves no meta for "b1" and the meta {start "a", end
    "z"} for "b2", although "a" was never inserted into "b2": the scratch
    [bucketMetaTemp] is one for all buckets and is merged into the bucket of
    the last entry only. *)
Theorem Commit_bucketMeta_two_buckets :
  let e1 := Demo.entry "b1" "a" "v" 0 0 in
  let e2 := Demo.entry "b2" "z" "v" 0 0 in
  let s := Demo.st0 HintBPTSparseIdxMode [e1; e2] in
  let r := Commit (E := Demo.env 0) s in
  fst r = Returned None /\
  bucketMetas (st_db (snd r)) !! "b1" = None /\
  bucketMetas (st_db (snd r)) !! "b2" = Some (mkBucketMeta (Some "a") (Some "z") 1 1) /\
  (forall (C : Collaborators) b b' key m,
     buildTempBucketMetaIdx b key m = buildTempBucketMetaIdx b' key m).
Proof.
  split; [vm_compute; reflexivity|].
  split; [vm_compute; reflexivity|].
  split; [vm_compute; reflexivity|].
  intros. reflexivity.
Qed.


Lemma Demo_codec_ok : codec_ok (C := Demo.collab).
Proof.
  split.
  - intros e. unfold blen. simpl. unfold Demo.encode. rewrite repeat_length.
    unfold Demo.entrySize, slen. lia.
  - intros st e. reflexivity.
Qed.

Lemma Commit_entries_within_segment_witness :
  let v := String.concat "" (repeat "0123456789" 4) in
  let e1 := Demo.entry "b" "k1" v 0 0 in
  let e2 := Demo.entry "b" "k2" v 0 0 in
  let s := Demo.st0 HintKeyValAndRAMIdxMode [e1; e2] in
  let sk := snd (commit_prefix (E := Demo.env 0) 1 s) in
  let res := commit_entry (E := Demo.env 0) 1 true 1 e2 (Demo.encode e1) BucketMeta_zero sk in
  Demo.entrySize e1 = 85 /\ Demo.entrySize e2 = 85 /\
  (exists evs,
     st_log (snd (Commit (E := Demo.env 0) s)) = st_log s ++ evs /\
     Forall (placed_ok (C := Demo.collab) 128) evs) /\
  exists flush rot rest,
    st_log (snd res) =
      st_log sk ++ flush ++ rot ++ EvBufferWrite (setStatus Committed e2) 1 0 :: rest /\
    EvWriteAt 0 0 (Demo.encode e1) ∈ flush /\
    EvRelease 0 ∈ rot.
Proof.
  intros v e1 e2 s sk res.
  split; [reflexivity|]. split; [reflexivity|].
  destruct (Commit_entries_within_segment (E := Demo.env 0) s
              (snd (Commit (E := Demo.env 0) s)) (fst (Commit (E := Demo.env 0) s)))
    as [Hplaced Hrot].
  - exact Demo_codec_ok.
  - reflexivity.
  - exists (mkDataFile 0 0 0). repeat split; simpl; lia.
  - reflexivity.
  - apply surjective_pairing.
  - split; [exact Hplaced|].
    destruct (Hrot 1%nat e2 (Demo.encode e1) BucketMeta_zero sk (snd res)
                (mkDataFile 0 0 0) (Demo.encode (setStatus Committed e2), BucketMeta_zero))
      as (_ & flush & rot & rest & Hl & _ & Hw & _ & Hrel & _).
    + vm_compute. reflexivity.
    + vm_compute. reflexivity.
    + vm_compute. reflexivity.
    + vm_compute. reflexivity.
    + vm_compute. reflexivity.
    + exists flush, rot, rest. split; [exact Hl|]. split; [|exact Hrel].
      apply Hw. discriminate.
Defined.


(** * The further properties at the concrete instance *)

Lemma put_failure_unchanged_witness :
  let s := mkSt (C := Demo.collab) (set_db None (Demo.tx0 []))
                (Demo.db0 HintKeyValAndRAMIdxMode) [] in
  let res := put "b" (Some "k") (Some "v") 0 DataSetFlag 0 DataStructureTree s in
  snd res = s /\ fst res = Fail ErrTxClosed.
Proof.
  intros s res.
  destruct (put_failure_unchanged s (snd res) "b" (Some "k") (Some "v") 0 DataSetFlag 0
              DataStructureTree (fst res)) as (Hs & err & Hr & _).
  - apply surjective_pairing.
  - vm_compute. discriminate.
  - split; [exact Hs|reflexivity].
Defined.


Lemma Rollback_running_witness :
  let s := Demo.st0 HintKeyValAndRAMIdxMode [Demo.entry "b" "k1" "v" 0 0] in
  fst (Rollback s) = Ok tt /\
  st_db (snd (Rollback s)) = st_db s /\
  pendingWrites (st_tx (snd (Rollback s))) = [] /\
  st_log (snd (Rollback s)) = [EvUnlock].
Proof.
  intros s.
  pose proof (Rollback_running s) as H.
  rewrite H; [|discriminate|reflexivity].
  repeat split; reflexivity.
Defined.

Lemma Rollback_refused_witness :
  let s := mkSt (C := Demo.collab)
             (set_status (Some txStatusCommitting)
                (Demo.tx0 [Demo.entry "b" "k1" "v" 0 0]))
             (Demo.db0 HintKeyValAndRAMIdxMode) [] in
  Rollback s = (Fail ErrCannotRollbackACommittingTx, s).
Proof.
  intros s.
  destruct (Rollback_refused s) as [H _]; [discriminate|].
  apply H. reflexivity.
Defined.

Lemma Begin_then_end_witness :
  let d := Demo.db0 HintKeyValAndRAMIdxMode in
  let t := mkTx (C := Demo.collab) 7 (Some theDBRef) true (Some txStatusRunning) []
                (Some ∅) 0 in
  st_log (snd (Rollback (mkSt t d [EvLock]))) = [EvLock; EvUnlock] /\
  st_log (snd (Commit (E := Demo.env 0) (mkSt t d [EvLock]))) = [EvLock; EvUnlock].
Proof.
  intros d t.
  destruct (Begin_then_end (E := Demo.env 0) true d [] [EvLock] t)
    as ((_ & _ & Hr) & (_ & _ & Hc)).
  - reflexivity.
  - split; [exact Hr|exact Hc].
Defined.

Lemma CommitWith_delivers_witness :
  let s := Demo.st0 HintKeyValAndRAMIdxMode [Demo.entry "b" "k1" "v" 0 0] in
  st_log (snd (CommitWith (E := Demo.env 0) (Some 1%nat) s)) =
    [EvSendToWriteCh 7; EvGo (mkTxnCb true (Some 1%nat) None)].
Proof.
  intros s.
  destruct (CommitWith_delivers (E := Demo.env 0) s 1%nat) as (H & _ & _).
  - discriminate.
  - discriminate.
  - rewrite H. reflexivity.
Defined.

Lemma writeData_rejects_witness :
  let s := Demo.st0 HintKeyValAndRAMIdxMode [] in
  let s0 := mkSt (C := Demo.collab) (set_db None (Demo.tx0 []))
                 (set_ActiveFile None (Demo.db0 HintKeyValAndRAMIdxMode)) [] in
  let data := repeat Byte.x00 200 in
  writeData (E := Demo.env 0) data s = (Fail ErrNotEnoughFileSpace, s) /\
  writeData (E := Demo.env 0) [] s0 = (Ok tt, s0).
Proof.
  intros s s0 data.
  split.
  - destruct (writeData_rejects (E := Demo.env 0) data s) as (_ & H).
    destruct (H (mkDataFile 0 0 0)) as (Hbig & _).
    + discriminate.
    + reflexivity.
    + discriminate.
    + vm_compute. split; discriminate.
    + apply Hbig. vm_compute. reflexivity.
  - destruct (writeData_rejects (E := Demo.env 0) [] s0) as (H & _). exact H.
Defined.

Lemma writeData_advances_witness :
  let s := Demo.st0 HintKeyValAndRAMIdxMode [] in
  let data := repeat Byte.x00 100 in
  fst (writeData (E := Demo.env 0) data s) = Ok tt /\
  ActiveFile (st_db (snd (writeData (E := Demo.env 0) data s))) =
    Some (mkDataFile 0 100 100) /\
  st_log (snd (writeData (E := Demo.env 0) data s)) = [EvWriteAt 0 0 data].
Proof.
  intros s data.
  pose proof (writeData_advances (E := Demo.env 0) data s (mkDataFile 0 0 0)) as H.
  rewrite H.
  - repeat split; reflexivity.
  - discriminate.
  - reflexivity.
  - discriminate.
  - vm_compute. split; discriminate.
  - vm_compute. discriminate.
  - reflexivity.
Defined.

Lemma rotateActiveFile_release_fails_witness :
  let s := Demo.st0 HintKeyValAndRAMIdxMode [] in
  fst (rotateActiveFile (E := Demo.env_fail) s) = Fail (ErrExternal 2) /\
  MaxFileID (st_db (snd (rotateActiveFile (E := Demo.env_fail) s))) = 1 /\
  ActiveFile (st_db (snd (rotateActiveFile (E := Demo.env_fail) s))) =
    Some (mkDataFile 0 0 0).
Proof.
  intros s.
  pose proof (rotateActiveFile_release_fails (E := Demo.env_fail) s (mkDataFile 0 0 0)
                (ErrExternal 2)) as H.
  rewrite H.
  - repeat split; reflexivity.
  - discriminate.
  - reflexivity.
  - reflexivity.
  - reflexivity.
Defined.

Lemma rotateActiveFile_plain_witness :
  let s := Demo.st0 HintKeyValAndRAMIdxMode [] in
  fst (rotateActiveFile (E := Demo.env 0) s) = Ok tt /\
  st_log (snd (rotateActiveFile (E := Demo.env 0) s)) =
    [EvRelease 0; EvGetDataFile (DataPath 1)] /\
  ActiveFile (st_db (snd (rotateActiveFile (E := Demo.env 0) s))) =
    Some (mkDataFile 1 0 0).
Proof.
  intros s.
  pose proof (rotateActiveFile_plain (E := Demo.env 0) s (mkDataFile 0 0 0)) as H.
  rewrite H.
  - repeat split; reflexivity.
  - discriminate.
  - reflexivity.
  - discriminate.
  - reflexivity.
  - reflexivity.
  - reflexivity.
Defined.

Lemma rotateActiveFile_sparse_witness :
  let s := Demo.st0 HintBPTSparseIdxMode [] in
  let s' := snd (rotateActiveFile (E := Demo.env 0) s) in
  ReservedStoreTxIDIdxes (st_tx s') = Some {[ 0 := NewTree ]} /\
  BPTreeKeyEntryPosMap (st_db s') = ∅ /\
  length (BPTreeRootIdxes (st_db s')) = 1%nat.
Proof.
  intros s s'.
  destruct (rotateActiveFile_sparse (E := Demo.env 0) s s')
    as (_ & _ & Hmap & (m & Hm & Hres) & (r & Hroot & _) & _).
  - reflexivity.
  - vm_compute. reflexivity.
  - split; [|split].
    + rewrite Hres. injection Hm as <-. reflexivity.
    + exact Hmap.
    + rewrite Hroot. reflexivity.
Defined.


Lemma Demo_compare_ok : compare_ok (C := Demo.collab).
Proof.
  assert (Hle : forall a b : slice,
            Demo.cmp a b <= 0 <-> String.compare (str a) (str b) <> Gt).
  { intros a b. unfold Demo.cmp. destruct (String.compare (str a) (str b));
      split; intros; try lia; try discriminate; congruence. }
  split.
  - intros a b. simpl. unfold Demo.cmp.
    rewrite (String.compare_antisym (str b) (str a)).
    destruct (String.compare (str a) (str b)); simpl; lia.
  - intros a b c. simpl. rewrite !Hle. intros Hab Hbc.
    destruct (String.compare (str a) (str b)) eqn:E1; [| |congruence].
    + apply String.compare_eq_iff in E1. rewrite E1. exact Hbc.
    + destruct (String.compare (str b) (str c)) eqn:E2; [| |congruence].
      * apply String.compare_eq_iff in E2. rewrite <- E2, E1. discriminate.
      * apply OrderedTypeEx.String_as_OT.cmp_lt in E1, E2.
        pose proof (OrderedTypeEx.String_as_OT.lt_trans _ _ _ E1 E2) as H.
        apply OrderedTypeEx.String_as_OT.cmp_lt in H.
        unfold OrderedTypeEx.String_as_OT.cmp in H. rewrite H. discriminate.
Qed.

Lemma buildTempBucketMetaIdx_spans_witness :
  let l := [Demo.entry "b1" "k2" "v" 0 0; Demo.entry "b2" "k1" "v" 0 0;
            Demo.entry "b1" "k3" "v" 0 0] in
  tempMeta (C := Demo.collab) l BucketMeta_zero =
    mkBucketMeta (Some "k1") (Some "k3") 2 2 /\
  spans (C := Demo.collab) l (tempMeta (C := Demo.collab) l BucketMeta_zero).
Proof.
  intros l. split; [vm_compute; reflexivity|].
  apply (buildTempBucketMetaIdx_spans (C := Demo.collab) l).
  - exact Demo_compare_ok.
  - discriminate.
  - repeat constructor; discriminate.
Defined.

Lemma buildBucketMetaIdx_covered_witness :
  let bm := mkBucketMeta (Some "a") (Some "z") 1 1 in
  let s := mkSt (C := Demo.collab) (Demo.tx0 [])
             (set_bucketMetas {[ "b" := bm ]} (Demo.db0 HintBPTSparseIdxMode)) [] in
  buildBucketMetaIdx (E := Demo.env 0) "b" (Some "k")
    (mkBucketMeta (Some "k") (Some "m") 1 1) s = (Ok tt, s).
Proof.
  intros bm s.
  apply (buildBucketMetaIdx_covered (E := Demo.env 0) "b" (Some "k") _ bm s).
  - discriminate.
  - reflexivity.
  - vm_compute. discriminate.
  - vm_compute. discriminate.
Defined.

Lemma buildBucketMetaIdx_open_fails_witness :
  let bm := mkBucketMeta (Some "k") (Some "m") 1 1 in
  let t := mkBucketMeta (Some "a") (Some "c") 1 1 in
  let s := mkSt (C := Demo.collab) (Demo.tx0 [])
             (set_bucketMetas {[ "b" := bm ]} (Demo.db0 HintBPTSparseIdxMode)) [] in
  let res := buildBucketMetaIdx (E := Demo.env_fail) "b" (Some "a") t s in
  fst res = Fail (ErrExternal 3) /\
  bucketMetas (st_db (snd res)) !! "b" = Some (mkBucketMeta (Some "a") (Some "m") 1 1).
Proof.
  intros bm t s res.
  destruct (buildBucketMetaIdx_open_fails (E := Demo.env_fail) "b" (Some "a") t s
              (ErrExternal 3)) as [_ H].
  - discriminate.
  - reflexivity.
  - subst res. rewrite (H bm).
    + split; [reflexivity|]. simpl. rewrite lookup_insert_eq. vm_compute. reflexivity.
    + reflexivity.
    + left. vm_compute. reflexivity.
Defined.

Lemma buildBucketMetaIdx_writes_witness :
  let t := mkBucketMeta (Some "a") (Some "c") 1 1 in
  let s := Demo.st0 HintBPTSparseIdxMode [] in
  let res := buildBucketMetaIdx (E := Demo.env 0) "b" (Some "a") t s in
  fst res = Ok tt /\
  bucketMetas (st_db (snd res)) !! "b" = Some t /\
  st_log (snd res) =
    [EvOpenFile (BucketMetaFilePath "b"); EvFdWriteAt (BucketMetaFilePath "b") []].
Proof.
  intros t s res.
  pose proof (buildBucketMetaIdx_writes (E := Demo.env 0) "b" (Some "a") t s) as H.
  subst res. rewrite (H ltac:(discriminate) eq_refl (fun _ => eq_refl) eq_refl t).
  - split; [reflexivity|]. split; [|reflexivity]. simpl. apply lookup_insert_eq.
  - left. split; reflexivity.
Defined.

Lemma buildNotDSIdxes_counts_witness :
  let s := Demo.st0 HintKeyValAndRAMIdxMode
             [Demo.entry "b" "k1" "v" 0 0; Demo.entry "b" "k2" "v" 0 0] in
  fst (buildNotDSIdxes s) = Ok tt /\ KeyCount (st_db (snd (buildNotDSIdxes s))) = 2.
Proof.
  intros s.
  pose proof (buildNotDSIdxes_counts s) as H.
  rewrite H.
  - split; reflexivity.
  - discriminate.
  - repeat constructor; discriminate.
  - vm_compute. split; discriminate.
Defined.

Lemma buildTreeIdx_set_lookup_witness :
  let s := Demo.st0 HintKeyAndRAMIdxMode [] in
  let r := Demo.record 0 17 "b" "k" "v" 0 0 in
  treeLookup (st_db (snd (buildTreeIdx 5 r true s))) "b" "k" = Some (None, H r).
Proof.
  intros s r.
  destruct (buildTreeIdx_set_lookup 5 r true s (mkDataFile 0 0 0))
    as (s' & Hrun & _ & _ & Hlook & _).
  - discriminate.
  - reflexivity.
  - discriminate.
  - reflexivity.
  - left. reflexivity.
  - rewrite Hrun. exact Hlook.
Defined.

Lemma buildTreeIdx_delete_lookup_witness :
  let s0 := Demo.st0 HintKeyValAndRAMIdxMode [] in
  let s := snd (buildTreeIdx 5 (Demo.record 0 17 "b" "k" "v" 0 0) true s0) in
  let r := mkRecord (mkHint (Some "k") 0
                       (WithFlag DataDeleteFlag (Meta (Demo.entry "b" "k" "" 0 0))) 62)
                    None "b" in
  treeLookup (st_db s) "b" "k" <> None /\
  treeLookup (st_db (snd (buildTreeIdx 5 r true s))) "b" "k" = None.
Proof.
  intros s0 s r. split; [vm_compute; discriminate|].
  destruct (buildTreeIdx_delete_lookup 5 r true s) as (s' & Hrun & _ & _ & Hlook & _).
  - discriminate.
  - discriminate.
  - reflexivity.
  - rewrite Hrun. exact Hlook.
Defined.

Lemma buildTreeIdx_sparse_witness :
  let s := Demo.st0 HintBPTSparseIdxMode [] in
  let r := Demo.record 0 17 "b" "k" "v" 1 0 in
  let res := buildTreeIdx 5000 r true s in
  expireTimeOf (HMeta (H r)) = 1000 /\
  fst res = Ok tt /\ tm (st_db (snd res)) = tm (st_db s).
Proof.
  intros s r res. split; [reflexivity|].
  destruct (buildTreeIdx_sparse 5000 r true s (mkDataFile 0 0 0))
    as (s' & Hrun & _ & _ & _ & Htm & _).
  - discriminate.
  - reflexivity.
  - reflexivity.
  - subst res. rewrite Hrun. split; [reflexivity|exact Htm].
Defined.

Lemma buildSortedSetIdx_short_split_witness :
  let s := Demo.st0 HintKeyValAndRAMIdxMode [] in
  let r := mkRecord (mkHint (Some "k") 0
                       (WithFlag DataZAddFlag (Meta (Demo.entry "b" "k" "v" 0 0))) 0)
                    (Some "v") "b" in
  fst (buildSortedSetIdx r s) = Panic.
Proof.
  intros s r.
  destruct (buildSortedSetIdx_short_split r s) as (H & _).
  - discriminate.
  - left. split; [reflexivity|]. vm_compute. lia.
  - exact H.
Defined.

Lemma buildListIdx_expired_or_short_witness :
  let s := Demo.st0 HintKeyValAndRAMIdxMode [] in
  let r := mkRecord (mkHint (Some "k") 0
                       (WithFlag DataLSetFlag (Meta (Demo.entry "b" "k" "v" 0 0))) 0)
                    (Some "v") "b" in
  fst (buildListIdx 5 r s) = Panic.
Proof.
  intros s r.
  destruct (buildListIdx_expired_or_short 5 r s) as (_ & H).
  - discriminate.
  - apply H; [reflexivity|]. right. split; [left; reflexivity|]. vm_compute. lia.
Defined.


Lemma Commit_writes_encodings_witness :
  let e1 := Demo.entry "b" "k1" "v" 0 0 in
  let e2 := Demo.entry "b" "k2" "v" 0 0 in
  let s := Demo.st0 HintKeyValAndRAMIdxMode [e1; e2] in
  exists evs,
    st_log (snd (Commit (E := Demo.env 0) s)) = st_log s ++ evs /\
    writtenBytes evs = Demo.encode e1 ++ Demo.encode (setStatus Committed e2).
Proof.
  intros e1 e2 s.
  destruct (Commit_writes_encodings (E := Demo.env 0) s (snd (Commit (E := Demo.env 0) s)))
    as ((evs & Hl & Hw) & _).
  - reflexivity.
  - assert (Hfst : fst (Commit (E := Demo.env 0) s) = Returned None)
      by (vm_compute; reflexivity).
    rewrite <- Hfst. apply surjective_pairing.
  - exists evs. split; [exact Hl|]. rewrite Hw. vm_compute. reflexivity.
Defined.

Lemma commit_entry_hint_position_witness :
  let e := Demo.entry "b" "k" "v" 0 0 in
  let s := Demo.st0 HintKeyValAndRAMIdxMode [e] in
  let s' := snd (commit_entry (E := Demo.env 0) 0 true 0 e [] BucketMeta_zero s) in
  exists f off before after,
    st_log s' = st_log s ++ before ++ EvBufferWrite (setStatus Committed e) (fileID f) off
                  :: after /\
    ActiveFile (st_db s') = Some f /\
    treeLookup (st_db s') "b" "k" =
      Some (Some "v", mkHint (Some "k") (fileID f) (Meta (setStatus Committed e))
                             (to_uint64 off)).
Proof.
  intros e s s'.
  destruct (commit_entry_hint_position (E := Demo.env 0) 0 true 0 e [] BucketMeta_zero s s'
              (Demo.encode (setStatus Committed e), BucketMeta_zero))
    as (f & off & before & after & Hl & Hf & Hlook).
  - discriminate.
  - reflexivity.
  - reflexivity.
  - left. reflexivity.
  - vm_compute. reflexivity.
  - exists f, off, before, after. split; [exact Hl|]. split; [exact Hf|exact Hlook].
Defined.


Lemma commit_prefix_tempMeta_witness :
  let e1 := Demo.entry "b1" "k2" "v" 0 0 in
  let e2 := Demo.entry "b2" "k1" "v" 0 0 in
  let s := Demo.st0 HintBPTSparseIdxMode [e1; e2] in
  let bmt := mkBucketMeta (Some "k1") (Some "k2") 2 2 in
  let buff := Demo.encode e1 ++ Demo.encode (setStatus Committed e2) in
  fst (commit_prefix (E := Demo.env 0) 2 s) = Ok (buff, bmt) /\
  bmt = tempMeta (C := Demo.collab) [e1; e2] BucketMeta_zero.
Proof.
  intros e1 e2 s bmt buff.
  split; [vm_compute; reflexivity|].
  apply (commit_prefix_tempMeta (E := Demo.env 0) 2 s
           (snd (commit_prefix (E := Demo.env 0) 2 s)) buff bmt).
  - vm_compute. lia.
  - vm_compute. reflexivity.
Defined.


Lemma Commit_single_write_witness :
  let e1 := Demo.entry "b" "k1" "v" 0 0 in
  let e2 := Demo.entry "b" "k2" "v" 0 0 in
  let s := Demo.st0 HintKeyValAndRAMIdxMode [e1; e2] in
  exists evs,
    st_log (snd (Commit (E := Demo.env 0) s)) = st_log s ++ evs /\
    segmentWrites evs =
      [(0, 0, Demo.encode e1 ++ Demo.encode (setStatus Committed e2))] /\
    placements evs = [(e1, 0, 0); (setStatus Committed e2, 0, 46)].
Proof.
  intros e1 e2 s.
  destruct (Commit_single_write (E := Demo.env 0) s (snd (Commit (E := Demo.env 0) s))
              (mkDataFile 0 0 0))
    as (evs & Hl & Hw & Hpl).
  - exact Demo_codec_ok.
  - reflexivity.
  - reflexivity.
  - reflexivity.
  - reflexivity.
  - reflexivity.
  - vm_compute. discriminate.
  - vm_compute. discriminate.
  - assert (Hfst : fst (Commit (E := Demo.env 0) s) = Returned None)
      by (vm_compute; reflexivity).
    rewrite <- Hfst. apply surjective_pairing.
  - exists evs. split; [exact Hl|]. rewrite Hw, Hpl.
    split; vm_compute; reflexivity.
Defined.


Lemma Put_Commit_lookup_witness :
  let s := Demo.st0 HintKeyValAndRAMIdxMode [] in
  let s1 := snd (Put 5 "b" (Some "k") (Some "v") 0 s) in
  let s2 := snd (Commit (E := Demo.env 0) s1) in
  let e := setStatus Committed
             (newEntry (st_tx s) "b" (Some "k") (Some "v") 0 DataSetFlag 5
                       DataStructureTree) in
  exists (f : DataFile) (off : Z) (evs : list Event),
    st_log s2 = st_log s ++ evs /\
    placements evs = [(e, fileID f, off)] /\
    treeLookup (st_db s2) "b" "k" =
      Some (Some "v", mkHint (Some "k") (fileID f) (Meta e) (to_uint64 off)).
Proof.
  intros s s1 s2 e.
  destruct (Put_Commit_lookup (E := Demo.env 0) 5 "b" (Some "k") (Some "v") 0 s s1 s2)
    as (f & off & evs & Hl & Hpl & Hlook).
  - reflexivity.
  - vm_compute. discriminate.
  - left. reflexivity.
  - assert (Hfst : fst (Put 5 "b" (Some "k") (Some "v") 0 s) = Ok tt)
      by (vm_compute; reflexivity).
    rewrite <- Hfst. apply surjective_pairing.
  - assert (Hfst : fst (Commit (E := Demo.env 0) s1) = Returned None)
      by (vm_compute; reflexivity).
    rewrite <- Hfst. apply surjective_pairing.
  - exists f, off, evs. split; [exact Hl|]. split; [exact Hpl|]. exact Hlook.
Defined.
